(** * Route selection, deduplication and generation: a shallow embedding

    The definitions below follow the Python sources of the routing
    scripts ([models.py], [config.py], [route_analyzer.py],
    [route_generator.py], [file_writer.py]).

    Conventions.
    - Python [int] is [Z]; a finite Python [float] is its exact
      rational value in [Q].  The floating-point arithmetic that
      decides which routes are selected, the coverage thresholds,
      rounds each operation to binary64 (see [binary64] below);
      averages, distances and durations are only carried to the
      output and are exact.
    - Python [str] is [string]; [<] on [str] is [String.ltb]
      (lexicographic by code point).
    - A [dict] keyed by strings is a [gmap string _].
    - A function that may raise returns a [result]. *)

From Stdlib Require Import ZArith QArith Qround Qabs Qpower Lqa.
From Stdlib Require Import String Ascii List Bool Lia.
From Stdlib Require Import Permutation Sorted OrderedTypeEx.
From Stdlib Require Import DecimalString DecimalZ DecimalPos.
From stdpp Require Import base option list gmap strings fin_maps.

Local Open Scope string_scope.
Local Open Scope list_scope.
Local Open Scope Z_scope.

(** ** Exceptions and fallible computations *)

(** The exceptions the scripts raise or catch.  [HTTPError] and the
    other [requests] exceptions carry what the handlers read:
    the status code, [str(e)] and [type(e).__name__]. *)
Inductive PyException : Type :=
  | ValueError (msg : string)
  | ZeroDivisionError (msg : string)
  | HTTPError (status_code : Z) (msg : string)
  | RequestException (type_name : string) (msg : string)
  | OtherException (type_name : string) (msg : string).

(** [str(e)] *)
Definition exc_str (e : PyException) : string :=
  match e with
  | ValueError m | ZeroDivisionError m | HTTPError _ m
  | RequestException _ m | OtherException _ m => m
  end.

(** [type(e).__name__] *)
Definition exc_type_name (e : PyException) : string :=
  match e with
  | ValueError _ => "ValueError"
  | ZeroDivisionError _ => "ZeroDivisionError"
  | HTTPError _ _ => "HTTPError"
  | RequestException n _ | OtherException n _ => n
  end.

Inductive result (A : Type) : Type :=
  | Ok (a : A)
  | Raise (e : PyException).
Arguments Ok {A} a.
Arguments Raise {A} e.

Definition rbind {A B} (r : result A) (k : A -> result B) : result B :=
  match r with
  | Ok a => k a
  | Raise e => Raise e
  end.

Notation "x <-- r ;; k" := (rbind r (fun x => k))
  (at level 100, r at next level, right associativity).

Fixpoint rmapM {A B} (f : A -> result B) (l : list A) : result (list B) :=
  match l with
  | [] => Ok []
  | x :: l' => y <-- f x ;; ys <-- rmapM f l' ;; Ok (y :: ys)
  end.

Definition is_ok {A} (r : result A) : bool :=
  match r with Ok _ => true | Raise _ => false end.

(** ** models.py *)

Module Models.

(** [sorted([a, b])] followed by [f"{stations[0]}-{stations[1]}"]:
    the stable sort swaps the two only when [b < a]. *)
Definition canonical_key (a b : string) : string :=
  if (b <? a)%string then (b ++ "-" ++ a)%string else (a ++ "-" ++ b)%string.

Record StationCoordinate : Type := mkStationCoordinate {
  station_id : string;
  latitude : Q;
  longitude : Q
}.

(** [StationCoordinate.__post_init__] *)
Definition new_StationCoordinate (sid : string) (lat lon : Q)
  : result StationCoordinate :=
  if negb (Qle_bool (-90) lat && Qle_bool lat 90) then
    Raise (ValueError "Invalid latitude")
  else if negb (Qle_bool (-180) lon && Qle_bool lon 180) then
    Raise (ValueError "Invalid longitude")
  else Ok (mkStationCoordinate sid lat lon).

Record RouteStatistics : Type := mkRouteStatistics {
  departure_station_id : string;
  return_station_id : string;
  trip_count : Z;
  avg_distance_m : Q;
  avg_duration_s : Q
}.

(** [RouteStatistics.route_key] *)
Definition route_key (r : RouteStatistics) : string :=
  canonical_key (departure_station_id r) (return_station_id r).

(** [RouteStatistics.is_reversed] *)
Definition is_reversed (r : RouteStatistics) : bool :=
  (return_station_id r <? departure_station_id r)%string.

Definition Qlt_bool (x y : Q) : bool := negb (Qle_bool y x).

(** [RouteStatistics.__post_init__] *)
Definition new_RouteStatistics (dep ret : string) (count : Z) (dist dur : Q)
  : result RouteStatistics :=
  if count <? 1 then Raise (ValueError "Trip count must be positive")
  else if Qlt_bool dist 0 then Raise (ValueError "Distance cannot be negative")
  else if Qlt_bool dur 0 then Raise (ValueError "Duration cannot be negative")
  else Ok (mkRouteStatistics dep ret count dist dur).

Record RouteGeometry : Type := mkRouteGeometry {
  g_route_key : string;
  g_departure_station_id : string;
  g_return_station_id : string;
  polyline : string;
  distance_km : Q;
  duration_minutes : Q
}.

(** [RouteGeometry.__post_init__]; the warning about long routes has
    no effect on the value. *)
Definition new_RouteGeometry (key dep ret poly : string) (dist dur : Q)
  : result RouteGeometry :=
  if String.eqb poly "" then Raise (ValueError "Polyline cannot be empty")
  else if Qlt_bool dist 0 then Raise (ValueError "Distance cannot be negative")
  else if Qlt_bool dur 0 then Raise (ValueError "Duration cannot be negative")
  else Ok (mkRouteGeometry key dep ret poly dist dur).

End Models.
Export Models.

(** ** config.py *)

Module Config.

Inductive RouteSelectionType : Type := TOP_N | PERCENTAGE.

Record RouteSelectionStrategy : Type := mkRouteSelectionStrategy {
  selection_type : RouteSelectionType;
  top_n : option Z;
  coverage_percentage : option Q
}.

(** [RouteSelectionStrategy.create_top_n] *)
Definition create_top_n (n : Z) : result RouteSelectionStrategy :=
  if n <? 1 then Raise (ValueError "N must be positive")
  else Ok (mkRouteSelectionStrategy TOP_N (Some n) None).

(** [RouteSelectionStrategy.create_percentage]:
    [if not (0 < pct <= 100): raise ValueError] *)
Definition create_percentage (pct : Q) : result RouteSelectionStrategy :=
  if negb (Qlt_bool 0 pct && Qle_bool pct 100) then
    Raise (ValueError "Percentage must be between 0 and 100")
  else Ok (mkRouteSelectionStrategy PERCENTAGE None (Some pct)).

Record RouteGenerationConfig : Type := mkRouteGenerationConfig {
  global_strategy : option RouteSelectionStrategy;
  individual_strategy : option RouteSelectionStrategy;
  per_station_aggregate_strategy : option RouteSelectionStrategy;
  min_trips_threshold : Z;
  batch_size : Z;
  rg_log_interval : Z;
  rg_costing : string;
  rg_bicycle_type : string
}.

Definition is_not_None {A} (o : option A) : bool :=
  match o with Some _ => true | None => false end.

Definition should_generate_global (c : RouteGenerationConfig) : bool :=
  is_not_None (global_strategy c).
Definition should_generate_individual (c : RouteGenerationConfig) : bool :=
  is_not_None (individual_strategy c).
Definition should_generate_aggregate (c : RouteGenerationConfig) : bool :=
  is_not_None (per_station_aggregate_strategy c).

(** [RouteGenerationConfig.__post_init__], run by the dataclass
    constructor on the fields it was given. *)
Definition RouteGenerationConfig_post_init (c : RouteGenerationConfig)
  : result RouteGenerationConfig :=
  if negb (should_generate_global c || should_generate_individual c
           || should_generate_aggregate c) then
    Raise (ValueError
      "At least one of global_strategy, individual_strategy, or per_station_aggregate_strategy must be set")
  else if min_trips_threshold c <? 1 then
    Raise (ValueError "min_trips_threshold must be positive")
  else if negb ((1 <=? batch_size c) && (batch_size c <=? 1000)) then
    Raise (ValueError "batch_size must be between 1 and 1000")
  else Ok c.

(** The constructor with the dataclass defaults for the fields after
    the three strategies. *)
Definition new_RouteGenerationConfig
    (g i a : option RouteSelectionStrategy) (min_trips : Z)
  : result RouteGenerationConfig :=
  RouteGenerationConfig_post_init
    (mkRouteGenerationConfig g i a min_trips 50 10 "bicycle" "Road").

(** The fields of [ValhallaConfig] that the generator reads. *)
Record ValhallaConfig : Type := mkValhallaConfig {
  base_url : string;
  timeout_seconds : Z;
  max_retries : Z;
  retry_delay_seconds : Q;
  snap_radius_m : Z;
  min_reachability_nodes : Z
}.

(** The fields of [GenerationConfig] that the generator reads. *)
Record GenerationConfig : Type := mkGenerationConfig {
  gc_batch_size : Z;
  log_interval : Z;
  costing : string;
  bicycle_type : string
}.

End Config.
Export Config.

(** ** IEEE 754 binary64

    A finite [float] of Python, and a finite [float8] of PostgreSQL,
    is a binary64 number: an integer multiple [m * 2 ^ k] with
    [|m| < 2 ^ 53] and [-1074 <= k].  It is modelled by its exact
    rational value, and an arithmetic operation by the exact operation
    followed by rounding to the nearest binary64 number, a tie going
    to the even multiple.  The exponent is bounded below, so results
    near zero round as subnormal numbers do, and not above: a result
    of magnitude [2 ^ 1024] or more, which the machine replaces by an
    infinity (and [float(n)] by an [OverflowError]), keeps its finite
    value here.  Like the infinity, that value lies beyond every trip
    count below [2 ^ 1023], so a comparison with such a count comes
    out the same. *)

(** The nearest integer, a tie going to the even one. *)
Definition round_half_even (x : Q) : Z :=
  let lower := Qfloor x in
  let rest := (x - inject_Z lower)%Q in
  if Qlt_bool rest (1 # 2) then lower
  else if Qlt_bool (1 # 2) rest then lower + 1
  else if Z.even lower then lower else lower + 1.

(** [floor (log2 x)] for [0 < x]. *)
Definition ilog2 (x : Q) : Z :=
  let e := Z.log2 (Qnum x) - Z.log2 (Zpos (Qden x)) in
  if Qle_bool (2 ^ e) x then e else e - 1.

(** The exponent of the last place of the binary64 numbers around
    [x]: 53 significant bits, and no exponent below -1074. *)
Definition last_place (x : Q) : Z := Z.max (ilog2 (Qabs x) - 52) (-1074).

(** Rounding to the nearest multiple of [2 ^ k]. *)
Definition round_at (k : Z) (x : Q) : Q :=
  (inject_Z (round_half_even (x / 2 ^ k)) * 2 ^ k)%Q.

(** Rounding to the nearest binary64 number. *)
Definition binary64 (x : Q) : Q := round_at (last_place x) x.

(** [float(n)] for an [int], and the conversion of an integer operand
    of a floating-point operation. *)
Definition float_of_int (n : Z) : Q := binary64 (inject_Z n).

(** [x / y] on floats, for [y] other than zero. *)
Definition float_div (x y : Q) : Q := binary64 (x / y).

(** [x * y] on floats. *)
Definition float_mul (x y : Q) : Q := binary64 (x * y).

(** ** The statistics source: the SQL of route_analyzer.py

    The table [trips] is a list of rows.  Each query of
    [RouteAnalyzer] is written out as a function of the table: [WHERE]
    is a filter, [GROUP BY] collects the rows of each distinct key,
    [COUNT] and [AVG] aggregate a group, window functions run over a
    partition in its window order. *)

Module Database.

Record Trip : Type := mkTrip {
  t_departure_station_id : string;
  t_return_station_id : string;
  distance_meters : option Q;
  duration_seconds : option Q
}.

(** One row of [GROUP BY departure_station_id, return_station_id]
    with its aggregates; [AVG] is [NULL] when every value is. *)
Record RouteRow : Type := mkRouteRow {
  row_departure_station_id : string;
  row_return_station_id : string;
  row_trip_count : Z;
  row_avg_distance_m : option Q;
  row_avg_duration_s : option Q
}.

(** The distinct values of a list, in order of first appearance. *)
Fixpoint distinct {A} (eqb : A -> A -> bool) (l : list A) : list A :=
  match l with
  | [] => []
  | x :: l' => x :: List.filter (fun y => negb (eqb y x)) (distinct eqb l')
  end.

Definition pair_eqb (p q : string * string) : bool :=
  String.eqb (fst p) (fst q) && String.eqb (snd p) (snd q).

Definition trip_pair (t : Trip) : string * string :=
  (t_departure_station_id t, t_return_station_id t).

Fixpoint Qsum (l : list Q) : Q :=
  match l with
  | [] => 0%Q
  | x :: l' => (x + Qsum l')%Q
  end.

(** [AVG(col)]: the mean of the non-[NULL] values, [NULL] if none. *)
Definition sql_avg (vals : list (option Q)) : option Q :=
  match omap id vals with
  | [] => None
  | xs => Some (Qred (Qsum xs / inject_Z (Z.of_nat (length xs))))
  end.

(** [WHERE departure_station_id != return_station_id] *)
Definition where_not_loop (trips : list Trip) : list Trip :=
  List.filter
    (fun t =>
       negb (String.eqb (t_departure_station_id t) (t_return_station_id t)))
    trips.

Definition group_of (p : string * string) (trips : list Trip) : list Trip :=
  List.filter (fun t => pair_eqb (trip_pair t) p) trips.

Definition aggregate (trips : list Trip) (p : string * string) : RouteRow :=
  let g := group_of p trips in
  mkRouteRow (fst p) (snd p) (Z.of_nat (length g))
    (sql_avg (map distance_meters g)) (sql_avg (map duration_seconds g)).

(** [SELECT ..., COUNT( * ), AVG(..), AVG(..) FROM trips
     WHERE departure_station_id != return_station_id
     GROUP BY departure_station_id, return_station_id] *)
Definition route_stats (trips : list Trip) : list RouteRow :=
  let ts := where_not_loop trips in
  map (aggregate ts) (distinct pair_eqb (map trip_pair ts)).

(** [SELECT departure_station_id, COUNT( * ) ... GROUP BY departure_station_id],
    read at one station. *)
Definition station_trips (trips : list Trip) (s : string) : Z :=
  Z.of_nat (length (List.filter
    (fun t => String.eqb (t_departure_station_id t) s) (where_not_loop trips))).

Definition departs_from (s : string) (r : RouteRow) : bool :=
  String.eqb (row_departure_station_id r) s.

(** A row of the CTE [ranked_routes]. *)
Record RankedRow : Type := mkRankedRow {
  rr_row : RouteRow;
  rr_total_trips : Z;
  rr_cumulative_trips : Z;
  rr_rank : Z
}.

(** [SUM(trip_count) OVER (... ROWS BETWEEN UNBOUNDED PRECEDING AND
    CURRENT ROW)] and [ROW_NUMBER() OVER (...)] along one partition
    given in its window order. *)
Fixpoint window (total cum rank : Z) (rows : list RouteRow) : list RankedRow :=
  match rows with
  | [] => []
  | r :: rs =>
      let c := cum + row_trip_count r in
      mkRankedRow r total c rank :: window total c (rank + 1) rs
  end.

Section Queries.

(** [ORDER BY trip_count DESC] leaves the order of rows with equal
    counts to the database, and so does
    [ORDER BY departure_station_id, trip_count DESC]; both are
    parameters here, constrained only by what SQL promises. *)
Variable order_by_count : list RouteRow -> list RouteRow.
Variable order_by_station_count : list RouteRow -> list RouteRow.

(** The query of [get_route_statistics]. *)
Definition query_route_statistics (min_trips : Z) (trips : list Trip)
  : list RouteRow :=
  order_by_count
    (List.filter (fun r => min_trips <=? row_trip_count r) (route_stats trips)).

(** The CTE [ranked_routes], partition by partition. *)
Definition ranked_routes (trips : list Trip) : list RankedRow :=
  let rs := route_stats trips in
  flat_map
    (fun s => window (station_trips trips s) 0 1
                (order_by_count (List.filter (departs_from s) rs)))
    (distinct String.eqb (map row_departure_station_id rs)).

(** The query of [get_routes_by_station_top_n]: [WHERE rank <= n].
    Its CTE computes [rank] over the same partitions and window order
    as the one above and selects neither the total nor the cumulative
    count, which [rr_row] drops here. *)
Definition query_station_top_n (n : Z) (trips : list Trip) : list RouteRow :=
  order_by_station_count
    (map rr_row (List.filter (fun r => rr_rank r <=? n) (ranked_routes trips))).

(** [(cumulative_trips::float / total_trips * 100)]: the cast makes
    the division and the multiplication [float8] operations, which
    convert their integer operand. *)
Definition coverage_share (cumulative_trips total_trips : Z) : Q :=
  float_mul
    (float_div (float_of_int cumulative_trips) (float_of_int total_trips))
    (float_of_int 100).

Definition coverage_of (r : RankedRow) : Q :=
  coverage_share (rr_cumulative_trips r) (rr_total_trips r).

(** The query of [get_routes_by_station_coverage]:
    [WHERE (cumulative_trips::float / total_trips * 100) <= pct OR rank = 1]. *)
Definition query_station_coverage (pct : Q) (trips : list Trip) : list RouteRow :=
  order_by_station_count
    (map rr_row
       (List.filter (fun r => Qle_bool (coverage_of r) pct || (rr_rank r =? 1))
          (ranked_routes trips))).

End Queries.

End Database.
Export Database.

(** ** route_analyzer.py *)

Module RouteAnalyzer.

(** [float(row[...] or 0)] *)
Definition float_or_0 (x : option Q) : Q :=
  match x with
  | Some q => q
  | None => 0%Q
  end.

Definition row_to_RouteStatistics (row : RouteRow) : result RouteStatistics :=
  new_RouteStatistics
    (row_departure_station_id row) (row_return_station_id row)
    (row_trip_count row)
    (float_or_0 (row_avg_distance_m row)) (float_or_0 (row_avg_duration_s row)).

(** [l[:n]] for a Python list. *)
Definition slice_to {A} (n : Z) (l : list A) : list A :=
  if n <? 0 then take (Z.to_nat (Z.of_nat (length l) + n)) l
  else take (Z.to_nat n) l.

(** [station_routes[key].append(route)] on a [defaultdict(list)]. *)
Definition dict_append {A} (m : gmap string (list A)) (key : string) (x : A)
  : gmap string (list A) :=
  <[key := default [] (m !! key) ++ [x]]> m.

(** The loop [for row in rows: route = RouteStatistics(...);
    station_routes[row["departure_station_id"]].append(route)]. *)
Fixpoint collect_by_station (rows : list RouteRow)
    (station_routes : gmap string (list RouteStatistics))
  : result (gmap string (list RouteStatistics)) :=
  match rows with
  | [] => Ok station_routes
  | row :: rest =>
      route <-- row_to_RouteStatistics row ;;
      collect_by_station rest
        (dict_append station_routes (row_departure_station_id row) route)
  end.

(** [sorted(l, key=..., reverse=True)]: stable, descending. *)
Fixpoint insert_desc {A} (key : A -> Z) (r : A) (l : list A) : list A :=
  match l with
  | [] => [r]
  | x :: l' =>
      if key r <? key x then x :: insert_desc key r l' else r :: x :: l'
  end.

Fixpoint sorted_desc {A} (key : A -> Z) (l : list A) : list A :=
  match l with
  | [] => []
  | x :: l' => insert_desc key x (sorted_desc key l')
  end.

(** [sum(r.trip_count for r in routes)] *)
Definition sum_trip_count (routes : list RouteStatistics) : Z :=
  fold_right (fun r acc => trip_count r + acc) 0 routes.

(** The accumulation loop of [get_global_coverage_routes]:
    add the route, append it, stop once [cumulative >= target], a
    comparison of an [int] with a [float], which Python decides on
    their exact values. *)
Fixpoint accumulate (target : Q) (cumulative_trips : Z)
    (routes : list RouteStatistics) : list RouteStatistics :=
  match routes with
  | [] => []
  | route :: rest =>
      let c := cumulative_trips + trip_count route in
      if Qle_bool target (inject_Z c) then [route]
      else route :: accumulate target c rest
  end.

(** [total_trips * (coverage_pct / 100.0)]: a float division, then the
    product of an [int] and a [float], which converts the [int]. *)
Definition target_trips_of (total_trips : Z) (coverage_pct : Q) : Q :=
  float_mul (float_of_int total_trips) (float_div coverage_pct 100).

Definition select_global_coverage (coverage_pct : Q)
    (all_routes : list RouteStatistics) : list RouteStatistics :=
  let total_trips := sum_trip_count all_routes in
  let target_trips := target_trips_of total_trips coverage_pct in
  accumulate target_trips 0 (sorted_desc trip_count all_routes).

(** The loop of [deduplicate_bidirectional]. *)
Fixpoint dedup_loop (routes : list RouteStatistics)
    (seen_keys : gmap string RouteStatistics)
    (unique_routes : list RouteStatistics)
    (reverse_map : gmap string RouteStatistics)
  : list RouteStatistics * gmap string RouteStatistics :=
  match routes with
  | [] => (unique_routes, reverse_map)
  | route :: rest =>
      let key := route_key route in
      match seen_keys !! key with
      | None =>
          dedup_loop rest (<[key := route]> seen_keys)
            (unique_routes ++ [route]) reverse_map
      | Some _ =>
          dedup_loop rest seen_keys unique_routes (<[key := route]> reverse_map)
      end
  end.

Definition deduplicate_bidirectional (routes : list RouteStatistics)
  : list RouteStatistics * gmap string RouteStatistics :=
  dedup_loop routes ∅ [] ∅.

Section Analyzer.

Variable order_by_count : list RouteRow -> list RouteRow.
Variable order_by_station_count : list RouteRow -> list RouteRow.

Definition get_route_statistics (min_trips : Z) (trips : list Trip)
  : result (list RouteStatistics) :=
  rmapM row_to_RouteStatistics
    (query_route_statistics order_by_count min_trips trips).

Definition get_top_n_routes (n : Z) (trips : list Trip)
  : result (list RouteStatistics) :=
  all_routes <-- get_route_statistics 1 trips ;;
  Ok (slice_to n all_routes).

Definition get_all_routes (trips : list Trip) : result (list RouteStatistics) :=
  get_route_statistics 1 trips.

Definition get_routes_by_station_top_n (n : Z) (trips : list Trip)
  : result (gmap string (list RouteStatistics)) :=
  collect_by_station
    (query_station_top_n order_by_count order_by_station_count n trips) ∅.

Definition get_routes_by_station_coverage (coverage_pct : Q) (trips : list Trip)
  : result (gmap string (list RouteStatistics)) :=
  collect_by_station
    (query_station_coverage order_by_count order_by_station_count
       coverage_pct trips) ∅.

Definition get_global_coverage_routes (coverage_pct : Q) (trips : list Trip)
  : result (list RouteStatistics) :=
  all_routes <-- get_route_statistics 1 trips ;;
  Ok (select_global_coverage coverage_pct all_routes).

End Analyzer.

End RouteAnalyzer.
Export RouteAnalyzer.

(** ** A database that breaks ties in the order of its groups

    The examples below run the queries on a database whose
    [ORDER BY] is a stable sort. *)

Definition station_count_ltb (r x : RouteRow) : bool :=
  (row_departure_station_id x <? row_departure_station_id r)%string
  || (String.eqb (row_departure_station_id x) (row_departure_station_id r)
      && (row_trip_count r <? row_trip_count x)).

Fixpoint insert_by {A} (after : A -> A -> bool) (r : A) (l : list A) : list A :=
  match l with
  | [] => [r]
  | x :: l' => if after r x then x :: insert_by after r l' else r :: x :: l'
  end.

Fixpoint sort_by {A} (after : A -> A -> bool) (l : list A) : list A :=
  match l with
  | [] => []
  | x :: l' => insert_by after x (sort_by after l')
  end.

Definition stable_order_by_count : list RouteRow -> list RouteRow :=
  sorted_desc row_trip_count.

Definition stable_order_by_station_count : list RouteRow -> list RouteRow :=
  sort_by station_count_ltb.

Definition trips_between (dep ret : string) (n : nat) : list Trip :=
  repeat (mkTrip dep ret (Some 1000%Q) (Some 300%Q)) n.

(** ** route_generator.py *)

Module RouteGenerator.

(** The request body sent to the routing service. *)
Record Location : Type := mkLocation {
  lat : Q; lon : Q; radius : Z; minimum_reachability : Z
}.

Record Request : Type := mkRequest {
  locations : list Location;
  req_costing : string;
  req_bicycle_type : string;
  units : string;
  narrative : bool;
  maneuvers : bool
}.

(** A leg of the response, as far as the generator reads it; a missing
    key is [None]. *)
Record Leg : Type := mkLeg {
  shape : option string;
  summary_length : option Q;
  summary_time : option Q
}.

(** What [response.json()] and the navigation to [trip.legs] give. *)
Inductive Body : Type :=
  | BodyInvalidJson (msg : string)
  | BodyRaises (e : PyException)
  | BodyTrip (legs : list Leg).

(** What one [session.post] gives: an exception, or a response. *)
Inductive Reply : Type :=
  | PostRaises (e : PyException)
  | Response (status_code : Z) (body : Body).

(** An entry of [failed_routes]. *)
Record FailedRoute : Type := mkFailedRoute {
  fr_from : string;
  fr_to : string;
  reason : string;
  error_type : string
}.

(** The calls that reach outside the process. *)
Inductive Effect : Type :=
  | EvPost (req : Request)
  | EvSleep (seconds : Q).

(** The mutable fields of a [RouteGenerator], and the effects it has
    performed so far, oldest first. *)
Record Generator : Type := mkGenerator {
  routes_generated : Z;
  routes_failed : Z;
  total_requests : Z;
  failed_routes : list FailedRoute;
  effects : list Effect
}.

(** [RouteGenerator.__init__] *)
Definition new_Generator : Generator := mkGenerator 0 0 0 [] [].

Definition incr_requests (g : Generator) : Generator :=
  mkGenerator (routes_generated g) (routes_failed g) (total_requests g + 1)
    (failed_routes g) (effects g).

Definition incr_generated (g : Generator) : Generator :=
  mkGenerator (routes_generated g + 1) (routes_failed g) (total_requests g)
    (failed_routes g) (effects g).

Definition incr_failed (g : Generator) : Generator :=
  mkGenerator (routes_generated g) (routes_failed g + 1) (total_requests g)
    (failed_routes g) (effects g).

Definition append_failed (f : FailedRoute) (g : Generator) : Generator :=
  mkGenerator (routes_generated g) (routes_failed g) (total_requests g)
    (failed_routes g ++ [f]) (effects g).

Definition perform (e : Effect) (g : Generator) : Generator :=
  mkGenerator (routes_generated g) (routes_failed g) (total_requests g)
    (failed_routes g) (effects g ++ [e]).

(** [Response.raise_for_status] raises for 4xx and 5xx. *)
Definition raise_for_status (status : Z) : bool :=
  (400 <=? status) && (status <? 600).

(** How one pass through the retry loop ends. *)
Inductive Step : Type :=
  | Returned (g : Generator) (route : option RouteGeometry)
  | NextAttempt (g : Generator).

Section Generate.

Variable valhalla : ValhallaConfig.
Variable generation : GenerationConfig.

(** [polyline.encode(polyline.decode(s, precision=6), precision=6)];
    [None] when either call raises. *)
Variable polyline_roundtrip : string -> option string.

Definition to_valhalla_location (s : StationCoordinate) : Location :=
  mkLocation (latitude s) (longitude s)
    (snap_radius_m valhalla) (min_reachability_nodes valhalla).

Definition request_data (from_station to_station : StationCoordinate) : Request :=
  mkRequest
    [to_valhalla_location from_station; to_valhalla_location to_station]
    (costing generation) (bicycle_type generation) "kilometers" false false.

(** The body of the [try] block: the generator after it and either
    the value returned or the exception that left the block. *)
Definition try_body (reply : Reply) (from_station to_station : StationCoordinate)
    (g : Generator) : Generator * result (option RouteGeometry) :=
  let g := incr_requests g in
  let g := perform (EvPost (request_data from_station to_station)) g in
  match reply with
  | PostRaises e => (g, Raise e)
  | Response status body =>
      if raise_for_status status then (g, Raise (HTTPError status "HTTP error"))
      else
        match body with
        | BodyInvalidJson msg => (g, Raise (RequestException "JSONDecodeError" msg))
        | BodyRaises e => (g, Raise e)
        | BodyTrip [] => (incr_failed g, Ok None)
        | BodyTrip (leg :: _) =>
            let encoded_shape := default "" (shape leg) in
            let verified_shape :=
              match polyline_roundtrip encoded_shape with
              | Some s => s
              | None => encoded_shape
              end in
            match
              new_RouteGeometry
                (canonical_key (station_id from_station) (station_id to_station))
                (station_id from_station) (station_id to_station)
                verified_shape
                (default 0%Q (summary_length leg))
                (default 0%Q (summary_time leg) / 60)%Q
            with
            | Raise e => (g, Raise e)
            | Ok route_geometry =>
                let g := incr_generated g in
                if log_interval generation =? 0 then
                  (g, Raise (ZeroDivisionError "integer modulo by zero"))
                else (g, Ok (Some route_geometry))
            end
        end
  end.

Definition failure_of (from_station to_station : StationCoordinate)
    (why kind : string) : FailedRoute :=
  mkFailedRoute (station_id from_station) (station_id to_station) why kind.

(** One iteration of [for attempt in range(1, max_retries + 1)]:
    the [try] block and its three handlers. *)
Definition attempt_once (attempt : Z) (reply : Reply)
    (from_station to_station : StationCoordinate) (g : Generator) : Step :=
  match try_body reply from_station to_station g with
  | (g, Ok route) => Returned g route
  | (g, Raise (HTTPError status _)) =>
      if status =? 400 then
        Returned
          (incr_failed
             (append_failed
                (failure_of from_station to_station
                   "Route not possible (HTTP 400)" "HTTPError") g))
          None
      else if attempt <? max_retries valhalla then
        NextAttempt (perform (EvSleep (retry_delay_seconds valhalla)) g)
      else Returned (incr_failed g) None
  | (g, Raise (RequestException _ _ as e)) =>
      if attempt <? max_retries valhalla then
        NextAttempt (perform (EvSleep (retry_delay_seconds valhalla)) g)
      else
        Returned
          (incr_failed
             (append_failed
                (failure_of from_station to_station (exc_str e) (exc_type_name e))
                g))
          None
  | (g, Raise e) =>
      Returned
        (incr_failed
           (append_failed
              (failure_of from_station to_station (exc_str e) (exc_type_name e))
              g))
        None
  end.

(** The retry loop with [remaining] iterations left; falling out of
    the loop is the final [return None]. *)
Fixpoint retry_loop (remaining : nat) (attempt : Z) (replies : Z -> Reply)
    (from_station to_station : StationCoordinate) (g : Generator)
  : Generator * option RouteGeometry :=
  match remaining with
  | O => (g, None)
  | S remaining' =>
      match attempt_once attempt (replies attempt) from_station to_station g with
      | Returned g' route => (g', route)
      | NextAttempt g' =>
          retry_loop remaining' (attempt + 1) replies from_station to_station g'
      end
  end.

(** [RouteGenerator.generate_route]; [replies attempt] is what the
    service answers to the request of that attempt. *)
Definition generate_route (replies : Z -> Reply)
    (from_station to_station : StationCoordinate) (g : Generator)
  : Generator * option RouteGeometry :=
  retry_loop (Z.to_nat (max_retries valhalla)) 1 replies from_station to_station g.

(** The loop of [generate_batch], [i] counting from 1 as
    [enumerate(station_pairs, 1)] does. *)
Fixpoint batch_loop (i : Z) (replies : Z -> Z -> Reply)
    (station_pairs : list (StationCoordinate * StationCoordinate))
    (g : Generator) (routes : list RouteGeometry)
  : Generator * list RouteGeometry :=
  match station_pairs with
  | [] => (g, routes)
  | (from_station, to_station) :: rest =>
      let '(g', route) := generate_route (replies i) from_station to_station g in
      batch_loop (i + 1) replies rest g'
        (match route with
         | Some r => routes ++ [r]
         | None => routes
         end)
  end.

(** [RouteGenerator.generate_batch] *)
Definition generate_batch (replies : Z -> Z -> Reply)
    (station_pairs : list (StationCoordinate * StationCoordinate))
    (g : Generator) : Generator * list RouteGeometry :=
  batch_loop 1 replies station_pairs g [].

End Generate.

End RouteGenerator.
Export RouteGenerator.

(** ** file_writer.py *)

Module FileWriter.

(** [min(a, b)] and [max(a, b)] on strings: the first argument wins a tie. *)
Definition py_min (a b : string) : string := if (b <? a)%string then b else a.
Definition py_max (a b : string) : string := if (a <? b)%string then b else a.

(** One iteration of the loop of [organize_by_station]. *)
Definition organize_step (bidirectional_map : gmap string RouteStatistics)
    (station_routes : gmap string (list RouteGeometry)) (route : RouteGeometry)
  : result (gmap string (list RouteGeometry)) :=
  let station_routes :=
    dict_append station_routes (g_departure_station_id route) route in
  match bidirectional_map !! g_route_key route with
  | None => Ok station_routes
  | Some reverse_route_stats =>
      reverse_route <--
        new_RouteGeometry (g_route_key route)
          (departure_station_id reverse_route_stats)
          (return_station_id reverse_route_stats)
          (polyline route) (distance_km route) (duration_minutes route) ;;
      Ok (dict_append station_routes
            (g_departure_station_id reverse_route) reverse_route)
  end.

Fixpoint organize_loop (routes : list RouteGeometry)
    (bidirectional_map : gmap string RouteStatistics)
    (station_routes : gmap string (list RouteGeometry))
  : result (gmap string (list RouteGeometry)) :=
  match routes with
  | [] => Ok station_routes
  | route :: rest =>
      station_routes' <-- organize_step bidirectional_map station_routes route ;;
      organize_loop rest bidirectional_map station_routes'
  end.

(** [RouteFileWriter.organize_by_station] *)
Definition organize_by_station (routes : list RouteGeometry)
    (bidirectional_map : gmap string RouteStatistics)
  : result (gmap string (list RouteGeometry)) :=
  organize_loop routes bidirectional_map ∅.

(** An element of ["routes"] in a station file. *)
Record StationEntry : Type := mkStationEntry {
  e_to : string;
  e_polyline : string;
  direction : string;
  bidirectional : bool;
  e_distance_km : Q;
  e_duration_min : Q
}.

(** The JSON document of one station file. *)
Record StationFile : Type := mkStationFile {
  sf_station_id : string;
  sf_routes : list StationEntry;
  sf_count : Z
}.

(** Python's [round(x, ndigits)] for [ndigits >= 0], on the exact
    value: to the nearest multiple of [10 ^ -ndigits], a tie going to
    the even one. *)
Definition py_round (x : Q) (ndigits : Z) : Q :=
  let scale := inject_Z (10 ^ ndigits) in
  let y := (x * scale)%Q in
  let lower := Qfloor y in
  let rest := (y - inject_Z lower)%Q in
  let nearest :=
    if Qlt_bool rest (1 # 2) then lower
    else if Qlt_bool (1 # 2) rest then lower + 1
    else if Z.even lower then lower else lower + 1 in
  Qred (inject_Z nearest / scale).

(** [is_reverse = route.departure_station_id != min(departure, return)] *)
Definition is_reverse (route : RouteGeometry) : bool :=
  negb (String.eqb (g_departure_station_id route)
          (py_min (g_departure_station_id route) (g_return_station_id route))).

Definition station_entry (route : RouteGeometry) : StationEntry :=
  mkStationEntry (g_return_station_id route) (polyline route)
    (if is_reverse route then "reverse" else "forward") true
    (py_round (distance_km route) 2) (py_round (duration_minutes route) 1).

(** The key built for an element of [per_station_filter]. *)
Definition filter_key (route_stat : RouteStatistics) : string :=
  (py_min (departure_station_id route_stat) (return_station_id route_stat)
   ++ "-" ++
   py_max (departure_station_id route_stat) (return_station_id route_stat))%string.

Definition allowed_keys (stats : list RouteStatistics) : gset string :=
  list_to_set (map filter_key stats).

(** The routes kept for a station.
    [per_station_filter and station_id in per_station_filter] holds
    exactly when the filter is a dict that has the station. *)
Definition routes_to_write
    (per_station_filter : option (gmap string (list RouteStatistics)))
    (station_id : string) (all_routes : list RouteGeometry) : list RouteGeometry :=
  match per_station_filter with
  | Some f =>
      match f !! station_id with
      | Some stats =>
          List.filter
            (fun r => bool_decide (g_route_key r ∈ allowed_keys stats)) all_routes
      | None => all_routes
      end
  | None => all_routes
  end.

Definition station_file
    (per_station_filter : option (gmap string (list RouteStatistics)))
    (station_id : string) (all_routes : list RouteGeometry) : StationFile :=
  let route_entries :=
    map station_entry (routes_to_write per_station_filter station_id all_routes) in
  mkStationFile station_id route_entries (Z.of_nat (length route_entries)).

(** [RouteFileWriter.write_station_routes]: the documents written,
    by station.  ([bidirectional_map] is an argument the function
    never reads.) *)
Definition write_station_routes
    (station_routes : gmap string (list RouteGeometry))
    (bidirectional_map : gmap string RouteStatistics)
    (per_station_filter : option (gmap string (list RouteStatistics)))
  : gmap string StationFile :=
  map_imap (fun station_id all_routes =>
              Some (station_file per_station_filter station_id all_routes))
    station_routes.

End FileWriter.
Export FileWriter.

(** * Vocabulary of the properties and running examples *)

(** ** Replies of the routing service *)

Definition step_generator (s : Step) : Generator :=
  match s with
  | Returned g _ | NextAttempt g => g
  end.

(** A reply after which the loop tries again, while attempts remain:
    a transport error, or an error status other than 400. *)
Inductive transient_error : Reply -> Prop :=
  | te_transport type_name msg :
      transient_error (PostRaises (RequestException type_name msg))
  | te_status status body :
      raise_for_status status = true -> status <> 400 ->
      transient_error (Response status body).

(** A reply that settles the pair as failed: status 400, or a
    response without legs. *)
Inductive definitive_failure : Reply -> Prop :=
  | df_route_not_possible body : definitive_failure (Response 400 body)
  | df_no_route status :
      raise_for_status status = false ->
      definitive_failure (Response status (BodyTrip [])).

(** The generator after a failed attempt that is followed by another. *)
Definition after_retry (valhalla : ValhallaConfig) (generation : GenerationConfig)
    (f t : StationCoordinate) (g : Generator) : Generator :=
  perform (EvSleep (retry_delay_seconds valhalla))
    (perform (EvPost (request_data valhalla generation f t)) (incr_requests g)).

(** [n] requests, each followed by a sleep of the configured delay. *)
Definition retried_effects (valhalla : ValhallaConfig)
    (generation : GenerationConfig) (f t : StationCoordinate) (n : nat)
  : list Effect :=
  concat (repeat [EvPost (request_data valhalla generation f t);
                  EvSleep (retry_delay_seconds valhalla)] n).

(** Each call of [generate_route] moves exactly one of the two
    outcome counters, by one. *)
Definition one_counter_per_call (valhalla : ValhallaConfig)
    (generation : GenerationConfig) (polyline_roundtrip : string -> option string)
    (replies : Z -> Reply) (f t : StationCoordinate) (g : Generator) : Prop :=
  let g' := fst (generate_route valhalla generation polyline_roundtrip
                   replies f t g) in
  (routes_generated g' = routes_generated g + 1
   /\ routes_failed g' = routes_failed g)
  \/ (routes_generated g' = routes_generated g
      /\ routes_failed g' = routes_failed g + 1).

(** ** A generator with the default configuration *)

Definition default_valhalla : ValhallaConfig :=
  mkValhallaConfig "http://localhost:8002" 30 3 1 100 20.

Definition default_generation : GenerationConfig :=
  mkGenerationConfig 50 10 "bicycle" "Road".

(** [log_interval = 0], which [GenerationConfig] accepts. *)
Definition generation_without_logging : GenerationConfig :=
  mkGenerationConfig 50 0 "bicycle" "Road".

Definition station_030 : StationCoordinate :=
  mkStationCoordinate "030" (601695 # 10000) (249354 # 10000).

Definition station_067 : StationCoordinate :=
  mkStationCoordinate "067" (601712 # 10000) (249412 # 10000).

Definition keep_encoding (s : string) : option string := Some s.

Definition a_leg : Leg :=
  mkLeg (Some "u`~nJqafxC_@aA") (Some (25 # 10)) (Some 600%Q).

Definition always (r : Reply) : Z -> Reply := fun _ => r.

Definition timed_out : Reply :=
  PostRaises (RequestException "ReadTimeout" "Read timed out.").

(** ** Deduplication *)

(** The pairs of a list that bear a key, in order. *)
Definition bearing (k : string) (l : list RouteStatistics) : list RouteStatistics :=
  List.filter (fun r => String.eqb (route_key r) k) l.

(** What the loop of [deduplicate_bidirectional] maintains, [prefix]
    being the routes already visited. *)
Record dedup_inv (prefix : list RouteStatistics)
    (seen : gmap string RouteStatistics) (unique : list RouteStatistics)
    (rmap : gmap string RouteStatistics) : Prop := {
  inv_seen : forall k, seen !! k = head (bearing k prefix);
  inv_unique : forall k, bearing k unique = take 1 (bearing k prefix);
  inv_sub : sublist unique prefix;
  inv_rmap : forall k, rmap !! k = last (tail (bearing k prefix))
}.

(** C2 as stated: of any two pairs with swapped endpoints, one is in
    the output sequence and the other is the reverse record. *)
Definition swapped_pairs_are_split (P : list RouteStatistics) : Prop :=
  forall a b,
    In a P -> In b P ->
    departure_station_id a = return_station_id b ->
    return_station_id a = departure_station_id b ->
    let unique := fst (deduplicate_bidirectional P) in
    let reverse_map := snd (deduplicate_bidirectional P) in
    (In a unique /\ ~ In b unique /\ reverse_map !! route_key a = Some b)
    \/ (In b unique /\ ~ In a unique /\ reverse_map !! route_key a = Some a).

Definition stats_030_067 : RouteStatistics :=
  mkRouteStatistics "030" "067" 100 2500 600.
Definition stats_067_030 : RouteStatistics :=
  mkRouteStatistics "067" "030" 80 2500 600.
Definition stats_067_030_again : RouteStatistics :=
  mkRouteStatistics "067" "030" 70 2500 600.
Definition stats_030_045 : RouteStatistics :=
  mkRouteStatistics "030" "045" 50 1800 480.

(** ** Organizing by station *)

(** What [RouteGeometry.__post_init__] accepts. *)
Definition valid_geometry (route : RouteGeometry) : Prop :=
  polyline route <> "" /\ (0 <= distance_km route)%Q
  /\ (0 <= duration_minutes route)%Q.

(** The entry synthesized for the reverse record of a geometry. *)
Definition reverse_of (route : RouteGeometry) (reverse_route_stats : RouteStatistics)
  : RouteGeometry :=
  mkRouteGeometry (g_route_key route)
    (departure_station_id reverse_route_stats)
    (return_station_id reverse_route_stats)
    (polyline route) (distance_km route) (duration_minutes route).

(** What one geometry contributes to the list of station [s]. *)
Definition emitted (bidirectional_map : gmap string RouteStatistics) (s : string)
    (route : RouteGeometry) : list RouteGeometry :=
  (if String.eqb (g_departure_station_id route) s then [route] else [])
  ++ match bidirectional_map !! g_route_key route with
     | Some reverse_route_stats =>
         if String.eqb (departure_station_id reverse_route_stats) s
         then [reverse_of route reverse_route_stats] else []
     | None => []
     end.

(** C6 as stated, for the tag: the entry written for a reverse record
    carries the direction "reverse". *)
Definition reverse_entries_are_tagged_reverse (routes : list RouteGeometry)
    (bidirectional_map : gmap string RouteStatistics) : Prop :=
  forall station_routes route reverse_route_stats,
    organize_by_station routes bidirectional_map = Ok station_routes ->
    In route routes ->
    bidirectional_map !! g_route_key route = Some reverse_route_stats ->
    exists file,
      write_station_routes station_routes bidirectional_map None
        !! departure_station_id reverse_route_stats = Some file
      /\ In (mkStationEntry (return_station_id reverse_route_stats)
               (polyline route) "reverse" true
               (py_round (distance_km route) 2)
               (py_round (duration_minutes route) 1))
            (sf_routes file).

Definition geometry_067_030 : RouteGeometry :=
  mkRouteGeometry "030-067" "067" "030" "u`~nJqafxC_@aA" (25 # 10) 10.

Definition geometry_030_067 : RouteGeometry :=
  mkRouteGeometry "030-067" "030" "067" "u`~nJqafxC_@aA" (25 # 10) 10.

Definition stats_030_067_reverse : RouteStatistics :=
  mkRouteStatistics "030" "067" 80 2500 600.

(** ** Selection *)

(** The scenario of the specification: four pairs with 50, 30, 15 and
    5 trips. *)
Definition scenario_trips : list Trip :=
  trips_between "001" "002" 50 ++ trips_between "001" "003" 30
  ++ trips_between "002" "003" 15 ++ trips_between "003" "001" 5.

Definition scenario_pairs : list RouteStatistics :=
  [mkRouteStatistics "001" "002" 50 1000 300;
   mkRouteStatistics "001" "003" 30 1000 300;
   mkRouteStatistics "002" "003" 15 1000 300;
   mkRouteStatistics "003" "001" 5 1000 300].

(** Five pairs with 7, 6, 5, 4 and 3 trips, 25 in all. *)
Definition rounding_trips : list Trip :=
  trips_between "001" "002" 7 ++ trips_between "001" "003" 6
  ++ trips_between "002" "003" 5 ++ trips_between "003" "001" 4
  ++ trips_between "002" "001" 3.

Definition rounding_pairs : list RouteStatistics :=
  [mkRouteStatistics "001" "002" 7 1000 300;
   mkRouteStatistics "001" "003" 6 1000 300;
   mkRouteStatistics "002" "003" 5 1000 300;
   mkRouteStatistics "003" "001" 4 1000 300;
   mkRouteStatistics "002" "001" 3 1000 300].

(** The selected routes cover [pct] percent of the trips of all the
    routes and no shorter selection does: their trip counts add up to
    at least pct/100 of the total, and without the last route to less.
    Both comparisons allow a relative error [eps] of the threshold;
    with [eps] zero they are exact. *)
Definition covers_minimally_within (eps pct : Q)
    (all_routes selected : list RouteStatistics) : Prop :=
  ((1 - eps) * (pct / 100 * inject_Z (sum_trip_count all_routes))
   <= inject_Z (sum_trip_count selected))%Q
  /\ (inject_Z (sum_trip_count (removelast selected))
      < (1 + eps) * (pct / 100 * inject_Z (sum_trip_count all_routes)))%Q.

(** A trip row whose distance and duration, when present, are not negative. *)
Definition valid_trip (t : Trip) : Prop :=
  (forall d, distance_meters t = Some d -> (0 <= d)%Q)
  /\ (forall d, duration_seconds t = Some d -> (0 <= d)%Q).

(** A row that [RouteStatistics.__post_init__] accepts. *)
Definition valid_row (r : RouteRow) : Prop :=
  1 <= row_trip_count r
  /\ (0 <= float_or_0 (row_avg_distance_m r))%Q
  /\ (0 <= float_or_0 (row_avg_duration_s r))%Q.

(** The statistics built from a row. *)
Definition stats_of_row (r : RouteRow) : RouteStatistics :=
  mkRouteStatistics (row_departure_station_id r) (row_return_station_id r)
    (row_trip_count r)
    (float_or_0 (row_avg_distance_m r)) (float_or_0 (row_avg_duration_s r)).

(** Descending by trip count. *)
Definition rows_descending : list RouteRow -> Prop :=
  StronglySorted (fun a b => row_trip_count b <= row_trip_count a).

Definition descending : list RouteStatistics -> Prop :=
  StronglySorted (fun a b => trip_count b <= trip_count a).

(** What SQL promises of [ORDER BY trip_count DESC]. *)
Definition orders_by_count (order_by : list RouteRow -> list RouteRow) : Prop :=
  forall rows, Permutation (order_by rows) rows /\ rows_descending (order_by rows).

(** What the grouping by station needs of
    [ORDER BY departure_station_id, trip_count DESC]. *)
Definition orders_by_station_count (order_by : list RouteRow -> list RouteRow)
  : Prop :=
  forall rows,
    Permutation (order_by rows) rows
    /\ forall s, rows_descending (List.filter (departs_from s) (order_by rows)).

(** A station with 4, 3 and 1 trips to three others. *)
Definition coverage_trips : list Trip :=
  trips_between "030" "067" 4 ++ trips_between "030" "045" 3
  ++ trips_between "030" "094" 1.

Definition coverage_pairs : list RouteStatistics :=
  [mkRouteStatistics "030" "067" 4 1000 300;
   mkRouteStatistics "030" "045" 3 1000 300;
   mkRouteStatistics "030" "094" 1 1000 300].

(** A station with 20 trips: 6, 5, 4, 3 and 2 to five others. *)
Definition share_trips : list Trip :=
  trips_between "030" "067" 6 ++ trips_between "030" "045" 5
  ++ trips_between "030" "094" 4 ++ trips_between "030" "023" 3
  ++ trips_between "030" "112" 2.

(** ** route_generator.py: statistics *)

(** The dict returned by [RouteGenerator.get_statistics]. *)
Record Statistics : Type := mkStatistics {
  st_total_requests : Z;
  st_routes_generated : Z;
  st_routes_failed : Z;
  success_rate_pct : Q;
  st_failed_routes : list FailedRoute
}.

(** [RouteGenerator.get_statistics] *)
Definition get_statistics (g : Generator) : Statistics :=
  let success_rate :=
    if 0 <? total_requests g then
      (inject_Z (routes_generated g) / inject_Z (total_requests g) * 100)%Q
    else 0%Q in
  mkStatistics (total_requests g) (routes_generated g) (routes_failed g)
    (py_round success_rate 2) (failed_routes g).

(** The polyline a leg is accepted with: the re-encoded shape, or the
    shape as received when re-encoding raises. *)
Definition verified_shape_of (polyline_roundtrip : string -> option string)
    (leg : Leg) : string :=
  match polyline_roundtrip (default "" (shape leg)) with
  | Some s => s
  | None => default "" (shape leg)
  end.

(** The stations a geometry runs between, and those of a pair of
    coordinates. *)
Definition endpoints_of (geom : RouteGeometry) : string * string :=
  (g_departure_station_id geom, g_return_station_id geom).

Definition stations_of (p : StationCoordinate * StationCoordinate)
  : string * string :=
  (station_id (fst p), station_id (snd p)).

(** ** Canonical keys *)

(** An identifier without the separator of the canonical key. *)
Fixpoint dash_free (s : string) : Prop :=
  match s with
  | EmptyString => True
  | String c s' => c <> "-"%char /\ dash_free s'
  end.

(** The ordered pair of stations of a route. *)
Definition ordered_pair (r : RouteStatistics) : string * string :=
  (departure_station_id r, return_station_id r).

Definition swap_pair (p : string * string) : string * string := (snd p, fst p).

(** A list of routes as the pipeline hands it to the deduplication:
    identifiers without a dash, no ordered pair twice. *)
Definition distinct_pairs (P : list RouteStatistics) : Prop :=
  Forall (fun r => dash_free (departure_station_id r)
                   /\ dash_free (return_station_id r)) P
  /\ List.NoDup (map ordered_pair P).

(** ** Counting trips *)

(** The trips of the table from one station to another. *)
Definition trips_from_to (trips : list Trip) (dep ret : string) : Z :=
  Z.of_nat (length (List.filter
    (fun t => String.eqb (t_departure_station_id t) dep
              && String.eqb (t_return_station_id t) ret) trips)).

(** The trips of the table that do not return to their station. *)
Definition journeys (trips : list Trip) : Z :=
  Z.of_nat (length (List.filter
    (fun t => negb (String.eqb (t_departure_station_id t)
                      (t_return_station_id t))) trips)).

(** [SUM(trip_count)] over rows. *)
Definition sum_row_count (rows : list RouteRow) : Z :=
  fold_right (fun r acc => row_trip_count r + acc) 0 rows.

(** The share of a station's trips, in percent, that [count] trips are. *)
Definition share_of (total count : Z) : Q :=
  (inject_Z count / inject_Z total * 100)%Q.

(** ** generate_routes.py: from the selected routes to the geometries *)

(** The first loop of [RoutePipeline._generate_geometries]: a route
    is skipped unless both of its stations have coordinates. *)
Fixpoint station_pairs_of (routes : list RouteStatistics)
    (station_coords : gmap string StationCoordinate)
  : list (StationCoordinate * StationCoordinate) :=
  match routes with
  | [] => []
  | route :: rest =>
      match station_coords !! departure_station_id route,
            station_coords !! return_station_id route with
      | Some from_station, Some to_station =>
          (from_station, to_station) :: station_pairs_of rest station_coords
      | _, _ => station_pairs_of rest station_coords
      end
  end.

(** [RoutePipeline._generate_geometries] *)
Definition _generate_geometries (valhalla : ValhallaConfig)
    (generation : GenerationConfig) (polyline_roundtrip : string -> option string)
    (replies : Z -> Z -> Reply) (routes : list RouteStatistics)
    (station_coords : gmap string StationCoordinate) (g : Generator)
  : Generator * list RouteGeometry :=
  generate_batch valhalla generation polyline_roundtrip replies
    (station_pairs_of routes station_coords) g.

(** What [get_station_coordinates] builds: each station under its own
    identifier. *)
Definition coordinates_by_id (station_coords : gmap string StationCoordinate)
  : Prop :=
  forall s c, station_coords !! s = Some c -> station_id c = s.

(** The routes that [_generate_geometries] does not skip. *)
Definition located (station_coords : gmap string StationCoordinate)
    (routes : list RouteStatistics) : list RouteStatistics :=
  List.filter
    (fun r => bool_decide (is_Some (station_coords !! departure_station_id r))
              && bool_decide (is_Some (station_coords !! return_station_id r)))
    routes.

(** The routes of a list whose key is the key of one of [stats]. *)
Definition with_key_among (stats : list RouteStatistics)
    (routes : list RouteGeometry) : list RouteGeometry :=
  List.filter
    (fun r => existsb (fun st => String.eqb (route_key st) (g_route_key r)) stats)
    routes.

(** Each route of a station's list departs from the station and its
    ordered pair is among those of [all_routes]. *)
Definition selection_within (all_routes : list RouteStatistics)
    (per_station_routes : gmap string (list RouteStatistics)) : Prop :=
  forall s stats st,
    per_station_routes !! s = Some stats -> In st stats ->
    departure_station_id st = s
    /\ exists st', In st' all_routes /\ ordered_pair st' = ordered_pair st.

(** The entry of a station file that shows a geometry along a route. *)
Definition entry_along (st : RouteStatistics) (geom : RouteGeometry)
  : StationEntry :=
  mkStationEntry (return_station_id st) (polyline geom)
    (if is_reversed st then "reverse" else "forward") true
    (py_round (distance_km geom) 2) (py_round (duration_minutes geom) 1).

(** ** generate_routes.py: selecting the routes *)

(** [all_routes_dict], a dict keyed by the ordered pair of stations,
    in insertion order. *)
Definition PairDict : Type := list ((string * string) * RouteStatistics).

(** [key in all_routes_dict] *)
Definition dict_has (d : PairDict) (key : string * string) : bool :=
  existsb (fun kv => pair_eqb (fst kv) key) d.

(** [all_routes_dict[key] = route]: a key already present keeps its
    place and takes the new value. *)
Definition dict_set (d : PairDict) (key : string * string)
    (route : RouteStatistics) : PairDict :=
  if dict_has d key then
    map (fun kv => if pair_eqb (fst kv) key then (fst kv, route) else kv) d
  else d ++ [(key, route)].

(** [for route in global_routes: all_routes_dict[key] = route] *)
Definition add_global (global_routes : list RouteStatistics) (d : PairDict)
  : PairDict :=
  fold_left
    (fun d route =>
       dict_set d (departure_station_id route, return_station_id route) route)
    global_routes d.

(** [for route in routes: if key not in all_routes_dict:
    all_routes_dict[key] = route] *)
Definition add_missing (routes : list RouteStatistics) (d : PairDict)
  : PairDict :=
  fold_left
    (fun d route =>
       let key := (departure_station_id route, return_station_id route) in
       if dict_has d key then d else dict_set d key route)
    routes d.

(** [for station_id, routes in per_station_routes.items(): ...] *)
Definition add_individual (items : list (string * list RouteStatistics))
    (d : PairDict) : PairDict :=
  fold_left (fun d item => add_missing (snd item) d) items d.

(** What [_select_routes] returns and what it stores in the pipeline. *)
Record Selection : Type := mkSelection {
  sel_unique_routes : list RouteStatistics;
  sel_per_station_routes : gmap string (list RouteStatistics);
  sel_global_routes : list RouteStatistics;
  sel_bidirectional_map : gmap string RouteStatistics
}.

Section Pipeline.

Variable order_by_count : list RouteRow -> list RouteRow.
Variable order_by_station_count : list RouteRow -> list RouteRow.

(** [per_station_routes.items()]: the entries of the dict, in the
    order the dict was filled, which the properties below do not
    depend on. *)
Variable dict_items :
  gmap string (list RouteStatistics) -> list (string * list RouteStatistics).

(** [RoutePipeline._get_routes_for_strategy] *)
Definition _get_routes_for_strategy (strategy : RouteSelectionStrategy)
    (trips : list Trip) : result (list RouteStatistics) :=
  match selection_type strategy with
  | TOP_N =>
      match top_n strategy with
      | None =>
          Raise (OtherException "AssertionError"
                   "top_n should not be None for TOP_N strategy")
      | Some n => get_top_n_routes order_by_count n trips
      end
  | PERCENTAGE =>
      match coverage_percentage strategy with
      | None =>
          Raise (OtherException "AssertionError"
                   "coverage_percentage should not be None for PERCENTAGE strategy")
      | Some pct => get_global_coverage_routes order_by_count pct trips
      end
  end.

(** [RoutePipeline._get_routes_per_station] *)
Definition _get_routes_per_station (strategy : RouteSelectionStrategy)
    (trips : list Trip) : result (gmap string (list RouteStatistics)) :=
  match selection_type strategy with
  | TOP_N =>
      match top_n strategy with
      | None =>
          Raise (OtherException "AssertionError"
                   "top_n should not be None for TOP_N strategy")
      | Some n =>
          get_routes_by_station_top_n order_by_count order_by_station_count
            n trips
      end
  | PERCENTAGE =>
      match coverage_percentage strategy with
      | None =>
          Raise (OtherException "AssertionError"
                   "coverage_percentage should not be None for PERCENTAGE strategy")
      | Some pct =>
          get_routes_by_station_coverage order_by_count order_by_station_count
            pct trips
      end
  end.

(** The union built by [_select_routes], as a list:
    [list(all_routes_dict.values())]. *)
Definition union_of_selections (global_routes : list RouteStatistics)
    (per_station_routes : gmap string (list RouteStatistics))
  : list RouteStatistics :=
  map snd (add_individual (dict_items per_station_routes)
             (add_global global_routes [])).

(** [RoutePipeline._select_routes] *)
Definition _select_routes (gen_config : RouteGenerationConfig)
    (trips : list Trip) : result Selection :=
  global_routes <--
    (if should_generate_global gen_config then
       match global_strategy gen_config with
       | Some strategy => _get_routes_for_strategy strategy trips
       | None =>
           Raise (OtherException "AssertionError"
                    "global_strategy should not be None when should_generate_global() is True")
       end
     else Ok []) ;;
  per_station_routes <--
    (if should_generate_individual gen_config then
       match individual_strategy gen_config with
       | Some strategy => _get_routes_per_station strategy trips
       | None =>
           Raise (OtherException "AssertionError"
                    "individual_strategy should not be None when should_generate_individual() is True")
       end
     else Ok ∅) ;;
  let all_routes := union_of_selections global_routes per_station_routes in
  let '(unique_routes, reverse_map) := deduplicate_bidirectional all_routes in
  Ok (mkSelection unique_routes per_station_routes global_routes reverse_map).

End Pipeline.

(** What the properties need of [per_station_routes.items()]: it
    yields the entries of the dict. *)
Definition iterates_the_dict
    (dict_items : gmap string (list RouteStatistics)
                  -> list (string * list RouteStatistics)) : Prop :=
  forall m s stats, In (s, stats) (dict_items m) <-> m !! s = Some stats.

(** A route is selected when it is a global route or a route of some
    station. *)
Definition is_selected (sel : Selection) (r : RouteStatistics) : Prop :=
  In r (sel_global_routes sel)
  \/ exists s stats, sel_per_station_routes sel !! s = Some stats /\ In r stats.

(** An insertion-ordered dict whose keys are the ordered pairs of its
    values. *)
Definition keyed_by_pair (d : PairDict) : Prop :=
  List.NoDup (map fst d) /\ Forall (fun kv => fst kv = ordered_pair (snd kv)) d.

(** What one pass over a list of routes does to the dict, whether it
    overwrites ([add_global]) or keeps ([add_missing]). *)
Definition pass_spec (routes : list RouteStatistics) (d d' : PairDict) : Prop :=
  keyed_by_pair d'
  /\ (forall k, In k (map fst d) -> In k (map fst d'))
  /\ (forall r, In r routes -> In (ordered_pair r) (map fst d'))
  /\ (forall v, In v (map snd d') -> In v routes \/ In v (map snd d))
  /\ exists added, map fst d' = map fst d ++ added.

(** ** generate_routes.py: the configuration from the command line *)

(** The parsed arguments, with every attribute the parser of [main]
    defines; an option that was not given is [None]. *)
Record Args : Type := mkArgs {
  global_top : option Z;
  global_pct : option Q;
  no_global : bool;
  individual_top : option Z;
  individual_pct : option Q;
  no_individual : bool;
  aggregate_top : option Z;
  aggregate_pct : option Q;
  no_aggregate : bool;
  min_trips : Z;
  phase : option string;
  coverage : Q
}.

(** Truth value of an optional [int], [float] and [str]. *)
Definition truthy_int (x : option Z) : bool :=
  match x with
  | Some n => negb (n =? 0)
  | None => false
  end.

Definition truthy_float (x : option Q) : bool :=
  match x with
  | Some q => negb (Qeq_bool q 0)
  | None => false
  end.

Definition truthy_str (x : option string) : bool :=
  match x with
  | Some s => negb (String.eqb s "")
  | None => false
  end.

(** The strategy chosen for one kind of routes: switched off, by
    number, by percentage, or the default of the kind. *)
Definition strategy_from_args (disabled : bool) (top : option Z)
    (pct : option Q) (default_strategy : result (option RouteSelectionStrategy))
  : result (option RouteSelectionStrategy) :=
  if disabled then Ok None
  else if truthy_int top then
    strategy <-- create_top_n (default 0 top) ;; Ok (Some strategy)
  else if truthy_float pct then
    strategy <-- create_percentage (default 0%Q pct) ;; Ok (Some strategy)
  else default_strategy.

(** [PipelineConfig]: the three parts read from the environment, and
    the generation part. *)
Record PipelineConfig (Env : Type) : Type := mkPipelineConfig {
  pc_environment : Env;
  pc_generation : RouteGenerationConfig
}.
Arguments mkPipelineConfig {Env} _ _.
Arguments pc_environment {Env} _.
Arguments pc_generation {Env} _.

Section BuildConfig.

(** [ValhallaConfig()], [DatabaseConfig.from_env()] and
    [OutputConfig()] read the environment and may raise; their
    outcome is a parameter. *)
Variable Env : Type.
Variable from_env : result Env.

(** [build_config_from_args] *)
Definition build_config_from_args (args : Args)
  : result (PipelineConfig Env) :=
  if truthy_int (global_top args) && truthy_float (global_pct args) then
    Raise (ValueError "Cannot specify both --global-top and --global-pct")
  else if truthy_int (individual_top args)
          && truthy_float (individual_pct args) then
    Raise (ValueError "Cannot specify both --individual-top and --individual-pct")
  else if truthy_int (aggregate_top args)
          && truthy_float (aggregate_pct args) then
    Raise (ValueError "Cannot specify both --aggregate-top and --aggregate-pct")
  else
    strategies <--
      (if truthy_str (phase args) then
         if String.eqb (default "" (phase args)) "phase1" then
           global_strategy <-- create_top_n 1000 ;;
           Ok (Some global_strategy, None, None)
         else
           global_strategy <-- create_percentage (coverage args) ;;
           individual_strategy <-- create_percentage (coverage args) ;;
           Ok (Some global_strategy, Some individual_strategy, None)
       else
         global_strategy <--
           strategy_from_args (no_global args) (global_top args)
             (global_pct args)
             (strategy <-- create_top_n 5 ;; Ok (Some strategy)) ;;
         individual_strategy <--
           strategy_from_args (no_individual args) (individual_top args)
             (individual_pct args)
             (strategy <-- create_percentage 80 ;; Ok (Some strategy)) ;;
         aggregate_strategy <--
           strategy_from_args (no_aggregate args) (aggregate_top args)
             (aggregate_pct args) (Ok None) ;;
         Ok (global_strategy, individual_strategy, aggregate_strategy)) ;;
    let '(global_strategy, individual_strategy, aggregate_strategy) :=
      strategies in
    if negb (is_not_None global_strategy) && negb (is_not_None individual_strategy)
       && negb (is_not_None aggregate_strategy) then
      Raise (ValueError
        "At least one of global, individual, or aggregate routes must be enabled. Remove --no-global, --no-individual, or --no-aggregate.")
    else
      gen_config <--
        new_RouteGenerationConfig global_strategy individual_strategy
          aggregate_strategy (min_trips args) ;;
      env <-- from_env ;;
      Ok (mkPipelineConfig env gen_config).

End BuildConfig.

(** A strategy as the factory methods build it. *)
Definition well_formed (strategy : RouteSelectionStrategy) : Prop :=
  match selection_type strategy with
  | TOP_N =>
      exists n, top_n strategy = Some n /\ 1 <= n
                /\ coverage_percentage strategy = None
  | PERCENTAGE =>
      exists pct, coverage_percentage strategy = Some pct
                  /\ (0 < pct)%Q /\ (pct <= 100)%Q
                  /\ top_n strategy = None
  end.

Definition well_formed_if_set (strategy : option RouteSelectionStrategy) : Prop :=
  match strategy with
  | Some s => well_formed s
  | None => True
  end.

(** The arguments with each number that is zero, and an empty phase,
    taken as not given. *)
Definition without_zeros (args : Args) : Args :=
  let int (x : option Z) := if truthy_int x then x else None in
  let float (x : option Q) := if truthy_float x then x else None in
  mkArgs (int (global_top args)) (float (global_pct args)) (no_global args)
    (int (individual_top args)) (float (individual_pct args))
    (no_individual args)
    (int (aggregate_top args)) (float (aggregate_pct args)) (no_aggregate args)
    (min_trips args)
    (if truthy_str (phase args) then phase args else None)
    (coverage args).

(** The arguments of a run without any option. *)
Definition no_arguments : Args :=
  mkArgs None None false None None false None None false 1 None 80.

(** ** The global routes file *)

(** An element of ["routes"] in the global file. *)
Record GlobalEntry : Type := mkGlobalEntry {
  ge_route_key : string;
  ge_from : string;
  ge_to : string;
  ge_polyline : string;
  ge_distance_km : Q;
  ge_duration_min : Q;
  ge_bidirectional : bool
}.

Definition global_entry (route : RouteGeometry) : GlobalEntry :=
  mkGlobalEntry (g_route_key route) (g_departure_station_id route)
    (g_return_station_id route) (polyline route)
    (py_round (distance_km route) 2) (py_round (duration_minutes route) 1) true.

(** ["value"] of ["generation_strategy"]: the count or the percentage. *)
Inductive StrategyValue : Type :=
  | CountValue (top_n : option Z)
  | PercentageValue (coverage_percentage : option Q).

(** The dict [data] that [write_global_routes] builds and dumps. *)
Record GlobalFile : Type := mkGlobalFile {
  gf_strategy_type : string;
  gf_strategy_value : StrategyValue;
  gf_routes : list GlobalEntry;
  gf_count : Z
}.

(** [RouteSelectionType.value] *)
Definition selection_type_value (t : RouteSelectionType) : string :=
  match t with
  | TOP_N => "top_n"
  | PERCENTAGE => "percentage"
  end.

(** [data] in [RouteFileWriter.write_global_routes] *)
Definition global_routes_data (routes : list RouteGeometry)
    (strategy : RouteSelectionStrategy) : GlobalFile :=
  mkGlobalFile
    (selection_type_value (selection_type strategy))
    (if String.eqb (selection_type_value (selection_type strategy)) "top_n"
     then CountValue (top_n strategy)
     else PercentageValue (coverage_percentage strategy))
    (map global_entry routes)
    (Z.of_nat (length routes)).

(** [global_generated] of [_write_output_files]: the generated routes
    whose key is the key of a global route. *)
Definition global_generated (global_routes : list RouteStatistics)
    (generated_routes : list RouteGeometry) : list RouteGeometry :=
  let global_route_keys : gset string :=
    list_to_set (map route_key global_routes) in
  List.filter (fun r => bool_decide (g_route_key r ∈ global_route_keys))
    generated_routes.

(** ** File names and the manifest *)

(** [str(n)] for an [int], and [int(x)] for a [float]: truncation
    towards zero. *)
Definition py_str_int (n : Z) : string := NilZero.string_of_int (Z.to_int n).

Definition py_int (x : Q) : Z :=
  if Qle_bool 0 x then Qfloor x else Qceiling x.

(** [OutputConfig.top_routes_filename] *)
Definition top_routes_filename (phase : string) (coverage_pct : Q) : string :=
  if String.eqb phase "phase1" then "top-1000.json.gz"
  else ("top-" ++ py_str_int (py_int coverage_pct) ++ "pct.json.gz")%string.

(** The file name chosen by [write_global_routes]. *)
Definition global_routes_filename (strategy : RouteSelectionStrategy)
  : result string :=
  match selection_type strategy with
  | TOP_N =>
      Ok ("top-"
          ++ match top_n strategy with
             | Some n => py_str_int n
             | None => "None"
             end
          ++ ".json.gz")%string
  | PERCENTAGE =>
      match coverage_percentage strategy with
      | Some pct => Ok ("top-" ++ py_str_int (py_int pct) ++ "pct.json.gz")%string
      | None =>
          Raise (OtherException "TypeError"
                   "int() argument must be a string, a bytes-like object or a real number, not 'NoneType'")
      end
  end.

(** [RouteFileWriter.write_global_routes]: the name it returns and
    the document it writes. *)
Definition write_global_routes (routes : list RouteGeometry)
    (strategy : RouteSelectionStrategy) : result (string * GlobalFile) :=
  filename <-- global_routes_filename strategy ;;
  Ok (filename, global_routes_data routes strategy).

(** [Path.name]: what follows the last slash. *)
Fixpoint has_slash (s : string) : bool :=
  match s with
  | EmptyString => false
  | String c s' => Ascii.eqb c "/" || has_slash s'
  end.

Fixpoint path_name (s : string) : string :=
  match s with
  | EmptyString => EmptyString
  | String c s' => if has_slash s then path_name s' else s
  end.

(** [OutputConfig.station_file_path(station_id).name] *)
Definition station_file_name (use_compression : bool) (station_id : string)
  : string :=
  path_name
    (if use_compression then "s" ++ station_id ++ ".json.gz"
     else "s" ++ station_id ++ ".json")%string.

(** [sorted(l)] for a list of [str]. *)
Definition sorted_strings (l : list string) : list string :=
  sort_by (fun r x => (x <? r)%string) l.

(** The list [write_station_routes] returns: the names of the files,
    in the order of [sorted(station_routes.items())]. *)
Definition created_station_files (use_compression : bool)
    (station_routes : gmap string (list RouteGeometry)) : list string :=
  map (station_file_name use_compression)
    (sorted_strings (map fst (map_to_list station_routes))).

(** The keys of [metadata] that [write_manifest] reads; a key that is
    not in the dict is [None]. *)
Record Metadata : Type := mkMetadata {
  md_phase : option string;
  md_coverage_pct : option Q;
  md_total_routes : option Z;
  md_unique_routes : option Z;
  md_generation_time : option Q;
  md_success_rate : option Q
}.

Record Manifest : Type := mkManifest {
  m_generated_at : string;
  m_version : string;
  m_phase : string;
  m_total_routes : Z;
  m_unique_routes : Z;
  m_stations_count : Z;
  m_generation_time_seconds : Q;
  m_success_rate_pct : Q;
  m_top_routes : string;
  m_station_files : list string;
  m_encoding : string;
  m_precision : Z;
  m_compression : string
}.

(** [RouteFileWriter.write_manifest]; [now] is the formatted reading
    of the clock. *)
Definition write_manifest (use_compression : bool) (now : string)
    (metadata : Metadata) (station_files : list string) : Manifest :=
  let phase := default "phase1" (md_phase metadata) in
  let coverage_pct := default 80%Q (md_coverage_pct metadata) in
  mkManifest now "1.0" phase
    (default 0 (md_total_routes metadata))
    (default 0 (md_unique_routes metadata))
    (Z.of_nat (length station_files))
    (default 0%Q (md_generation_time metadata))
    (default 0%Q (md_success_rate metadata))
    (top_routes_filename phase coverage_pct)
    (sorted_strings station_files)
    "polyline" 6
    (if use_compression then "gzip" else "none").

(** What [_write_output_files] writes. *)
Record OutputFiles : Type := mkOutputFiles {
  of_global_file : option (string * GlobalFile);
  of_station_files : option (gmap string StationFile);
  of_created_files : list string;
  of_manifest : Manifest
}.

(** [RoutePipeline._write_output_files]; [now] and [time_now] are the
    two readings of the clock.  (The two descriptions of the
    strategies that it also puts in [metadata] are not read by
    [write_manifest].) *)
Definition _write_output_files (use_compression : bool)
    (gen_config : RouteGenerationConfig) (sel : Selection) (g : Generator)
    (now : string) (time_now : Q)
    (generated_routes : list RouteGeometry)
    (station_routes : gmap string (list RouteGeometry))
  : result OutputFiles :=
  global_file <--
    match global_strategy gen_config with
    | Some strategy =>
        written <--
          write_global_routes
            (global_generated (sel_global_routes sel) generated_routes)
            strategy ;;
        Ok (Some written)
    | None => Ok None
    end ;;
  let created_files :=
    match global_file with
    | Some (filename, _) => [filename]
    | None => []
    end in
  let station_files :=
    if should_generate_individual gen_config then
      Some (write_station_routes station_routes (sel_bidirectional_map sel)
              (Some (sel_per_station_routes sel)))
    else None in
  let created_files :=
    if should_generate_individual gen_config then
      created_files ++ created_station_files use_compression station_routes
    else created_files in
  let gen_stats := get_statistics g in
  let metadata :=
    mkMetadata None None
      (Some (Z.of_nat (length generated_routes)))
      (Some (Z.of_nat (length generated_routes)))
      (Some time_now) (Some (success_rate_pct gen_stats)) in
  Ok (mkOutputFiles global_file station_files created_files
        (write_manifest use_compression now metadata created_files)).

(** The outcome of naming the global file, when there is a global
    strategy. *)
Definition global_routes_filename_of (gen_config : RouteGenerationConfig)
  : option (result string) :=
  global_routes_filename <$> global_strategy gen_config.

(** ** The coordinates of the stations *)

(** A row of the table [stations] that has a location, as the query
    of [get_station_coordinates] reads it: the identifier, [ST_Y] and
    [ST_X] of the location. *)
Record StationRow : Type := mkStationRow {
  sr_station_id : string;
  sr_latitude : Q;
  sr_longitude : Q
}.

(** The dict comprehension of [get_station_coordinates], over the
    rows in the order the database delivers them. *)
Fixpoint coordinates_of_rows (rows : list StationRow)
    (coordinates : gmap string StationCoordinate)
  : result (gmap string StationCoordinate) :=
  match rows with
  | [] => Ok coordinates
  | row :: rest =>
      station <--
        new_StationCoordinate (sr_station_id row) (sr_latitude row)
          (sr_longitude row) ;;
      coordinates_of_rows rest (<[sr_station_id row := station]> coordinates)
  end.

(** [RouteAnalyzer.get_station_coordinates]:
    [WHERE station_id = ANY(station_ids)]. *)
Definition get_station_coordinates (station_ids : list string)
    (stations : list StationRow) : result (gmap string StationCoordinate) :=
  coordinates_of_rows
    (List.filter
       (fun row => existsb (String.eqb (sr_station_id row)) station_ids)
       stations)
    ∅.

(** [RoutePipeline._fetch_station_coordinates]: the identifiers asked
    for are the two stations of each route. *)
Definition _fetch_station_coordinates (routes : list RouteStatistics)
    (stations : list StationRow) : result (gmap string StationCoordinate) :=
  get_station_coordinates
    (flat_map (fun route =>
                 [departure_station_id route; return_station_id route]) routes)
    stations.

(** A station of one of the routes. *)
Definition station_of_routes (routes : list RouteStatistics) (s : string)
  : Prop :=
  exists r, In r routes
            /\ (departure_station_id r = s \/ return_station_id r = s).

(** Coordinates that [StationCoordinate.__post_init__] accepts. *)
Definition valid_location (row : StationRow) : Prop :=
  (-90 <= sr_latitude row)%Q /\ (sr_latitude row <= 90)%Q
  /\ (-180 <= sr_longitude row)%Q /\ (sr_longitude row <= 180)%Q.

Definition stations_table : list StationRow :=
  [mkStationRow "030" (601695 # 10000) (249354 # 10000);
   mkStationRow "067" (601712 # 10000) (249412 # 10000);
   mkStationRow "999" 91 0].

(** * Properties *)

(** ** Facts about the order on station identifiers *)

Lemma string_ltb_asym (a b : string) :
  (a <? b)%string = true -> (b <? a)%string = false.
Proof.
  unfold String.ltb. rewrite (String.compare_antisym a b).
  destruct (String.compare b a); simpl; congruence.
Qed.

Lemma string_ltb_total (a b : string) :
  a <> b -> (a <? b)%string = true \/ (b <? a)%string = true.
Proof.
  intros Hne. unfold String.ltb.
  rewrite (String.compare_antisym a b).
  destruct (String.compare b a) eqn:E; simpl; auto.
  apply String.compare_eq_iff in E. congruence.
Qed.

Lemma string_ltb_irrefl (a : string) : (a <? a)%string = false.
Proof.
  destruct (a <? a)%string eqn:E; [|reflexivity].
  pose proof (string_ltb_asym _ _ E). congruence.
Qed.

Lemma canonical_key_sym (a b : string) : canonical_key a b = canonical_key b a.
Proof.
  unfold canonical_key.
  destruct (String.eqb_spec a b) as [->|Hne]; [reflexivity|].
  destruct (string_ltb_total a b Hne) as [H|H]; rewrite H;
    rewrite (string_ltb_asym _ _ H); reflexivity.
Qed.

Lemma Qlt_bool_iff (x y : Q) : Qlt_bool x y = true <-> (x < y)%Q.
Proof.
  unfold Qlt_bool. rewrite negb_true_iff.
  split.
  - intros H. apply Qnot_le_lt. intros Hle.
    apply Qle_bool_iff in Hle. congruence.
  - intros H. destruct (Qle_bool y x) eqn:E; [|reflexivity].
    apply Qle_bool_iff in E. exfalso. exact (Qlt_not_le _ _ H E).
Qed.

Lemma Qlt_bool_false_iff (x y : Q) : Qlt_bool x y = false <-> (y <= x)%Q.
Proof.
  unfold Qlt_bool. rewrite negb_false_iff. apply Qle_bool_iff.
Qed.

(** ** Rounding to binary64 *)

Lemma round_half_even_cases (x : Q) :
  let f := Qfloor x in
  (inject_Z f <= x)%Q /\ (x < inject_Z f + 1)%Q
  /\ ((x - inject_Z f < 1 # 2)%Q /\ round_half_even x = f
      \/ ((1 # 2) < x - inject_Z f)%Q /\ round_half_even x = f + 1
      \/ (x - inject_Z f == 1 # 2)%Q
         /\ (round_half_even x = f \/ round_half_even x = f + 1)
         /\ Z.even (round_half_even x) = true).
Proof.
  intros f. subst f.
  pose proof (Qfloor_le x) as Hlo. pose proof (Qlt_floor x) as Hhi.
  rewrite inject_Z_plus in Hhi. change (inject_Z 1) with 1%Q in Hhi.
  split; [exact Hlo|]. split; [exact Hhi|].
  unfold round_half_even.
  destruct (Qlt_bool (x - inject_Z (Qfloor x)) (1 # 2)) eqn:E1.
  - left. apply Qlt_bool_iff in E1. split; [exact E1 | reflexivity].
  - destruct (Qlt_bool (1 # 2) (x - inject_Z (Qfloor x))) eqn:E2.
    + right. left. apply Qlt_bool_iff in E2. split; [exact E2 | reflexivity].
    + right. right.
      assert (~ (x - inject_Z (Qfloor x) < 1 # 2)%Q) as N1.
      { intros H. apply Qlt_bool_iff in H. congruence. }
      assert (~ ((1 # 2) < x - inject_Z (Qfloor x))%Q) as N2.
      { intros H. apply Qlt_bool_iff in H. congruence. }
      split; [lra|].
      destruct (Z.even (Qfloor x)) eqn:Ev.
      * split; [left; reflexivity | exact Ev].
      * split; [right; reflexivity|].
        rewrite Z.even_add, Ev. reflexivity.
Qed.

Lemma round_half_even_Z (n : Z) : round_half_even (inject_Z n) = n.
Proof.
  destruct (round_half_even_cases (inject_Z n)) as (_ & _ & H).
  rewrite Qfloor_Z in H.
  destruct H as [[_ H] | [[H _] | [H _]]]; [exact H | lra | lra].
Qed.

Lemma round_half_even_mono (x y : Q) :
  (x <= y)%Q -> round_half_even x <= round_half_even y.
Proof.
  intros Hxy.
  pose proof (Qfloor_resp_le x y Hxy) as Hf.
  destruct (round_half_even_cases x) as (Hxl & Hxh & Hx).
  destruct (round_half_even_cases y) as (Hyl & Hyh & Hy).
  destruct (Z.eq_dec (Qfloor x) (Qfloor y)) as [E|N].
  - rewrite <- E in *.
    destruct Hx as [[Hx ->] | [[Hx ->] | (Hx & Hx' & Hxe)]];
      destruct Hy as [[Hy ->] | [[Hy ->] | (Hy & Hy' & Hye)]];
      try lia; try lra.
    destruct Hx' as [Ex | Ex]; destruct Hy' as [Ey | Ey]; try lia.
    exfalso. rewrite Ex in Hxe. rewrite Ey in Hye.
    rewrite Z.even_add, Hye in Hxe. discriminate.
  - assert (round_half_even x <= Qfloor x + 1) as H1.
    { destruct Hx as [[_ ->] | [[_ ->] | (_ & [-> | ->] & _)]]; lia. }
    assert (Qfloor y <= round_half_even y) as H2.
    { destruct Hy as [[_ ->] | [[_ ->] | (_ & [-> | ->] & _)]]; lia. }
    lia.
Qed.

Lemma round_half_even_Qeq (x y : Q) :
  (x == y)%Q -> round_half_even x = round_half_even y.
Proof.
  intros E. apply Z.le_antisymm; apply round_half_even_mono; rewrite E; apply Qle_refl.
Qed.

Lemma round_half_even_opp (x : Q) :
  round_half_even (- x) = - round_half_even x.
Proof.
  destruct (round_half_even_cases x) as (Hxl & Hxh & Hx).
  destruct (round_half_even_cases (- x)) as (Hnl & Hnh & Hn).
  set (f := Qfloor x) in *. set (g := Qfloor (- x)) in *.
  assert (g = - f \/ g = - f - 1) as Hg.
  { assert (inject_Z g < inject_Z (- f + 1))%Q as H1.
    { rewrite inject_Z_plus, inject_Z_opp. change (inject_Z 1) with 1%Q. lra. }
    assert (inject_Z (- f - 1) < inject_Z (g + 1))%Q as H2.
    { unfold Z.sub. rewrite !inject_Z_plus, !inject_Z_opp.
      change (inject_Z 1) with 1%Q. lra. }
    rewrite <- Zlt_Qlt in H1, H2. lia. }
  assert (inject_Z g == - inject_Z f \/ inject_Z g == - inject_Z f - 1)%Q as Hg'.
  { destruct Hg as [-> | ->]; [left | right].
    - rewrite inject_Z_opp. reflexivity.
    - unfold Z.sub. rewrite inject_Z_plus, !inject_Z_opp. reflexivity. }
  destruct Hx as [[Hx Ex] | [[Hx Ex] | (Hx & Hx' & Hxe)]];
    destruct Hn as [[Hn En] | [[Hn En] | (Hn & Hn' & Hne)]];
    destruct Hg as [Eg | Eg]; destruct Hg' as [Eg' | Eg'];
    try (rewrite Eg in Eg'; rewrite ?inject_Z_opp in Eg';
         unfold Z.sub in Eg'; rewrite ?inject_Z_plus, ?inject_Z_opp in Eg';
         change (inject_Z 1) with 1%Q in Eg'; lra);
    try lra; try lia.
  all: try (destruct Hx' as [E1 | E1]; lia).
  all: try (destruct Hn' as [E2 | E2]; lia).
  - (* both ties *)
    apply Z.even_spec in Hxe, Hne.
    destruct Hxe as [a Ha], Hne as [b Hb].
    destruct Hx' as [E1 | E1]; destruct Hn' as [E2 | E2]; lia.
Qed.

Lemma pow2_pos (k : Z) : (0 < 2 ^ k)%Q.
Proof. apply Qpower_0_lt. reflexivity. Qed.

Lemma pow2_add (a b : Z) : (2 ^ (a + b) == 2 ^ a * 2 ^ b)%Q.
Proof. apply Qpower_plus. discriminate. Qed.

Lemma pow2_succ (k : Z) : (2 ^ (k + 1) == 2 * 2 ^ k)%Q.
Proof. rewrite pow2_add. change (2 ^ 1)%Q with 2%Q. ring. Qed.

Lemma pow2_le (a b : Z) : a <= b -> (2 ^ a <= 2 ^ b)%Q.
Proof. intros H. apply Qpower_le_compat_l; [exact H | discriminate]. Qed.

Lemma pow2_lt_inv (a b : Z) : (2 ^ a < 2 ^ b)%Q -> a < b.
Proof. intros H. apply (Qpower_lt_compat_l_inv 2); [exact H | reflexivity]. Qed.

Lemma pow2_Z (k : Z) : 0 <= k -> (2 ^ k == inject_Z (2 ^ k))%Q.
Proof. intros H. rewrite Zpower_Qpower by exact H. reflexivity. Qed.

Lemma ilog2_spec (x : Q) :
  (0 < x)%Q -> (2 ^ ilog2 x <= x)%Q /\ (x < 2 ^ (ilog2 x + 1))%Q.
Proof.
  intros Hx. unfold ilog2.
  destruct x as [n d]. cbn [Qnum Qden].
  assert (0 < n) as Hn by (unfold Qlt in Hx; simpl in Hx; lia).
  set (a := Z.log2 n). set (b := Z.log2 (Zpos d)).
  assert (0 <= a) as Ha by apply Z.log2_nonneg.
  assert (0 <= b) as Hb by apply Z.log2_nonneg.
  destruct (Z.log2_spec n Hn) as [Hn1 Hn2]. fold a in Hn1, Hn2.
  destruct (Z.log2_spec (Zpos d) ltac:(lia)) as [Hd1 Hd2]. fold b in Hd1, Hd2.
  rewrite Zle_Qle in Hn1, Hd1. rewrite Zlt_Qlt in Hn2, Hd2.
  rewrite <- !pow2_Z in Hn1, Hn2, Hd1, Hd2 by lia.
  unfold Z.succ in Hn2, Hd2. rewrite pow2_succ in Hn2, Hd2.
  assert ((n # d) * inject_Z (Zpos d) == inject_Z n)%Q as Hxd.
  { unfold Qeq, Qmult, inject_Z. simpl. lia. }
  pose proof (pow2_pos a) as Pa. pose proof (pow2_pos b) as Pb.
  pose proof (pow2_pos (a - b)) as Pe.
  assert (2 ^ (a - b) * 2 ^ b == 2 ^ a)%Q as He.
  { rewrite <- pow2_add. replace (a - b + b) with a by lia. reflexivity. }
  set (x := n # d) in *. set (D := inject_Z (Zpos d)) in *.
  set (N := inject_Z n) in *. set (A := (2 ^ a)%Q) in *.
  set (B := (2 ^ b)%Q) in *. set (p := (2 ^ (a - b))%Q) in *.
  assert (x < 2 * p)%Q as Hup.
  { apply Qnot_le_lt. intros Hc.
    assert (2 * p * B * D <= x * D * B)%Q by nra. nra. }
  assert (p <= 2 * x)%Q as Hlo.
  { apply Qnot_lt_le. intros Hc.
    assert (2 * x * D * B < p * B * D)%Q by nra. nra. }
  destruct (Qle_bool p x) eqn:E.
  - apply Qle_bool_iff in E. split; [exact E|].
    rewrite pow2_succ. exact Hup.
  - assert (x < p)%Q as Hlt.
    { apply Qnot_le_lt. intros Hc. apply Qle_bool_iff in Hc. congruence. }
    replace (a - b - 1 + 1) with (a - b) by lia. fold p.
    split; [|exact Hlt].
    assert (2 * 2 ^ (a - b - 1) == p)%Q as Hh.
    { rewrite <- pow2_succ. replace (a - b - 1 + 1) with (a - b) by lia.
      reflexivity. }
    lra.
Qed.

Lemma ilog2_bounds (x : Q) (e : Z) :
  (2 ^ e <= x)%Q -> (x < 2 ^ (e + 1))%Q -> ilog2 x = e.
Proof.
  intros H1 H2.
  assert (0 < x)%Q as Hx by (pose proof (pow2_pos e); lra).
  destruct (ilog2_spec x Hx) as [H3 H4].
  assert (ilog2 x < e + 1) by (apply pow2_lt_inv; lra).
  assert (e < ilog2 x + 1) by (apply pow2_lt_inv; lra).
  lia.
Qed.

Lemma ilog2_mono (x y : Q) : (0 < x)%Q -> (x <= y)%Q -> ilog2 x <= ilog2 y.
Proof.
  intros Hx Hxy.
  destruct (ilog2_spec x Hx) as [H1 _].
  destruct (ilog2_spec y ltac:(lra)) as [_ H2].
  assert (ilog2 x < ilog2 y + 1) by (apply pow2_lt_inv; lra).
  lia.
Qed.

Lemma round_at_mono (k : Z) (x y : Q) :
  (x <= y)%Q -> (round_at k x <= round_at k y)%Q.
Proof.
  intros Hxy. unfold round_at. pose proof (pow2_pos k) as Hk.
  apply Qmult_le_compat_r; [|lra].
  rewrite <- Zle_Qle. apply round_half_even_mono.
  apply Qmult_le_compat_r; [exact Hxy|].
  apply Qinv_le_0_compat. lra.
Qed.

Lemma round_at_grid (k z : Z) :
  (round_at k (inject_Z z * 2 ^ k) == inject_Z z * 2 ^ k)%Q.
Proof.
  unfold round_at. pose proof (pow2_pos k) as Hk.
  rewrite (round_half_even_Qeq _ (inject_Z z)).
  - rewrite round_half_even_Z. reflexivity.
  - field. lra.
Qed.

Lemma round_at_pow2 (k m : Z) :
  k <= m -> (round_at k (2 ^ m) == 2 ^ m)%Q.
Proof.
  intros H.
  assert (2 ^ m == inject_Z (2 ^ (m - k)) * 2 ^ k)%Q as E.
  { rewrite <- pow2_Z by lia. rewrite <- pow2_add.
    replace (m - k + k) with m by lia. reflexivity. }
  unfold round_at at 1.
  rewrite (round_half_even_Qeq _ (inject_Z (2 ^ (m - k)))).
  - rewrite round_half_even_Z. symmetry. exact E.
  - rewrite E. pose proof (pow2_pos k). field. lra.
Qed.

Lemma round_at_opp (k : Z) (x : Q) : (round_at k (- x) == - round_at k x)%Q.
Proof.
  unfold round_at.
  rewrite (round_half_even_Qeq (- x / 2 ^ k) (- (x / 2 ^ k))).
  - rewrite round_half_even_opp, inject_Z_opp. ring.
  - pose proof (pow2_pos k). field. lra.
Qed.

Lemma Qabs_opp_eq (x : Q) : Qabs (- x) = Qabs x.
Proof.
  destruct x as [n d]. unfold Qabs, Qopp. simpl. rewrite Z.abs_opp.
  reflexivity.
Qed.

Lemma last_place_opp (x : Q) : last_place (- x) = last_place x.
Proof. unfold last_place. rewrite Qabs_opp_eq. reflexivity. Qed.

Lemma ilog2_Qeq (x y : Q) : (0 < x)%Q -> (x == y)%Q -> ilog2 x = ilog2 y.
Proof.
  intros Hx E. destruct (ilog2_spec x Hx) as [H1 H2].
  symmetry. apply ilog2_bounds; rewrite <- E; assumption.
Qed.

Lemma last_place_pos (x : Q) :
  (0 < x)%Q -> last_place x = Z.max (ilog2 x - 52) (-1074).
Proof.
  intros Hx. unfold last_place. f_equal. f_equal.
  symmetry. apply ilog2_Qeq; [exact Hx|].
  symmetry. apply Qabs_pos. lra.
Qed.

Lemma binary64_0 (x : Q) : (x == 0)%Q -> (binary64 x == 0)%Q.
Proof.
  intros E. unfold binary64, round_at.
  rewrite (round_half_even_Qeq _ (inject_Z 0)).
  - rewrite round_half_even_Z. ring.
  - pose proof (pow2_pos (last_place x)).
    change (inject_Z 0) with 0%Q.
    apply (Qeq_trans _ (0 / 2 ^ last_place x)).
    + apply Qdiv_comp; [exact E | reflexivity].
    + field. lra.
Qed.

Lemma binary64_nonneg (x : Q) : (0 <= x)%Q -> (0 <= binary64 x)%Q.
Proof.
  intros Hx. unfold binary64.
  pose proof (round_at_mono (last_place x) 0 x Hx) as H.
  assert (round_at (last_place x) 0 == 0)%Q as H0.
  { pose proof (round_at_grid (last_place x) 0) as G.
    assert (inject_Z 0 * 2 ^ last_place x == 0)%Q as E by ring.
    unfold round_at in *.
    rewrite (round_half_even_Qeq (0 / 2 ^ last_place x)
               (inject_Z 0 * 2 ^ last_place x / 2 ^ last_place x)).
    - exact (Qeq_trans _ _ _ G E).
    - pose proof (pow2_pos (last_place x)). field. lra. }
  lra.
Qed.

Lemma binary64_opp (x : Q) : (binary64 (- x) == - binary64 x)%Q.
Proof. unfold binary64. rewrite last_place_opp. apply round_at_opp. Qed.

Lemma binary64_mono_pos (x y : Q) :
  (0 < x)%Q -> (x <= y)%Q -> (binary64 x <= binary64 y)%Q.
Proof.
  intros Hx Hxy. assert (0 < y)%Q as Hy by lra.
  unfold binary64. rewrite (last_place_pos x Hx), (last_place_pos y Hy).
  pose proof (ilog2_mono x y Hx Hxy) as He.
  destruct (ilog2_spec x Hx) as [Hx1 Hx2].
  destruct (ilog2_spec y Hy) as [Hy1 Hy2].
  set (ex := ilog2 x) in *. set (ey := ilog2 y) in *.
  destruct (Z.eq_dec (Z.max (ex - 52) (-1074)) (Z.max (ey - 52) (-1074)))
    as [E|N].
  - rewrite E. apply round_at_mono. exact Hxy.
  - assert (ex < ey) as Hlt by lia.
    assert (Z.max (ey - 52) (-1074) = ey - 52) as Ky by lia.
    rewrite Ky.
    apply (Qle_trans _ (2 ^ ey)).
    + rewrite <- (round_at_pow2 (Z.max (ex - 52) (-1074)) ey) by lia.
      apply round_at_mono.
      pose proof (pow2_le (ex + 1) ey ltac:(lia)). lra.
    + rewrite <- (round_at_pow2 (ey - 52) ey) at 1 by lia.
      apply round_at_mono. exact Hy1.
Qed.

Lemma binary64_mono (x y : Q) : (x <= y)%Q -> (binary64 x <= binary64 y)%Q.
Proof.
  intros Hxy.
  destruct (Qlt_le_dec 0 x) as [Hx|Hx].
  - apply binary64_mono_pos; assumption.
  - destruct (Qlt_le_dec y 0) as [Hy|Hy].
    + assert (binary64 (- y) <= binary64 (- x))%Q as H
        by (apply binary64_mono_pos; lra).
      rewrite !binary64_opp in H. lra.
    + pose proof (binary64_nonneg y Hy) as H1.
      pose proof (binary64_nonneg (- x) ltac:(lra)) as H2.
      rewrite binary64_opp in H2. lra.
Qed.

Lemma binary64_Qeq (x y : Q) : (x == y)%Q -> (binary64 x == binary64 y)%Q.
Proof.
  intros E. apply Qle_antisym; apply binary64_mono; rewrite E; apply Qle_refl.
Qed.

Lemma binary64_grid_eq (k : Z) (x : Q) (z : Z) :
  (x == inject_Z z * 2 ^ k)%Q -> (round_at k x == x)%Q.
Proof.
  intros E. unfold round_at. pose proof (pow2_pos k) as Hk.
  rewrite (round_half_even_Qeq _ (inject_Z z)).
  - rewrite round_half_even_Z. symmetry. exact E.
  - rewrite E. field. lra.
Qed.

(** An integer of at most 53 bits is a binary64 number. *)
Lemma binary64_Z (n : Z) :
  Z.abs n <= 2 ^ 53 -> (binary64 (inject_Z n) == inject_Z n)%Q.
Proof.
  assert (forall m, 0 < m <= 2 ^ 53 ->
            (binary64 (inject_Z m) == inject_Z m)%Q) as Hpos.
  { intros m [Hm Hle].
    assert (0 < inject_Z m)%Q as HQ.
    { change 0%Q with (inject_Z 0). rewrite <- Zlt_Qlt. exact Hm. }
    unfold binary64. rewrite (last_place_pos _ HQ).
    destruct (Z.log2_spec m Hm) as [L1 L2].
    pose proof (Z.log2_nonneg m) as L0.
    assert (ilog2 (inject_Z m) = Z.log2 m) as El.
    { apply ilog2_bounds.
      - rewrite pow2_Z by lia. rewrite <- Zle_Qle. exact L1.
      - rewrite pow2_Z by lia. rewrite <- Zlt_Qlt.
        unfold Z.succ in L2. exact L2. }
    rewrite El.
    assert (Z.log2 m <= 53) as L53.
    { pose proof (Z.log2_le_mono m (2 ^ 53) Hle) as H.
      rewrite Z.log2_pow2 in H; lia. }
    set (k := Z.max (Z.log2 m - 52) (-1074)).
    destruct (Z.le_gt_cases k 0) as [Hk|Hk].
    - assert (inject_Z m == inject_Z (m * 2 ^ (- k)) * 2 ^ k)%Q as E.
      { rewrite inject_Z_mult, <- pow2_Z by lia.
        rewrite <- Qmult_assoc, <- pow2_add.
        replace (- k + k) with 0 by lia. change (2 ^ 0)%Q with 1%Q. ring. }
      exact (binary64_grid_eq k _ _ E).
    - assert (Z.log2 m = 53) as E53 by lia.
      assert (m = 2 ^ 53) as Em by (rewrite E53 in L1; lia).
      assert (k = 1) as Ek by lia.
      rewrite Ek, Em. vm_compute. reflexivity. }
  intros Hn.
  destruct (Z.lt_trichotomy n 0) as [Hneg | [-> | Hp]].
  - assert (binary64 (inject_Z (- n)) == inject_Z (- n))%Q as H
      by (apply Hpos; lia).
    rewrite inject_Z_opp in H.
    rewrite binary64_opp in H. lra.
  - apply binary64_0. reflexivity.
  - apply Hpos. lia.
Qed.

Lemma float_of_int_exact (n : Z) :
  Z.abs n <= 2 ^ 53 -> (float_of_int n == inject_Z n)%Q.
Proof. apply binary64_Z. Qed.

Lemma float_of_int_mono (n m : Z) :
  n <= m -> (float_of_int n <= float_of_int m)%Q.
Proof.
  intros H. apply binary64_mono. rewrite <- Zle_Qle. exact H.
Qed.

Lemma float_div_mono (x y d : Q) :
  (0 < d)%Q -> (x <= y)%Q -> (float_div x d <= float_div y d)%Q.
Proof.
  intros Hd Hxy. apply binary64_mono.
  apply Qmult_le_compat_r; [exact Hxy|].
  apply Qinv_le_0_compat. lra.
Qed.

Lemma float_mul_mono_r (x y z : Q) :
  (0 <= z)%Q -> (x <= y)%Q -> (float_mul x z <= float_mul y z)%Q.
Proof. intros Hz Hxy. apply binary64_mono. nra. Qed.

Lemma float_mul_mono_l (x y z : Q) :
  (0 <= z)%Q -> (x <= y)%Q -> (float_mul z x <= float_mul z y)%Q.
Proof. intros Hz Hxy. apply binary64_mono. nra. Qed.

Lemma round_half_even_error (x : Q) :
  (x - (1 # 2) <= inject_Z (round_half_even x))%Q
  /\ (inject_Z (round_half_even x) <= x + (1 # 2))%Q.
Proof.
  destruct (round_half_even_cases x) as (Hl & Hh & H).
  assert (inject_Z (Qfloor x + 1) == inject_Z (Qfloor x) + 1)%Q as E.
  { rewrite inject_Z_plus. reflexivity. }
  destruct H as [[H ->] | [[H ->] | (H & [-> | ->] & _)]];
    rewrite ?E; split; lra.
Qed.

Lemma binary64_pow2 (m : Z) : -1074 <= m -> (binary64 (2 ^ m) == 2 ^ m)%Q.
Proof.
  intros Hm. unfold binary64.
  rewrite (last_place_pos _ (pow2_pos m)).
  assert (ilog2 (2 ^ m) = m) as ->.
  { apply ilog2_bounds; [apply Qle_refl|].
    rewrite pow2_succ. pose proof (pow2_pos m). lra. }
  apply round_at_pow2. lia.
Qed.

(** The relative error of rounding a number of the normal range is at
    most [2 ^ -53]. *)
Lemma binary64_error (x : Q) :
  (2 ^ (-1022) <= x)%Q ->
  (x * (1 - 2 ^ (-53)) <= binary64 x)%Q /\ (binary64 x <= x * (1 + 2 ^ (-53)))%Q.
Proof.
  intros Hx.
  assert (0 < x)%Q as Hpos by (pose proof (pow2_pos (-1022)); lra).
  destruct (ilog2_spec x Hpos) as [H1 H2].
  assert (-1022 <= ilog2 x) as He.
  { assert (-1022 < ilog2 x + 1); [|lia]. apply pow2_lt_inv. lra. }
  unfold binary64. rewrite (last_place_pos x Hpos).
  replace (Z.max (ilog2 x - 52) (-1074)) with (ilog2 x - 52) by lia.
  set (e := ilog2 x) in *. set (k := e - 52).
  unfold round_at.
  destruct (round_half_even_error (x / 2 ^ k)) as [R1 R2].
  pose proof (pow2_pos k) as Hk.
  assert (x / 2 ^ k * 2 ^ k == x)%Q as Ex by (field; lra).
  assert (2 ^ k == 2 * (2 ^ (-53) * 2 ^ e))%Q as Ek.
  { rewrite <- pow2_add, <- pow2_succ. subst k.
    replace (-53 + e + 1) with (e - 52) by lia. reflexivity. }
  pose proof (pow2_pos (-53)) as Hu.
  set (u := (2 ^ (-53))%Q) in *. set (p := (2 ^ k)%Q) in *.
  set (r := inject_Z (round_half_even (x / p))) in *.
  set (z := (x / p)%Q) in *. set (pe := (2 ^ e)%Q) in *.
  assert (u * pe <= u * x)%Q as Hux by nra.
  split; nra.
Qed.

(** Values of the rounding, as the machine gives them: one tenth and
    28 / 100.0, ties at [2 ^ 53] going to the even neighbour, and the
    subnormal range down to the tie between zero and the smallest
    positive number. *)
Example binary64_examples :
  (binary64 (1 # 10) == 3602879701896397 # 36028797018963968)%Q
  /\ (float_div 28 100 == 1261007895663739 # 4503599627370496)%Q
  /\ (float_mul (float_div 1 3) 3 == 1)%Q
  /\ (float_of_int (2 ^ 53 + 1) == inject_Z (2 ^ 53))%Q
  /\ (float_of_int (2 ^ 53 + 3) == inject_Z (2 ^ 53 + 4))%Q
  /\ (float_div (253 * 2 ^ (-1071)) 100 == 5 * 2 ^ (-1072))%Q
  /\ (binary64 (3 * 2 ^ (-1075)) == 2 ^ (-1073))%Q
  /\ (binary64 (2 ^ (-1075)) == 0)%Q.
Proof. repeat split; vm_compute; reflexivity. Qed.

(** ** Construction of strategies and configurations *)

Lemma create_top_n_ok (n : Z) :
  1 <= n -> create_top_n n = Ok (mkRouteSelectionStrategy TOP_N (Some n) None).
Proof.
  intros H. unfold create_top_n.
  destruct (Z.ltb_spec n 1); [lia | reflexivity].
Qed.

Lemma create_top_n_raises (n : Z) :
  n < 1 -> create_top_n n = Raise (ValueError "N must be positive").
Proof.
  intros H. unfold create_top_n.
  destruct (Z.ltb_spec n 1); [reflexivity | lia].
Qed.

Lemma create_percentage_ok (pct : Q) :
  (0 < pct)%Q -> (pct <= 100)%Q ->
  create_percentage pct = Ok (mkRouteSelectionStrategy PERCENTAGE None (Some pct)).
Proof.
  intros H0 H100. unfold create_percentage.
  apply Qlt_bool_iff in H0. apply Qle_bool_iff in H100.
  rewrite H0, H100. reflexivity.
Qed.

Lemma create_percentage_raises (pct : Q) :
  ~ ((0 < pct)%Q /\ (pct <= 100)%Q) ->
  create_percentage pct = Raise (ValueError "Percentage must be between 0 and 100").
Proof.
  intros H. unfold create_percentage.
  destruct (Qlt_bool 0 pct) eqn:E0; [|reflexivity].
  destruct (Qle_bool pct 100) eqn:E1; [|reflexivity].
  exfalso. apply H. split; [apply Qlt_bool_iff | apply Qle_bool_iff]; assumption.
Qed.

Lemma post_init_ok_iff (c : RouteGenerationConfig) :
  RouteGenerationConfig_post_init c = Ok c <->
  (global_strategy c <> None \/ individual_strategy c <> None
   \/ per_station_aggregate_strategy c <> None)
  /\ 1 <= min_trips_threshold c /\ 1 <= batch_size c <= 1000.
Proof.
  unfold RouteGenerationConfig_post_init, should_generate_global,
    should_generate_individual, should_generate_aggregate.
  destruct (global_strategy c), (individual_strategy c),
    (per_station_aggregate_strategy c); simpl;
    destruct (Z.ltb_spec (min_trips_threshold c) 1);
    destruct (Z.leb_spec 1 (batch_size c));
    destruct (Z.leb_spec (batch_size c) 1000); simpl;
    split; intros Hc; try discriminate; try reflexivity;
    try (repeat split; try lia; auto; fail);
    try (destruct Hc as [[Hc|[Hc|Hc]] [? ?]]; try congruence; lia).
Qed.

(** C9.  [create_top_n] raises exactly when [n < 1],
    [create_percentage] raises exactly when the percentage is outside
    (0, 100], and the configuration constructor raises when the three
    strategies are all [None]; with valid parameters each constructor
    returns its value.  The constructors are functions of their
    parameters alone: they read neither the trips table nor the routing
    service. *)
Theorem invalid_parameters_raise_at_construction :
  (forall n : Z,
     (n < 1 <-> exists e, create_top_n n = Raise e) /\
     (1 <= n <-> exists s, create_top_n n = Ok s)) /\
  (forall pct : Q,
     (~ ((0 < pct)%Q /\ (pct <= 100)%Q)
      <-> exists e, create_percentage pct = Raise e) /\
     ((0 < pct)%Q /\ (pct <= 100)%Q
      <-> exists s, create_percentage pct = Ok s)) /\
  (forall (min_trips batch log : Z) (cost bike : string),
     exists e,
       RouteGenerationConfig_post_init
         (mkRouteGenerationConfig None None None min_trips batch log cost bike)
       = Raise e) /\
  (forall c : RouteGenerationConfig,
     (global_strategy c <> None \/ individual_strategy c <> None
      \/ per_station_aggregate_strategy c <> None)
     /\ 1 <= min_trips_threshold c /\ 1 <= batch_size c <= 1000
     <-> RouteGenerationConfig_post_init c = Ok c).
Proof.
  split; [|split; [|split]].
  - intros n. split; split.
    + intros H. eexists. apply create_top_n_raises. exact H.
    + intros [e He]. destruct (Z.lt_ge_cases n 1) as [|Hge]; [assumption|].
      rewrite (create_top_n_ok n) in He by lia. discriminate.
    + intros H. eexists. apply create_top_n_ok. exact H.
    + intros [s Hs]. destruct (Z.lt_ge_cases n 1) as [Hlt|]; [|lia].
      rewrite (create_top_n_raises n Hlt) in Hs. discriminate.
  - intros pct. split; split.
    + intros H. eexists. apply create_percentage_raises. exact H.
    + intros [e He] [H0 H1].
      rewrite (create_percentage_ok pct H0 H1) in He. discriminate.
    + intros [H0 H1]. eexists. apply create_percentage_ok; assumption.
    + intros [s Hs].
      destruct (Qlt_le_dec 0 pct) as [H0|H0];
        [destruct (Qlt_le_dec 100 pct) as [H1|H1]|].
      * rewrite create_percentage_raises in Hs; [discriminate|].
        intros [_ Hle]. exact (Qlt_not_le _ _ H1 Hle).
      * split; assumption.
      * rewrite create_percentage_raises in Hs; [discriminate|].
        intros [Hlt _]. exact (Qlt_not_le _ _ Hlt H0).
  - intros. eexists. reflexivity.
  - intros c. symmetry. apply post_init_ok_iff.
Qed.

(** ** The retry loop of the generator *)

Ltac step_cases :=
  unfold attempt_once, try_body;
  repeat (simpl;
    match goal with
    | |- context [match ?x with _ => _ end] => is_var x; destruct x
    | |- context [new_RouteGeometry ?a ?b ?c ?d ?e ?f] =>
        destruct (new_RouteGeometry a b c d e f) eqn:?
    | |- context [if ?b then _ else _] => destruct b eqn:?
    end);
  simpl in *.

Section GeneratorProperties.

Variable valhalla : ValhallaConfig.
Variable generation : GenerationConfig.
Variable polyline_roundtrip : string -> option string.

Local Abbreviation step :=
  (attempt_once valhalla generation polyline_roundtrip).
Local Abbreviation loop :=
  (retry_loop valhalla generation polyline_roundtrip).
Local Abbreviation generate :=
  (generate_route valhalla generation polyline_roundtrip).
Local Abbreviation retried := (after_retry valhalla generation).
Local Abbreviation request := (request_data valhalla generation).

Lemma attempt_once_requests attempt reply f t g :
  total_requests (step_generator (step attempt reply f t g))
  = total_requests g + 1.
Proof. step_cases; reflexivity. Qed.

Lemma attempt_once_counters attempt reply f t g :
  log_interval generation <> 0 ->
  match step attempt reply f t g with
  | Returned g' (Some _) =>
      routes_generated g' = routes_generated g + 1
      /\ routes_failed g' = routes_failed g
  | Returned g' None =>
      routes_generated g' = routes_generated g
      /\ routes_failed g' = routes_failed g + 1
  | NextAttempt g' =>
      routes_generated g' = routes_generated g
      /\ routes_failed g' = routes_failed g
      /\ attempt < max_retries valhalla
  end.
Proof.
  intros Hlog. step_cases; try (split; [|try split]; try reflexivity; try lia).
Qed.

Lemma transient_step attempt reply f t g :
  transient_error reply -> attempt < max_retries valhalla ->
  step attempt reply f t g = NextAttempt (retried f t g).
Proof.
  intros Ht Hlt. apply Z.ltb_lt in Hlt.
  destruct Ht as [n m | status body Hs Hne].
  - unfold attempt_once, try_body. simpl. rewrite Hlt. reflexivity.
  - unfold attempt_once, try_body. rewrite Hs.
    apply Z.eqb_neq in Hne. rewrite Hne, Hlt. reflexivity.
Qed.

Lemma definitive_step attempt reply f t g :
  definitive_failure reply ->
  exists g', step attempt reply f t g = Returned g' None.
Proof.
  intros [body | status Hs].
  - eexists. reflexivity.
  - eexists. unfold attempt_once, try_body. rewrite Hs. reflexivity.
Qed.

Lemma iter_after_retry_requests n f t g :
  total_requests (Nat.iter n (retried f t) g) = total_requests g + Z.of_nat n.
Proof.
  induction n as [|n IH]; [simpl; lia|].
  rewrite Nat2Z.inj_succ. simpl. rewrite IH. lia.
Qed.

Lemma iter_after_retry_counters n f t g :
  routes_generated (Nat.iter n (retried f t) g) = routes_generated g
  /\ routes_failed (Nat.iter n (retried f t) g) = routes_failed g
  /\ failed_routes (Nat.iter n (retried f t) g) = failed_routes g.
Proof. induction n as [|n IH]; [auto|]. simpl. exact IH. Qed.

Lemma effects_after_retry f t g :
  effects (retried f t g)
  = effects g ++ [EvPost (request f t);
                  EvSleep (retry_delay_seconds valhalla)].
Proof. simpl. rewrite <- app_assoc. reflexivity. Qed.

Lemma iter_after_retry_effects n f t g :
  effects (Nat.iter n (retried f t) g)
  = effects g ++ retried_effects valhalla generation f t n.
Proof.
  unfold retried_effects.
  induction n as [|n IH].
  - simpl. rewrite app_nil_r. reflexivity.
  - change (Nat.iter (S n) (retried f t) g)
      with (retried f t (Nat.iter n (retried f t) g)).
    rewrite effects_after_retry, IH, <- app_assoc. f_equal.
    change (repeat ?x (S n)) with (x :: repeat x n).
    rewrite repeat_cons, concat_app. simpl. reflexivity.
Qed.

Lemma retry_loop_skip replies f t n :
  forall remaining attempt g,
    (forall j, attempt <= j < attempt + Z.of_nat n ->
               transient_error (replies j)) ->
    attempt + Z.of_nat n <= max_retries valhalla ->
    loop (n + remaining) attempt replies f t g
    = loop remaining (attempt + Z.of_nat n) replies f t
        (Nat.iter n (retried f t) g).
Proof.
  induction n as [|n IH]; intros remaining attempt g Ht Hle.
  - simpl. rewrite Z.add_0_r. reflexivity.
  - change (S n + remaining)%nat with (S (n + remaining)).
    cbn [retry_loop].
    rewrite transient_step by (try apply Ht; lia).
    rewrite IH by (try (intros j Hj; apply Ht); lia).
    rewrite Nat.iter_succ_r. f_equal. lia.
Qed.

Lemma retry_loop_requests_bounds replies f t remaining :
  forall attempt g,
    total_requests g + Z.min 1 (Z.of_nat remaining)
    <= total_requests (fst (loop remaining attempt replies f t g))
    <= total_requests g + Z.of_nat remaining.
Proof.
  induction remaining as [|remaining IH]; intros attempt g.
  - simpl. lia.
  - cbn [retry_loop].
    pose proof (attempt_once_requests attempt (replies attempt) f t g) as Hreq.
    destruct (step attempt (replies attempt) f t g) as [g1 r|g1];
      simpl in Hreq.
    + simpl. lia.
    + specialize (IH (attempt + 1) g1). lia.
Qed.

Lemma retry_loop_stops_at_definitive replies f t k remaining :
  definitive_failure (replies k) ->
  forall attempt g,
    attempt <= k ->
    total_requests (fst (loop remaining attempt replies f t g))
    <= total_requests g + (k - attempt + 1).
Proof.
  intros Hdef.
  induction remaining as [|remaining IH]; intros attempt g Hle.
  - simpl. lia.
  - cbn [retry_loop].
    pose proof (attempt_once_requests attempt (replies attempt) f t g) as Hreq.
    destruct (step attempt (replies attempt) f t g) as [g1 r|g1] eqn:E;
      simpl in Hreq.
    + simpl. lia.
    + assert (attempt <> k) as Hne.
      { intros ->. destruct (definitive_step k (replies k) f t g Hdef) as [g2 E2].
        congruence. }
      specialize (IH (attempt + 1) g1). lia.
Qed.

Lemma retry_loop_counters replies f t remaining :
  log_interval generation <> 0 ->
  forall attempt g,
    (0 < remaining)%nat ->
    attempt + Z.of_nat remaining = max_retries valhalla + 1 ->
    match loop remaining attempt replies f t g with
    | (g', Some _) =>
        routes_generated g' = routes_generated g + 1
        /\ routes_failed g' = routes_failed g
    | (g', None) =>
        routes_generated g' = routes_generated g
        /\ routes_failed g' = routes_failed g + 1
    end.
Proof.
  intros Hlog.
  induction remaining as [|remaining IH]; intros attempt g Hpos Hsum; [lia|].
  cbn [retry_loop].
  pose proof (attempt_once_counters attempt (replies attempt) f t g Hlog) as Hc.
  destruct (step attempt (replies attempt) f t g) as [g1 r|g1].
  - exact Hc.
  - destruct Hc as (Hg & Hf & Hlt).
    specialize (IH (attempt + 1) g1).
    rewrite Hg, Hf in IH. apply IH; lia.
Qed.

Lemma generate_route_after_retries replies f t g k :
  1 <= k <= max_retries valhalla ->
  (forall j, 1 <= j < k -> transient_error (replies j)) ->
  generate replies f t g
  = match step k (replies k) f t
            (Nat.iter (Z.to_nat (k - 1)) (retried f t) g) with
    | Returned g' route => (g', route)
    | NextAttempt g' =>
        loop (Z.to_nat (max_retries valhalla - k)) (k + 1) replies f t g'
    end.
Proof.
  intros Hk Ht. unfold generate_route.
  replace (Z.to_nat (max_retries valhalla))
    with (Z.to_nat (k - 1) + S (Z.to_nat (max_retries valhalla - k)))%nat by lia.
  rewrite retry_loop_skip by (try (intros j Hj; apply Ht); lia).
  replace (1 + Z.of_nat (Z.to_nat (k - 1))) with k by lia.
  reflexivity.
Qed.


Lemma new_RouteGeometry_ok key dep ret poly dist dur geom :
  new_RouteGeometry key dep ret poly dist dur = Ok geom ->
  geom = mkRouteGeometry key dep ret poly dist dur.
Proof.
  unfold new_RouteGeometry.
  destruct (String.eqb poly ""); [discriminate|].
  destruct (Qlt_bool dist 0); [discriminate|].
  destruct (Qlt_bool dur 0); [discriminate|].
  congruence.
Qed.

Lemma attempt_once_some attempt reply f t g g' geom :
  step attempt reply f t g = Returned g' (Some geom) ->
  g_route_key geom = canonical_key (station_id f) (station_id t)
  /\ g_departure_station_id geom = station_id f
  /\ g_return_station_id geom = station_id t.
Proof.
  revert g' geom. step_cases; intros g' geom H; try discriminate.
  inversion H; subst.
  match goal with
  | E : new_RouteGeometry _ _ _ _ _ _ = Ok _ |- _ =>
      apply new_RouteGeometry_ok in E; subst
  end.
  simpl. auto.
Qed.

Lemma retry_loop_some replies f t remaining :
  forall attempt g g' geom,
    loop remaining attempt replies f t g = (g', Some geom) ->
    g_route_key geom = canonical_key (station_id f) (station_id t)
    /\ g_departure_station_id geom = station_id f
    /\ g_return_station_id geom = station_id t.
Proof.
  induction remaining as [|remaining IH]; intros attempt g g' geom H.
  - discriminate.
  - cbn [retry_loop] in H.
    destruct (step attempt (replies attempt) f t g) as [g1 r|g1] eqn:E.
    + inversion H; subst. eapply attempt_once_some; eassumption.
    + eapply IH; eassumption.
Qed.


Lemma generate_route_counters replies f t g :
  log_interval generation <> 0 -> 1 <= max_retries valhalla ->
  match generate replies f t g with
  | (g', Some _) =>
      routes_generated g' = routes_generated g + 1
      /\ routes_failed g' = routes_failed g
  | (g', None) =>
      routes_generated g' = routes_generated g
      /\ routes_failed g' = routes_failed g + 1
  end.
Proof.
  intros Hlog Hmax. unfold generate_route.
  apply retry_loop_counters; [assumption | lia | lia].
Qed.

Lemma generate_route_requests replies f t g :
  1 <= max_retries valhalla ->
  total_requests g + 1
  <= total_requests (fst (generate replies f t g))
  <= total_requests g + max_retries valhalla.
Proof.
  intros Hmax. unfold generate_route.
  pose proof (retry_loop_requests_bounds replies f t
                (Z.to_nat (max_retries valhalla)) 1 g).
  lia.
Qed.

Lemma batch_loop_accounting replies :
  log_interval generation <> 0 -> 1 <= max_retries valhalla ->
  forall station_pairs i g routes,
    let out := batch_loop valhalla generation polyline_roundtrip
                 i replies station_pairs g routes in
    routes_generated (fst out) + routes_failed (fst out)
    = routes_generated g + routes_failed g + Z.of_nat (length station_pairs)
    /\ Z.of_nat (length (snd out))
       = Z.of_nat (length routes)
         + (routes_generated (fst out) - routes_generated g)
    /\ total_requests g + Z.of_nat (length station_pairs)
       <= total_requests (fst out)
       <= total_requests g
          + max_retries valhalla * Z.of_nat (length station_pairs).
Proof.
  intros Hlog Hmax.
  induction station_pairs as [|[f t] rest IH]; intros i g routes.
  - simpl. lia.
  - cbn [batch_loop].
    pose proof (generate_route_counters (replies i) f t g Hlog Hmax) as Hc.
    pose proof (generate_route_requests (replies i) f t g Hmax) as Hr.
    destruct (generate (replies i) f t g) as [g1 [r|]]; simpl in Hr;
      destruct Hc as [Hg Hf];
      match goal with
      | |- context [batch_loop _ _ _ ?j _ _ ?h ?rs] =>
          specialize (IH j h rs); cbv zeta in IH; destruct IH as (I1 & I2 & I3)
      end;
      cbv zeta; cbn [length]; rewrite ?length_app in *; cbn [length] in *;
      repeat split; nia.
Qed.

End GeneratorProperties.

(** ** Accounting of calls *)

(** C10, amended.  With [max_retries >= 1] and a non-zero
    [log_interval], a call of [generate_route] adds one to exactly one
    of [routes_generated] and [routes_failed] (to the former exactly
    when it returns a route) and between 1 and [max_retries] to
    [total_requests]; over a batch the two outcome counters together
    grow by the number of pairs, which is at most the growth of
    [total_requests], and the list returned is as long as the growth of
    [routes_generated]. *)
Theorem counters_account_for_every_call
    (valhalla : ValhallaConfig) (generation : GenerationConfig)
    (polyline_roundtrip : string -> option string) :
  1 <= max_retries valhalla ->
  log_interval generation <> 0 ->
  (forall replies f t g,
     let out := generate_route valhalla generation polyline_roundtrip
                  replies f t g in
     one_counter_per_call valhalla generation polyline_roundtrip replies f t g
     /\ (snd out <> None <-> routes_generated (fst out) = routes_generated g + 1)
     /\ total_requests g + 1 <= total_requests (fst out)
        <= total_requests g + max_retries valhalla)
  /\ (forall replies station_pairs g,
        let out := generate_batch valhalla generation polyline_roundtrip
                     replies station_pairs g in
        routes_generated (fst out) + routes_failed (fst out)
        = routes_generated g + routes_failed g + Z.of_nat (length station_pairs)
        /\ Z.of_nat (length station_pairs)
           <= total_requests (fst out) - total_requests g
        /\ Z.of_nat (length (snd out))
           = routes_generated (fst out) - routes_generated g)
  /\ (forall replies station_pairs,
        let g := fst (generate_batch valhalla generation polyline_roundtrip
                        replies station_pairs new_Generator) in
        routes_generated g + routes_failed g = Z.of_nat (length station_pairs)
        /\ routes_generated g + routes_failed g <= total_requests g).
Proof.
  intros Hmax Hlog. split; [|split].
  - intros replies f t g out. subst out. unfold one_counter_per_call.
    pose proof (generate_route_counters valhalla generation polyline_roundtrip
                  replies f t g Hlog Hmax) as Hc.
    pose proof (generate_route_requests valhalla generation polyline_roundtrip
                  replies f t g Hmax) as Hr.
    destruct (generate_route valhalla generation polyline_roundtrip replies f t g)
      as [g' [r|]]; simpl in *; destruct Hc as [Hg Hf].
    + split; [left; split; assumption|]. split; [|exact Hr].
      split; [intros _; exact Hg | intros _; discriminate].
    + split; [right; split; assumption|]. split; [|exact Hr].
      split; [intros H; congruence | intros H; lia].
  - intros replies station_pairs g out. subst out. unfold generate_batch.
    pose proof (batch_loop_accounting valhalla generation polyline_roundtrip
                  replies Hlog Hmax station_pairs 1 g []) as H.
    cbv zeta in H. destruct H as (H1 & H2 & H3).
    simpl length in H2. repeat split; lia.
  - intros replies station_pairs g. subst g. unfold generate_batch.
    pose proof (batch_loop_accounting valhalla generation polyline_roundtrip
                  replies Hlog Hmax station_pairs 1 new_Generator []) as H.
    cbv zeta in H. destruct H as (H1 & H2 & H3).
    simpl in H1, H3. split; lia.
Qed.

Lemma counters_account_for_every_call_witness :
  1 <= max_retries default_valhalla
  /\ log_interval default_generation <> 0
  /\ one_counter_per_call default_valhalla default_generation keep_encoding
       (always timed_out) station_030 station_067 new_Generator.
Proof.
  assert (1 <= max_retries default_valhalla) as Hmax by (simpl; lia).
  assert (log_interval default_generation <> 0) as Hlog by (simpl; lia).
  split; [exact Hmax|]. split; [exact Hlog|].
  exact (proj1 (proj1 (counters_account_for_every_call
                         default_valhalla default_generation keep_encoding
                         Hmax Hlog)
                  (always timed_out) station_030 station_067 new_Generator)).
Defined.

(** C10 as stated fails when [log_interval] is 0: the route is counted
    as generated, the progress test [routes_generated % log_interval]
    raises, and the handler counts the same call as failed. *)
Lemma both_counters_move_when_log_interval_is_zero :
  1 <= max_retries default_valhalla
  /\ ~ one_counter_per_call default_valhalla generation_without_logging keep_encoding
         (always (Response 200 (BodyTrip [a_leg])))
         station_030 station_067 new_Generator.
Proof.
  split; [simpl; lia|].
  unfold one_counter_per_call. vm_compute.
  intros [[_ H]|[H _]]; discriminate.
Qed.

(** ** The failure ledger *)

(** C5 at its failing inputs.  A response without legs, and an error
    status other than 400 on every attempt, each count the pair as
    failed and leave [failed_routes] empty. *)
Theorem unrecorded_failures :
  (let out := generate_batch default_valhalla default_generation keep_encoding
                (fun _ => always (Response 200 (BodyTrip [])))
                [(station_030, station_067)] new_Generator in
   snd out = [] /\ routes_failed (fst out) = 1 /\ total_requests (fst out) = 1
   /\ failed_routes (fst out) = [])
  /\ (let out := generate_batch default_valhalla default_generation keep_encoding
                   (fun _ => always (Response 503 (BodyInvalidJson "")))
                   [(station_030, station_067)] new_Generator in
      snd out = [] /\ routes_failed (fst out) = 1 /\ total_requests (fst out) = 3
      /\ failed_routes (fst out) = []).
Proof. split; vm_compute; repeat split. Qed.

(** The sibling paths do record the pair. *)
Lemma recorded_failures :
  failed_routes
    (fst (generate_batch default_valhalla default_generation keep_encoding
            (fun _ => always (Response 400 (BodyInvalidJson "")))
            [(station_030, station_067)] new_Generator))
  = [mkFailedRoute "030" "067" "Route not possible (HTTP 400)" "HTTPError"]
  /\ failed_routes
       (fst (generate_batch default_valhalla default_generation keep_encoding
               (fun _ => always timed_out)
               [(station_030, station_067)] new_Generator))
     = [mkFailedRoute "030" "067" "Read timed out." "ReadTimeout"].
Proof. split; reflexivity. Qed.

(** ** Witnesses for the generator *)



(** ** Deduplication of the two directions *)

Lemma bearing_app k l1 l2 : bearing k (l1 ++ l2) = bearing k l1 ++ bearing k l2.
Proof. apply List.filter_app. Qed.

Lemma bearing_one_eq r : bearing (route_key r) [r] = [r].
Proof. unfold bearing. simpl. rewrite String.eqb_refl. reflexivity. Qed.

Lemma bearing_one_ne k r : route_key r <> k -> bearing k [r] = [].
Proof.
  intros H. unfold bearing. simpl.
  destruct (String.eqb_spec (route_key r) k); [contradiction | reflexivity].
Qed.

Lemma bearing_none k l :
  Forall (fun r => route_key r <> k) l -> bearing k l = [].
Proof.
  induction 1 as [|r l Hr _ IH]; [reflexivity|].
  change (r :: l) with ([r] ++ l). rewrite bearing_app, IH, bearing_one_ne; auto.
Qed.

Lemma dedup_inv_step prefix seen unique rmap r :
  dedup_inv prefix seen unique rmap ->
  match seen !! route_key r with
  | None =>
      dedup_inv (prefix ++ [r]) (<[route_key r := r]> seen) (unique ++ [r]) rmap
  | Some _ =>
      dedup_inv (prefix ++ [r]) seen unique (<[route_key r := r]> rmap)
  end.
Proof.
  intros [Hseen Huniq Hsub Hrmap].
  destruct (seen !! route_key r) as [x|] eqn:E.
  - rewrite Hseen in E.
    destruct (bearing (route_key r) prefix) as [|y tl] eqn:Eb; [discriminate|].
    split.
    + intros k. rewrite Hseen, bearing_app.
      destruct (bearing k prefix) eqn:Ek; [|reflexivity].
      destruct (String.eqb_spec (route_key r) k) as [<-|Hne]; [congruence|].
      rewrite bearing_one_ne by assumption. reflexivity.
    + intros k. rewrite Huniq, bearing_app.
      destruct (bearing k prefix) eqn:Ek; [|reflexivity].
      destruct (String.eqb_spec (route_key r) k) as [<-|Hne]; [congruence|].
      rewrite bearing_one_ne by assumption. reflexivity.
    + apply sublist_inserts_r. assumption.
    + intros k. rewrite bearing_app.
      destruct (String.eqb_spec (route_key r) k) as [<-|Hne].
      * rewrite lookup_insert_eq, Eb, bearing_one_eq. simpl.
        rewrite last_snoc. reflexivity.
      * rewrite lookup_insert_ne by assumption.
        rewrite bearing_one_ne, app_nil_r by assumption. apply Hrmap.
  - rewrite Hseen in E.
    destruct (bearing (route_key r) prefix) as [|y tl] eqn:Eb; [|discriminate].
    split.
    + intros k. rewrite bearing_app.
      destruct (String.eqb_spec (route_key r) k) as [<-|Hne].
      * rewrite lookup_insert_eq, Eb, bearing_one_eq. reflexivity.
      * rewrite lookup_insert_ne by assumption.
        rewrite bearing_one_ne, app_nil_r by assumption. apply Hseen.
    + intros k. rewrite !bearing_app, Huniq.
      destruct (String.eqb_spec (route_key r) k) as [<-|Hne].
      * rewrite Eb, bearing_one_eq. reflexivity.
      * rewrite bearing_one_ne, !app_nil_r by assumption. reflexivity.
    + apply sublist_app; [assumption | reflexivity].
    + intros k. rewrite Hrmap, bearing_app.
      destruct (String.eqb_spec (route_key r) k) as [<-|Hne].
      * rewrite Eb, bearing_one_eq. reflexivity.
      * rewrite bearing_one_ne, app_nil_r by assumption. reflexivity.
Qed.

Lemma dedup_loop_inv routes :
  forall prefix seen unique rmap,
    dedup_inv prefix seen unique rmap ->
    exists seen',
      dedup_inv (prefix ++ routes) seen'
        (fst (dedup_loop routes seen unique rmap))
        (snd (dedup_loop routes seen unique rmap)).
Proof.
  induction routes as [|r routes IH]; intros prefix seen unique rmap Hinv.
  - exists seen. rewrite app_nil_r. exact Hinv.
  - pose proof (dedup_inv_step _ _ _ _ r Hinv) as Hstep.
    cbn [dedup_loop].
    replace (prefix ++ r :: routes) with ((prefix ++ [r]) ++ routes)
      by (rewrite <- app_assoc; reflexivity).
    destruct (seen !! route_key r); apply IH; exact Hstep.
Qed.

Lemma deduplicate_inv routes :
  exists seen,
    dedup_inv routes seen (fst (deduplicate_bidirectional routes))
      (snd (deduplicate_bidirectional routes)).
Proof.
  unfold deduplicate_bidirectional.
  apply (dedup_loop_inv routes [] ∅ [] ∅).
  split; intros; try rewrite lookup_empty; try reflexivity.
Qed.

Lemma find_bearing k l :
  List.find (fun r => String.eqb (route_key r) k) l = head (bearing k l).
Proof.
  induction l as [|r l IH]; [reflexivity|].
  unfold bearing in *. simpl.
  destruct (String.eqb (route_key r) k); [reflexivity | exact IH].
Qed.

Lemma bearing_In k l r : In r (bearing k l) <-> In r l /\ route_key r = k.
Proof.
  unfold bearing. rewrite List.filter_In.
  split; intros [H1 H2]; (split; [exact H1|]).
  - apply String.eqb_eq. exact H2.
  - apply String.eqb_eq. exact H2.
Qed.

Lemma NoDup_keys_of_bearing l :
  (forall k, (length (bearing k l) <= 1)%nat) -> List.NoDup (map route_key l).
Proof.
  induction l as [|r l IH]; intros H; [constructor|].
  simpl. constructor.
  - intros Hin. apply in_map_iff in Hin. destruct Hin as (x & Hk & Hx).
    specialize (H (route_key r)).
    change (r :: l) with ([r] ++ l) in H.
    rewrite bearing_app, bearing_one_eq in H. simpl in H.
    assert (In x (bearing (route_key r) l)) as Hb by (apply bearing_In; auto).
    destruct (bearing (route_key r) l); [contradiction | simpl in H; lia].
  - apply IH. intros k. specialize (H k).
    change (r :: l) with ([r] ++ l) in H.
    rewrite bearing_app, length_app in H. lia.
Qed.

(** C2, amended.  The output sequence is a subsequence of the input,
    hence no longer; it holds one pair per canonical key, the first
    pair of the input bearing that key; the reverse map holds, for a
    key borne by several pairs, the last of them.  So when two pairs
    with swapped endpoints are the only ones bearing their key, the
    earlier is the representative, the later is the reverse record,
    and the later is not in the output sequence. *)
Theorem deduplicate_keeps_first_and_records_last (P : list RouteStatistics) :
  let unique := fst (deduplicate_bidirectional P) in
  let reverse_map := snd (deduplicate_bidirectional P) in
  (length unique <= length P)%nat
  /\ sublist unique P
  /\ List.NoDup (map route_key unique)
  /\ (forall k,
        List.find (fun r => String.eqb (route_key r) k) unique
        = List.find (fun r => String.eqb (route_key r) k) P)
  /\ (forall k, reverse_map !! k = last (tail (bearing k P)))
  /\ (forall before a between b after,
        P = before ++ a :: between ++ b :: after ->
        departure_station_id a = return_station_id b ->
        return_station_id a = departure_station_id b ->
        Forall (fun r => route_key r <> route_key a)
          (before ++ between ++ after) ->
        In a unique
        /\ (forall u, In u unique -> route_key u = route_key a -> u = a)
        /\ (a <> b -> ~ In b unique)
        /\ reverse_map !! route_key a = Some b).
Proof.
  intros unique reverse_map.
  destruct (deduplicate_inv P) as [seen [Hseen Huniq Hsub Hrmap]].
  fold unique in Huniq, Hsub. fold reverse_map in Hrmap.
  split; [apply sublist_length; exact Hsub|].
  split; [exact Hsub|].
  split.
  { apply NoDup_keys_of_bearing. intros k. rewrite Huniq, length_take. lia. }
  split.
  { intros k. rewrite !find_bearing, Huniq.
    destruct (bearing k P); reflexivity. }
  split; [exact Hrmap|].
  intros before a between b after HP Hab Hba Hothers.
  assert (route_key b = route_key a) as Hkey.
  { unfold route_key. rewrite Hab, Hba. apply canonical_key_sym. }
  apply Forall_app in Hothers. destruct Hothers as [Hbefore Hothers].
  apply Forall_app in Hothers. destruct Hothers as [Hbetween Hafter].
  assert (bearing (route_key a) P = [a; b]) as Hbear.
  { rewrite HP.
    change (a :: between ++ b :: after)
      with ([a] ++ between ++ [b] ++ after).
    rewrite !bearing_app.
    rewrite (bearing_none _ before), (bearing_none _ between),
      (bearing_none _ after) by assumption.
    rewrite bearing_one_eq.
    replace (bearing (route_key a) [b]) with [b]
      by (rewrite <- Hkey; symmetry; apply bearing_one_eq).
    reflexivity. }
  assert (bearing (route_key a) unique = [a]) as Hone.
  { rewrite Huniq, Hbear. reflexivity. }
  assert (forall u, In u unique -> route_key u = route_key a -> u = a) as Honly.
  { intros u Hu Hk.
    assert (In u (bearing (route_key a) unique)) as Hin
      by (apply bearing_In; auto).
    rewrite Hone in Hin. destruct Hin as [<-|[]]. reflexivity. }
  split.
  { assert (In a (bearing (route_key a) unique)) as Hin
      by (rewrite Hone; left; reflexivity).
    apply bearing_In in Hin. apply Hin. }
  split; [exact Honly|].
  split.
  { intros Hne Hin. apply Hne. symmetry. apply Honly; assumption. }
  rewrite Hrmap, Hbear. reflexivity.
Qed.

Lemma deduplicate_keeps_first_and_records_last_witness :
  let P := [stats_030_067; stats_067_030; stats_030_045] in
  In stats_030_067 (fst (deduplicate_bidirectional P))
  /\ ~ In stats_067_030 (fst (deduplicate_bidirectional P))
  /\ snd (deduplicate_bidirectional P) !! "030-067" = Some stats_067_030.
Proof.
  intros P.
  destruct (deduplicate_keeps_first_and_records_last P)
    as (_ & _ & _ & _ & _ & H).
  destruct (H [] stats_030_067 [] stats_067_030 [stats_030_045])
    as (Ha & _ & Hb & Hr).
  - reflexivity.
  - reflexivity.
  - reflexivity.
  - repeat constructor; vm_compute; discriminate.
  - split; [exact Ha|]. split; [|exact Hr].
    apply Hb. vm_compute. discriminate.
Defined.

(** C2 as stated fails on a list with a third pair under the key: the
    reverse record is the last pair, not the second. *)
Lemma third_pair_takes_the_reverse_slot :
  ~ swapped_pairs_are_split [stats_030_067; stats_067_030; stats_067_030_again].
Proof.
  intros H.
  specialize (H stats_030_067 stats_067_030).
  destruct H as [(_ & _ & H)|(H & _)].
  - left. reflexivity.
  - right. left. reflexivity.
  - reflexivity.
  - reflexivity.
  - vm_compute in H. discriminate.
  - vm_compute in H. destruct H as [H|[]]. discriminate.
Qed.

(** ** Organizing geometries by station *)

Lemma new_RouteGeometry_valid route :
  valid_geometry route ->
  forall dep ret,
    new_RouteGeometry (g_route_key route) dep ret (polyline route)
      (distance_km route) (duration_minutes route)
    = Ok (mkRouteGeometry (g_route_key route) dep ret (polyline route)
            (distance_km route) (duration_minutes route)).
Proof.
  intros (Hp & Hd & Ht) dep ret. unfold new_RouteGeometry.
  destruct (String.eqb_spec (polyline route) ""); [contradiction|].
  apply Qlt_bool_false_iff in Hd. apply Qlt_bool_false_iff in Ht.
  rewrite Hd, Ht. reflexivity.
Qed.

Lemma dict_append_lookup {A} (m : gmap string (list A)) key x s :
  default [] (dict_append m key x !! s)
  = default [] (m !! s) ++ (if String.eqb key s then [x] else []).
Proof.
  unfold dict_append.
  destruct (String.eqb_spec key s) as [->|Hne].
  - rewrite lookup_insert_eq. reflexivity.
  - rewrite lookup_insert_ne by assumption. rewrite app_nil_r. reflexivity.
Qed.

Lemma dict_append_None {A} (m : gmap string (list A)) key x s :
  dict_append m key x !! s = None <-> m !! s = None /\ key <> s.
Proof.
  unfold dict_append.
  destruct (String.eqb_spec key s) as [->|Hne].
  - rewrite lookup_insert_eq. split; [discriminate | intros [_ H]; congruence].
  - rewrite lookup_insert_ne by assumption. tauto.
Qed.

Lemma organize_step_spec bm m route :
  valid_geometry route ->
  exists m',
    organize_step bm m route = Ok m'
    /\ (forall s, default [] (m' !! s) = default [] (m !! s) ++ emitted bm s route)
    /\ (forall s, m' !! s = None <-> m !! s = None /\ emitted bm s route = []).
Proof.
  intros Hv. unfold organize_step, emitted.
  destruct (bm !! g_route_key route) as [st|].
  - rewrite (new_RouteGeometry_valid route Hv). simpl.
    eexists. split; [reflexivity|]. split.
    + intros s. rewrite !dict_append_lookup, <- app_assoc. reflexivity.
    + intros s. rewrite !dict_append_None.
      destruct (String.eqb_spec (g_departure_station_id route) s);
        destruct (String.eqb_spec (departure_station_id st) s);
        simpl; split; intros H; try tauto;
        try (destruct H as [[? ?] ?]; tauto);
        try (destruct H as [_ H]; discriminate).
  - eexists. split; [reflexivity|]. split.
    + intros s. rewrite dict_append_lookup, app_nil_r. reflexivity.
    + intros s. rewrite dict_append_None, app_nil_r.
      destruct (String.eqb_spec (g_departure_station_id route) s);
        split; intros H; try tauto;
        try (destruct H as [_ H]; discriminate).
Qed.

Lemma organize_loop_spec bm routes :
  Forall valid_geometry routes ->
  forall m,
  exists m',
    organize_loop routes bm m = Ok m'
    /\ (forall s, default [] (m' !! s)
                  = default [] (m !! s) ++ flat_map (emitted bm s) routes)
    /\ (forall s, m' !! s = None
                  <-> m !! s = None /\ flat_map (emitted bm s) routes = []).
Proof.
  induction 1 as [|route routes Hv _ IH]; intros m.
  - exists m. simpl. split; [reflexivity|]. split.
    + intros s. rewrite app_nil_r. reflexivity.
    + intros s. tauto.
  - destruct (organize_step_spec bm m route Hv) as (m1 & E1 & L1 & N1).
    destruct (IH m1) as (m2 & E2 & L2 & N2).
    exists m2. cbn [organize_loop]. rewrite E1. simpl. split; [exact E2|]. split.
    + intros s. rewrite L2, L1, <- app_assoc. reflexivity.
    + intros s. rewrite N2, N1. split.
      * intros [[Hm He] Hf]. split; [exact Hm|]. rewrite He, Hf. reflexivity.
      * intros [Hm Hf]. apply app_eq_nil in Hf. tauto.
Qed.

Lemma emitted_forward bm route :
  In route (emitted bm (g_departure_station_id route) route).
Proof.
  unfold emitted. rewrite String.eqb_refl. left. reflexivity.
Qed.

Lemma emitted_reverse bm route st :
  bm !! g_route_key route = Some st ->
  In (reverse_of route st) (emitted bm (departure_station_id st) route).
Proof.
  intros H. unfold emitted. rewrite H, String.eqb_refl.
  apply in_or_app. right. left. reflexivity.
Qed.

Lemma emitted_origin bm s route x :
  In x (emitted bm s route) ->
  (x = route /\ g_departure_station_id route = s)
  \/ (exists st, bm !! g_route_key route = Some st
                 /\ departure_station_id st = s /\ x = reverse_of route st).
Proof.
  unfold emitted. intros H. apply in_app_or in H. destruct H as [H|H].
  - destruct (String.eqb_spec (g_departure_station_id route) s); [|contradiction].
    destruct H as [<-|[]]. left. auto.
  - destruct (bm !! g_route_key route) as [st|]; [|contradiction].
    destruct (String.eqb_spec (departure_station_id st) s); [|contradiction].
    destruct H as [<-|[]]. right. exists st. auto.
Qed.

Lemma direction_by_identifier_order route :
  direction (station_entry route)
  = if (g_return_station_id route <? g_departure_station_id route)%string
    then "reverse" else "forward".
Proof.
  unfold station_entry, is_reverse, py_min. simpl.
  destruct (g_return_station_id route <? g_departure_station_id route)%string eqn:E.
  - destruct (String.eqb_spec (g_departure_station_id route)
                (g_return_station_id route)) as [Heq|Hne]; [|reflexivity].
    rewrite Heq, string_ltb_irrefl in E. discriminate.
  - rewrite String.eqb_refl. reflexivity.
Qed.

Lemma write_station_routes_lookup station_routes bm per_station_filter s :
  write_station_routes station_routes bm per_station_filter !! s
  = station_file per_station_filter s <$> station_routes !! s.
Proof.
  unfold write_station_routes. rewrite map_lookup_imap.
  destruct (station_routes !! s); reflexivity.
Qed.

(** C6, amended.  For valid geometries [organize_by_station] returns a
    mapping in which the list of a station is, geometry by geometry in
    input order, the geometry itself when it departs from that station
    (the forward entry), followed, when the reverse map has a record
    under the geometry's key and that record departs from that station,
    by one more entry with the geometry's key, polyline, distance and
    duration and the record's departure and return identifiers.
    Nothing else is emitted, so a station that is neither the departure
    of a geometry nor the departure of such a record has no list.  In
    the station files an entry is tagged by the order of its
    identifiers: "reverse" when its departure identifier sorts after
    its return identifier, "forward" otherwise.  Hence the entry for a
    reverse record with swapped identifiers is tagged "reverse" exactly
    when the geometry departs from the smaller identifier. *)
Theorem organize_by_station_entries
    (routes : list RouteGeometry)
    (bidirectional_map : gmap string RouteStatistics) :
  Forall valid_geometry routes ->
  exists station_routes,
    organize_by_station routes bidirectional_map = Ok station_routes
    /\ (forall s, default [] (station_routes !! s)
                  = flat_map (emitted bidirectional_map s) routes)
    /\ (forall route,
          In route routes ->
          In route (default [] (station_routes !! g_departure_station_id route)))
    /\ (forall route st,
          In route routes ->
          bidirectional_map !! g_route_key route = Some st ->
          In (reverse_of route st)
            (default [] (station_routes !! departure_station_id st)))
    /\ (forall s x,
          In x (default [] (station_routes !! s)) ->
          (In x routes /\ g_departure_station_id x = s)
          \/ (exists route st,
                In route routes
                /\ bidirectional_map !! g_route_key route = Some st
                /\ departure_station_id st = s
                /\ x = reverse_of route st))
    /\ (forall s,
          (forall route, In route routes ->
             g_departure_station_id route <> s
             /\ forall st, bidirectional_map !! g_route_key route = Some st ->
                           departure_station_id st <> s) ->
          station_routes !! s = None)
    /\ (forall s per_station_filter,
          write_station_routes station_routes bidirectional_map per_station_filter
            !! s
          = station_file per_station_filter s <$> station_routes !! s)
    /\ (forall route,
          direction (station_entry route)
          = if (g_return_station_id route <? g_departure_station_id route)%string
            then "reverse" else "forward")
    /\ (forall route st,
          departure_station_id st = g_return_station_id route ->
          return_station_id st = g_departure_station_id route ->
          (direction (station_entry (reverse_of route st)) = "reverse"
           <-> (g_departure_station_id route <? g_return_station_id route)%string
               = true)).
Proof.
  intros Hv. unfold organize_by_station.
  destruct (organize_loop_spec bidirectional_map routes Hv ∅)
    as (m & Hrun & Hlist & Hnone).
  assert (forall s, default [] (m !! s)
                    = flat_map (emitted bidirectional_map s) routes) as Hflat.
  { intros s. rewrite Hlist, lookup_empty. reflexivity. }
  exists m. split; [exact Hrun|]. split; [exact Hflat|].
  split; [|split; [|split; [|split; [|split; [|split]]]]].
  - intros route Hin. rewrite Hflat. apply in_flat_map.
    exists route. split; [exact Hin | apply emitted_forward].
  - intros route st Hin Hst. rewrite Hflat. apply in_flat_map.
    exists route. split; [exact Hin | apply emitted_reverse; exact Hst].
  - intros s x Hx. rewrite Hflat in Hx. apply in_flat_map in Hx.
    destruct Hx as (route & Hin & Hem).
    apply emitted_origin in Hem.
    destruct Hem as [[-> Hs]|(st & Hst & Hs & ->)].
    + left. auto.
    + right. exists route, st. auto.
  - intros s Hs. apply Hnone. split; [apply lookup_empty|].
    destruct (flat_map (emitted bidirectional_map s) routes) as [|x l] eqn:E;
      [reflexivity|].
    assert (In x (flat_map (emitted bidirectional_map s) routes)) as Hx
      by (rewrite E; left; reflexivity).
    apply in_flat_map in Hx. destruct Hx as (route & Hin & Hem).
    destruct (Hs route Hin) as [Hdep Hrev].
    apply emitted_origin in Hem.
    destruct Hem as [[_ Hd]|(st & Hst & Hd & _)];
      [contradiction | exfalso; exact (Hrev st Hst Hd)].
  - intros s f. apply write_station_routes_lookup.
  - apply direction_by_identifier_order.
  - intros route st Hd Hr. rewrite direction_by_identifier_order. simpl.
    rewrite Hd, Hr.
    destruct (g_departure_station_id route <? g_return_station_id route)%string;
      split; intros H; try reflexivity; discriminate.
Qed.

Lemma organize_by_station_entries_witness :
  Forall valid_geometry [geometry_030_067]
  /\ exists station_routes,
       organize_by_station [geometry_030_067] {["030-067" := stats_067_030]}
       = Ok station_routes
       /\ In geometry_030_067 (default [] (station_routes !! "030"))
       /\ In (reverse_of geometry_030_067 stats_067_030)
            (default [] (station_routes !! "067"))
       /\ station_routes !! "045" = None.
Proof.
  assert (Forall valid_geometry [geometry_030_067]) as Hv.
  { repeat constructor; simpl; try discriminate. }
  split; [exact Hv|].
  destruct (organize_by_station_entries [geometry_030_067]
              {["030-067" := stats_067_030]} Hv)
    as (m & Hrun & _ & Hfwd & Hrev & _ & Hnone & _).
  exists m. split; [exact Hrun|]. split; [|split].
  - apply (Hfwd geometry_030_067). left. reflexivity.
  - apply (Hrev geometry_030_067 stats_067_030); [left|]; reflexivity.
  - apply Hnone. intros route [<-|[]]. split; [discriminate|].
    intros st Hst. vm_compute in Hst. inversion Hst. discriminate.
Defined.

(** C6 as stated fails when the geometry was requested from the
    station whose identifier sorts last: the entry written for the
    reverse record is tagged "forward". *)
Lemma reverse_record_tagged_forward :
  ~ reverse_entries_are_tagged_reverse [geometry_067_030]
      {["030-067" := stats_030_067_reverse]}.
Proof.
  intros H.
  destruct (organize_by_station [geometry_067_030]
              {["030-067" := stats_030_067_reverse]}) as [sr|e] eqn:E;
    [|vm_compute in E; discriminate].
  destruct (H sr geometry_067_030 stats_030_067_reverse)
    as (file & Hfile & Hin).
  - exact E.
  - left. reflexivity.
  - reflexivity.
  - vm_compute in E. inversion E; subst sr. clear E.
    vm_compute in Hfile. inversion Hfile; subst file. clear Hfile.
    vm_compute in Hin. destruct Hin as [Hin|[]]. discriminate.
Qed.

(** ** Global coverage *)

Lemma insert_desc_Permutation {A} (key : A -> Z) r l :
  Permutation (insert_desc key r l) (r :: l).
Proof.
  induction l as [|x l IH]; simpl; [reflexivity|].
  destruct (key r <? key x); [|reflexivity].
  rewrite IH. apply perm_swap.
Qed.

Lemma sorted_desc_Permutation {A} (key : A -> Z) l :
  Permutation (sorted_desc key l) l.
Proof.
  induction l as [|x l IH]; simpl; [reflexivity|].
  rewrite insert_desc_Permutation, IH. reflexivity.
Qed.

Lemma sum_trip_count_Permutation l l' :
  Permutation l l' -> sum_trip_count l = sum_trip_count l'.
Proof.
  induction 1; simpl; try lia.
Qed.

Lemma sum_trip_count_app l l' :
  sum_trip_count (l ++ l') = sum_trip_count l + sum_trip_count l'.
Proof. induction l as [|x l IH]; simpl; lia. Qed.

Lemma sum_trip_count_positive l :
  Forall (fun r => 1 <= trip_count r) l -> l <> [] -> 0 < sum_trip_count l.
Proof.
  intros H Hne. destruct H as [|r l Hr Hl]; [contradiction|].
  simpl. clear Hne.
  assert (0 <= sum_trip_count l); [|lia].
  induction Hl; simpl; lia.
Qed.

Lemma accumulate_prefix target routes :
  forall cum, exists rest, routes = accumulate target cum routes ++ rest.
Proof.
  induction routes as [|r routes IH]; intros cum; simpl.
  - exists []. reflexivity.
  - destruct (Qle_bool target (inject_Z (cum + trip_count r))).
    + exists routes. reflexivity.
    + destruct (IH (cum + trip_count r)) as [rest Hrest].
      exists rest. simpl. f_equal. exact Hrest.
Qed.

Lemma accumulate_reaches target routes :
  forall cum,
    (target <= inject_Z (cum + sum_trip_count routes))%Q ->
    routes <> [] ->
    (target <= inject_Z (cum + sum_trip_count (accumulate target cum routes)))%Q.
Proof.
  induction routes as [|r routes IH]; intros cum Hall Hne; [contradiction|].
  simpl.
  destruct (Qle_bool target (inject_Z (cum + trip_count r))) eqn:E.
  - apply Qle_bool_iff in E. simpl. rewrite Z.add_0_r. exact E.
  - simpl. destruct routes as [|r' routes'].
    + simpl in *. exact Hall.
    + rewrite Z.add_assoc. apply IH; [|discriminate].
      simpl in *. rewrite <- Z.add_assoc. exact Hall.
Qed.

Lemma accumulate_minimal target routes :
  forall cum,
    (inject_Z cum < target)%Q ->
    (inject_Z (cum + sum_trip_count (removelast (accumulate target cum routes)))
     < target)%Q.
Proof.
  induction routes as [|r routes IH]; intros cum Hlt.
  - simpl. rewrite Z.add_0_r. exact Hlt.
  - simpl.
    destruct (Qle_bool target (inject_Z (cum + trip_count r))) eqn:E.
    + simpl. rewrite Z.add_0_r. exact Hlt.
    + assert (inject_Z (cum + trip_count r) < target)%Q as Hc.
      { apply Qnot_le_lt. intros Hle. apply Qle_bool_iff in Hle. congruence. }
      specialize (IH (cum + trip_count r) Hc).
      destruct (accumulate target (cum + trip_count r) routes) as [|x sel] eqn:Es.
      * simpl. rewrite Z.add_0_r. exact Hlt.
      * change (removelast (r :: x :: sel)) with (r :: removelast (x :: sel)).
        simpl sum_trip_count. rewrite Z.add_assoc. exact IH.
Qed.

Lemma accumulate_nonempty target cum routes :
  routes <> [] -> accumulate target cum routes <> [].
Proof.
  destruct routes as [|r routes]; [contradiction|]. intros _. simpl.
  destruct (Qle_bool target (inject_Z (cum + trip_count r))); discriminate.
Qed.

Lemma accumulate_first target cum r routes :
  (target <= inject_Z (cum + trip_count r))%Q ->
  accumulate target cum (r :: routes) = [r].
Proof.
  intros H. cbn [accumulate]. apply Qle_bool_iff in H. rewrite H. reflexivity.
Qed.

Lemma new_RouteStatistics_ok dep ret count dist dur r :
  new_RouteStatistics dep ret count dist dur = Ok r ->
  r = mkRouteStatistics dep ret count dist dur /\ 1 <= count.
Proof.
  unfold new_RouteStatistics.
  destruct (Z.ltb_spec count 1) as [Hlt|Hge]; [discriminate|].
  destruct (Qlt_bool dist 0); [discriminate|].
  destruct (Qlt_bool dur 0); [discriminate|].
  intros Hr. inversion Hr. split; [reflexivity | lia].
Qed.

Lemma rmapM_ok {A B} (f : A -> result B) l l' :
  rmapM f l = Ok l' -> Forall2 (fun x y => f x = Ok y) l l'.
Proof.
  revert l'. induction l as [|x l IH]; intros l' H; simpl in H.
  - inversion H. constructor.
  - destruct (f x) as [y|e] eqn:E; [|discriminate]. simpl in H.
    destruct (rmapM f l) as [ys|e]; [|discriminate]. simpl in H.
    inversion H. constructor; [exact E | apply IH; reflexivity].
Qed.

Lemma rows_to_statistics_positive rows routes :
  rmapM row_to_RouteStatistics rows = Ok routes ->
  Forall (fun r => 1 <= trip_count r) routes.
Proof.
  intros H. apply rmapM_ok in H.
  induction H as [|row r rows routes Hr _ IH]; constructor; [|exact IH].
  apply new_RouteStatistics_ok in Hr. destruct Hr as [-> Hc]. exact Hc.
Qed.

(** ** The target of the global coverage *)

Lemma binary64_1 : (binary64 1 == 1)%Q.
Proof. exact (binary64_Z 1 ltac:(simpl; lia)). Qed.

Lemma float_div_100_le_1 (pct : Q) :
  (pct <= 100)%Q -> (float_div pct 100 <= 1)%Q.
Proof.
  intros H. rewrite <- binary64_1. apply binary64_mono.
  apply Qle_shift_div_r; [reflexivity | lra].
Qed.

Lemma float_div_100_ge_1 (pct : Q) :
  (100 <= pct)%Q -> (1 <= float_div pct 100)%Q.
Proof.
  intros H. rewrite <- binary64_1. apply binary64_mono.
  apply Qle_shift_div_l; [reflexivity | lra].
Qed.

Lemma float_div_100_nonneg (pct : Q) :
  (0 <= pct)%Q -> (0 <= float_div pct 100)%Q.
Proof.
  intros H. apply binary64_nonneg.
  apply Qle_shift_div_l; [reflexivity | lra].
Qed.

Lemma float_div_100_nonpos (pct : Q) :
  (pct <= 0)%Q -> (float_div pct 100 <= 0)%Q.
Proof.
  intros H.
  assert (0 <= binary64 (- (pct / 100)))%Q as Hn.
  { apply binary64_nonneg.
    assert (pct / 100 <= 0)%Q; [|lra].
    apply Qle_shift_div_r; [reflexivity | lra]. }
  rewrite binary64_opp in Hn. unfold float_div. lra.
Qed.

Lemma float_of_int_nonneg (n : Z) : 0 <= n -> (0 <= float_of_int n)%Q.
Proof.
  intros H. apply binary64_nonneg.
  change 0%Q with (inject_Z 0). rewrite <- Zle_Qle. exact H.
Qed.

Lemma target_trips_of_le (total : Z) (pct : Q) :
  0 <= total <= 2 ^ 53 -> (pct <= 100)%Q ->
  (target_trips_of total pct <= inject_Z total)%Q.
Proof.
  intros Ht Hp. unfold target_trips_of, float_mul.
  pose proof (float_of_int_exact total ltac:(lia)) as Et.
  pose proof (float_div_100_le_1 pct Hp) as Hf.
  assert (0 <= inject_Z total)%Q as HT.
  { change 0%Q with (inject_Z 0). rewrite <- Zle_Qle. lia. }
  apply (Qle_trans _ (binary64 (inject_Z total))).
  - apply binary64_mono. fold (float_of_int total). nra.
  - rewrite binary64_Z by lia. apply Qle_refl.
Qed.

Lemma target_trips_of_ge (total : Z) (pct : Q) :
  0 <= total <= 2 ^ 53 -> (100 <= pct)%Q ->
  (inject_Z total <= target_trips_of total pct)%Q.
Proof.
  intros Ht Hp. unfold target_trips_of, float_mul.
  pose proof (float_of_int_exact total ltac:(lia)) as Et.
  pose proof (float_div_100_ge_1 pct Hp) as Hf.
  assert (0 <= inject_Z total)%Q as HT.
  { change 0%Q with (inject_Z 0). rewrite <- Zle_Qle. lia. }
  apply (Qle_trans _ (binary64 (inject_Z total))).
  - rewrite binary64_Z by lia. apply Qle_refl.
  - apply binary64_mono. fold (float_of_int total). nra.
Qed.

Lemma target_trips_of_nonpos (total : Z) (pct : Q) :
  0 <= total -> (pct <= 0)%Q -> (target_trips_of total pct <= 0)%Q.
Proof.
  intros Ht Hp. unfold target_trips_of, float_mul.
  pose proof (float_of_int_nonneg total Ht) as HT.
  pose proof (float_div_100_nonpos pct Hp) as Hf.
  assert (0 <= binary64 (- (float_of_int total * float_div pct 100)))%Q as Hn.
  { apply binary64_nonneg. nra. }
  rewrite binary64_opp in Hn. lra.
Qed.

Lemma target_trips_of_mono (total : Z) (p1 p2 : Q) :
  0 <= total -> (p1 <= p2)%Q ->
  (target_trips_of total p1 <= target_trips_of total p2)%Q.
Proof.
  intros Ht Hp. unfold target_trips_of.
  apply float_mul_mono_l; [apply float_of_int_nonneg; exact Ht|].
  apply float_div_mono; [reflexivity | exact Hp].
Qed.

(** With a quotient [pct / 100] of the normal range, and a total that
    is a binary64 number, the target is within a relative error of
    [2 ^ -51] of [pct / 100 * total]. *)
Lemma target_trips_of_error (total : Z) (pct : Q) :
  1 <= total <= 2 ^ 53 -> (2 ^ (-1022) <= pct / 100)%Q ->
  (0 < target_trips_of total pct)%Q
  /\ ((1 - 2 ^ (-51)) * (pct / 100 * inject_Z total)
      <= target_trips_of total pct)%Q
  /\ (target_trips_of total pct
      <= (1 + 2 ^ (-51)) * (pct / 100 * inject_Z total))%Q.
Proof.
  intros Ht Hf. unfold target_trips_of, float_mul, float_div.
  pose proof (float_of_int_exact total ltac:(lia)) as Et.
  assert (1 <= inject_Z total)%Q as HT.
  { change 1%Q with (inject_Z 1). rewrite <- Zle_Qle. lia. }
  destruct (binary64_error (pct / 100) Hf) as [F1 F2].
  assert (2 ^ (-1022) <= binary64 (pct / 100))%Q as HF.
  { rewrite <- (binary64_pow2 (-1022)) by lia. apply binary64_mono. exact Hf. }
  pose proof (pow2_pos (-1022)) as Hmin.
  set (f := (pct / 100)%Q) in *. set (F := binary64 f) in *.
  set (t := inject_Z total) in *. set (ft := float_of_int total) in *.
  assert (2 ^ (-1022) <= ft * F)%Q as Hx by nra.
  destruct (binary64_error (ft * F) Hx) as [T1 T2].
  set (T := binary64 (ft * F)) in *.
  assert (2 ^ (-51) == 4 * 2 ^ (-53))%Q as Eu by reflexivity.
  pose proof (pow2_pos (-53)) as Hu.
  assert (2 ^ (-53) <= 1)%Q as Hu1 by (apply (pow2_le (-53) 0); lia).
  set (u := (2 ^ (-53))%Q) in *. rewrite Eu.
  assert (0 < f)%Q as Hfpos by lra.
  assert (f * t * (1 - u) <= ft * F)%Q as X1 by nra.
  assert (ft * F <= f * t * (1 + u))%Q as X2 by nra.
  set (x := (ft * F)%Q) in *.
  assert (0 <= f * t)%Q as He by nra.
  set (e := (f * t)%Q) in *.
  split; [nra|]. split; nra.
Qed.

(** With a quotient below the normal range the target is below one
    trip. *)
Lemma target_trips_of_small (total : Z) (pct : Q) :
  0 <= total <= 2 ^ 53 -> (pct / 100 <= 2 ^ (-1022))%Q ->
  (target_trips_of total pct < 1)%Q.
Proof.
  intros Ht Hf. unfold target_trips_of, float_mul, float_div.
  pose proof (float_of_int_exact total ltac:(lia)) as Et.
  assert (0 <= inject_Z total)%Q as HT0.
  { change 0%Q with (inject_Z 0). rewrite <- Zle_Qle. lia. }
  assert (inject_Z total <= 2 ^ 53)%Q as HT.
  { rewrite (pow2_Z 53) by lia. rewrite <- Zle_Qle. lia. }
  assert (binary64 (pct / 100) <= 2 ^ (-1022))%Q as HF.
  { rewrite <- (binary64_pow2 (-1022)) by lia. apply binary64_mono. exact Hf. }
  assert (2 ^ 53 * 2 ^ (-1022) == 2 ^ (-969))%Q as Ep
    by (rewrite <- pow2_add; reflexivity).
  pose proof (pow2_pos (-1022)) as Hmin.
  assert (2 ^ (-969) < 1)%Q as Hlt.
  { change 1%Q with (2 ^ 0)%Q. apply Qpower_lt_compat_l; [lia | reflexivity]. }
  apply (Qle_lt_trans _ (2 ^ (-969))); [|exact Hlt].
  rewrite <- (binary64_pow2 (-969)) by lia. apply binary64_mono.
  set (F := binary64 (pct / 100)) in *.
  set (ft := float_of_int total) in *. set (t := inject_Z total) in *.
  nra.
Qed.

Lemma select_global_coverage_spec pct all_routes :
  (0 < pct)%Q -> (pct <= 100)%Q ->
  Forall (fun r => 1 <= trip_count r) all_routes ->
  all_routes <> [] ->
  sum_trip_count all_routes <= 2 ^ 53 ->
  let selected := select_global_coverage pct all_routes in
  let target := target_trips_of (sum_trip_count all_routes) pct in
  (exists rest, sorted_desc trip_count all_routes = selected ++ rest)
  /\ selected <> []
  /\ (target <= inject_Z (sum_trip_count selected))%Q
  /\ ((0 < target)%Q ->
      (inject_Z (sum_trip_count (removelast selected)) < target)%Q)
  /\ covers_minimally_within (2 ^ (-51)) pct all_routes selected.
Proof.
  intros H0 H100 Hpos Hne H53 selected target. subst selected target.
  unfold select_global_coverage.
  set (total := sum_trip_count all_routes) in *.
  set (target := target_trips_of total pct).
  set (routes_sorted := sorted_desc trip_count all_routes).
  assert (Permutation routes_sorted all_routes) as Hperm
    by apply sorted_desc_Permutation.
  assert (routes_sorted <> []) as Hsne.
  { intros E. rewrite E in Hperm. apply Permutation_nil in Hperm.
    contradiction. }
  assert (0 < total) as Htotal by (apply sum_trip_count_positive; assumption).
  assert (target <= inject_Z total)%Q as Hhigh
    by (apply target_trips_of_le; [lia | exact H100]).
  assert (target <= inject_Z (sum_trip_count (accumulate target 0 routes_sorted)))%Q
    as Hreach.
  { pose proof (accumulate_reaches target routes_sorted 0) as Hr.
    rewrite !Z.add_0_l in Hr. apply Hr; [|exact Hsne].
    rewrite (sum_trip_count_Permutation _ _ Hperm). exact Hhigh. }
  assert ((0 < target)%Q ->
          (inject_Z (sum_trip_count (removelast (accumulate target 0 routes_sorted)))
           < target)%Q) as Hmin.
  { intros Hlow.
    pose proof (accumulate_minimal target routes_sorted 0 Hlow) as Hm.
    rewrite Z.add_0_l in Hm. exact Hm. }
  split; [apply accumulate_prefix|].
  split; [apply accumulate_nonempty; exact Hsne|].
  split; [exact Hreach|]. split; [exact Hmin|].
  unfold covers_minimally_within. fold total.
  assert (1 <= inject_Z total)%Q as HT.
  { change 1%Q with (inject_Z 1). rewrite <- Zle_Qle. lia. }
  assert (0 < pct / 100)%Q as Hf by (apply Qlt_shift_div_l; lra).
  assert (2 ^ (-51) == 4 * 2 ^ (-53))%Q as Eu by reflexivity.
  pose proof (pow2_pos (-53)) as Hu.
  assert (2 ^ (-53) <= 1)%Q as Hu1 by (apply (pow2_le (-53) 0); lia).
  destruct (Qlt_le_dec (pct / 100) (2 ^ (-1022))) as [Hsmall|Hnormal].
  - assert (target < 1)%Q as Ht1
      by (apply target_trips_of_small; [lia | lra]).
    assert (inject_Z total <= 2 ^ 53)%Q as HT53.
    { rewrite (pow2_Z 53) by lia. rewrite <- Zle_Qle. lia. }
    assert (2 ^ 53 * 2 ^ (-1022) == 2 ^ (-969))%Q as Ep
      by (rewrite <- pow2_add; reflexivity).
    assert (2 ^ (-969) < 1)%Q as Hlt.
    { change 1%Q with (2 ^ 0)%Q. apply Qpower_lt_compat_l; [lia | reflexivity]. }
    pose proof (pow2_pos (-1022)) as Hmin'.
    destruct routes_sorted as [|r rest'] eqn:Es; [contradiction|].
    assert (1 <= trip_count r) as Hr.
    { assert (In r all_routes) as Hin.
      { apply (Permutation_in r Hperm). left. reflexivity. }
      rewrite List.Forall_forall in Hpos. apply Hpos. exact Hin. }
    assert (1 <= inject_Z (trip_count r))%Q as HrQ.
    { change 1%Q with (inject_Z 1). rewrite <- Zle_Qle. exact Hr. }
    rewrite accumulate_first
      by (rewrite Z.add_0_l; lra).
    cbn [removelast sum_trip_count fold_right]. rewrite Z.add_0_r.
    change (inject_Z 0) with 0%Q.
    set (f := (pct / 100)%Q) in *. set (t := inject_Z total) in *.
    set (u := (2 ^ (-53))%Q) in *. rewrite Eu.
    assert (f * t < 1)%Q as Hft by nra.
    split; nra.
  - destruct (target_trips_of_error total pct ltac:(lia) Hnormal)
      as (Hpos' & E1 & E2).
    fold target in Hpos', E1, E2.
    specialize (Hmin Hpos').
    split; lra.
Qed.

(** C4.  When the statistics query returns a non-empty list of at most
    [2 ^ 53] trips in all and the percentage is in (0, 100],
    [get_global_coverage_routes] returns a non-empty prefix of the
    pairs sorted by descending trip count.  Its cumulative trip count
    reaches the target the code computes, the double
    [total_trips * (coverage_pct / 100.0)], and without its last
    element the cumulative count is below that target (a target of
    zero, from a percentage that underflows, apart).  Relative to
    pct/100 of the total, the prefix reaches it and is minimal up to a
    relative error of [2 ^ -51] of this threshold.  On the pairs with
    counts 50, 30, 15 and 5, coverage 80 returns exactly the pairs
    with 50 and 30 trips. *)
Theorem global_coverage_is_minimal_up_to_rounding :
  (forall (order_by_count : list RouteRow -> list RouteRow) (pct : Q)
          (trips : list Trip) (all_routes : list RouteStatistics),
     (0 < pct)%Q -> (pct <= 100)%Q ->
     get_route_statistics order_by_count 1 trips = Ok all_routes ->
     all_routes <> [] ->
     sum_trip_count all_routes <= 2 ^ 53 ->
     exists selected rest,
       get_global_coverage_routes order_by_count pct trips = Ok selected
       /\ sorted_desc trip_count all_routes = selected ++ rest
       /\ selected <> []
       /\ (target_trips_of (sum_trip_count all_routes) pct
           <= inject_Z (sum_trip_count selected))%Q
       /\ ((0 < target_trips_of (sum_trip_count all_routes) pct)%Q ->
           (inject_Z (sum_trip_count (removelast selected))
            < target_trips_of (sum_trip_count all_routes) pct)%Q)
       /\ covers_minimally_within (2 ^ (-51)) pct all_routes selected)
  /\ get_global_coverage_routes stable_order_by_count 80 scenario_trips
     = Ok [mkRouteStatistics "001" "002" 50 1000 300;
           mkRouteStatistics "001" "003" 30 1000 300].
Proof.
  split.
  - intros order_by_count pct trips all_routes H0 H100 Hstats Hne H53.
    unfold get_global_coverage_routes. rewrite Hstats. simpl.
    assert (Forall (fun r => 1 <= trip_count r) all_routes) as Hpos.
    { unfold get_route_statistics in Hstats.
      eapply rows_to_statistics_positive. exact Hstats. }
    destruct (select_global_coverage_spec pct all_routes H0 H100 Hpos Hne H53)
      as ([rest Hrest] & Hsel & Hcov & Hmin & Hwithin).
    exists (select_global_coverage pct all_routes), rest.
    split; [reflexivity|]. split; [exact Hrest|]. split; [exact Hsel|].
    split; [exact Hcov|]. split; [exact Hmin | exact Hwithin].
  - vm_compute. reflexivity.
Qed.

Lemma global_coverage_is_minimal_up_to_rounding_witness :
  (0 < 80)%Q /\ (80 <= 100)%Q
  /\ get_route_statistics stable_order_by_count 1 scenario_trips = Ok scenario_pairs
  /\ sum_trip_count scenario_pairs <= 2 ^ 53
  /\ exists selected,
       get_global_coverage_routes stable_order_by_count 80 scenario_trips
       = Ok selected
       /\ (target_trips_of (sum_trip_count scenario_pairs) 80
           <= inject_Z (sum_trip_count selected))%Q
       /\ covers_minimally_within (2 ^ (-51)) 80 scenario_pairs selected.
Proof.
  assert (0 < 80)%Q as H0 by reflexivity.
  assert (80 <= 100)%Q as H100 by (intros H; discriminate).
  assert (get_route_statistics stable_order_by_count 1 scenario_trips
          = Ok scenario_pairs) as Hstats by (vm_compute; reflexivity).
  assert (sum_trip_count scenario_pairs <= 2 ^ 53) as H53
    by (vm_compute; discriminate).
  split; [exact H0|]. split; [exact H100|]. split; [exact Hstats|].
  split; [exact H53|].
  destruct (proj1 global_coverage_is_minimal_up_to_rounding
              stable_order_by_count 80%Q
              scenario_trips scenario_pairs H0 H100 Hstats)
    as (selected & rest & Hrun & _ & _ & Hcov & _ & Hwithin).
  - discriminate.
  - exact H53.
  - exists selected. split; [exact Hrun|]. split; [exact Hcov | exact Hwithin].
Defined.

(** C4 as stated fails where the target is rounded up.  With 25 trips
    in pairs of 7, 6, 5, 4 and 3 and coverage 28, the quotient
    28 / 100.0 is the double just above 0.28 and the target is the
    double just above 7, so the pair with 7 trips does not reach it
    and the pair with 6 is added; without it the count, 7, is not
    below 28/100 of 25. *)
Lemma the_target_is_rounded :
  (0 < 28)%Q /\ (28 <= 100)%Q
  /\ get_route_statistics stable_order_by_count 1 rounding_trips
     = Ok rounding_pairs
  /\ (inject_Z 7 < target_trips_of 25 28)%Q
  /\ get_global_coverage_routes stable_order_by_count 28 rounding_trips
     = Ok [mkRouteStatistics "001" "002" 7 1000 300;
           mkRouteStatistics "001" "003" 6 1000 300]
  /\ ~ covers_minimally_within 0 28 rounding_pairs
         [mkRouteStatistics "001" "002" 7 1000 300;
          mkRouteStatistics "001" "003" 6 1000 300].
Proof.
  split; [reflexivity|]. split; [intros H; discriminate|].
  split; [vm_compute; reflexivity|].
  split; [vm_compute; reflexivity|].
  split; [vm_compute; reflexivity|].
  unfold covers_minimally_within. intros [_ H].
  vm_compute in H. discriminate.
Qed.

(** ** Facts about [distinct] and the groups *)

Lemma distinct_In {A} (eqb : A -> A -> bool) (l : list A) x :
  In x (distinct eqb l) -> In x l.
Proof.
  induction l as [|y l IH]; simpl; [tauto|].
  intros [H|H]; [left; exact H|].
  apply List.filter_In in H. right. apply IH. apply H.
Qed.

Lemma In_distinct {A} (eqb : A -> A -> bool) (l : list A) x :
  (forall a b, eqb a b = true <-> a = b) ->
  In x l -> In x (distinct eqb l).
Proof.
  intros Heqb. induction l as [|y l IH]; simpl; [tauto|].
  intros [H|H]; [left; exact H|].
  destruct (eqb x y) eqn:E.
  - left. symmetry. apply Heqb. exact E.
  - right. apply List.filter_In. split; [apply IH; exact H|].
    rewrite E. reflexivity.
Qed.

Lemma distinct_NoDup {A} (eqb : A -> A -> bool) (l : list A) :
  (forall a b, eqb a b = true <-> a = b) ->
  List.NoDup (distinct eqb l).
Proof.
  intros Heqb. induction l as [|y l IH]; simpl; constructor.
  - intros H. apply List.filter_In in H. destruct H as [_ H].
    assert (eqb y y = true) as E by (apply Heqb; reflexivity).
    rewrite E in H. discriminate.
  - apply List.NoDup_filter. exact IH.
Qed.

Lemma pair_eqb_eq p q : pair_eqb p q = true <-> p = q.
Proof.
  unfold pair_eqb. destruct p as [a b], q as [c d]. simpl.
  rewrite andb_true_iff, !String.eqb_eq.
  split; [intros [-> ->]; reflexivity | intros H; inversion H; auto].
Qed.

Lemma Qsum_nonneg l : Forall (fun x => (0 <= x)%Q) l -> (0 <= Qsum l)%Q.
Proof.
  induction 1 as [|x l Hx _ IH]; simpl; [apply Qle_refl|].
  change 0%Q with (0 + 0)%Q. apply Qplus_le_compat; assumption.
Qed.

Lemma sql_avg_nonneg vals :
  (forall d, In (Some d) vals -> (0 <= d)%Q) ->
  (0 <= float_or_0 (sql_avg vals))%Q.
Proof.
  intros H. unfold sql_avg.
  assert (Forall (fun x => (0 <= x)%Q) (omap id vals)) as Hall.
  { apply List.Forall_forall. intros d Hd.
    rewrite <- list_elem_of_In in Hd. apply list_elem_of_omap in Hd.
    destruct Hd as (o & Ho & Hid). simpl in Hid. subst o.
    apply H. rewrite <- list_elem_of_In. exact Ho. }
  destruct (omap id vals) as [|x xs]; [apply Qle_refl|].
  cbn [float_or_0]. rewrite Qred_correct.
  apply Qle_shift_div_l.
  - change 0%Q with (inject_Z 0). rewrite <- Zlt_Qlt. simpl. lia.
  - rewrite Qmult_0_l. apply Qsum_nonneg. exact Hall.
Qed.

Lemma where_not_loop_valid trips :
  Forall valid_trip trips -> Forall valid_trip (where_not_loop trips).
Proof.
  intros H. apply List.Forall_forall. intros t Ht.
  apply List.filter_In in Ht. rewrite List.Forall_forall in H. apply H. apply Ht.
Qed.

Lemma aggregate_valid ts p :
  Forall valid_trip ts -> In p (map trip_pair ts) -> valid_row (aggregate ts p).
Proof.
  intros Hv Hp. unfold valid_row, aggregate. simpl.
  rewrite List.Forall_forall in Hv.
  split; [|split].
  - apply in_map_iff in Hp. destruct Hp as (t & Ht & Hin).
    assert (In t (group_of p ts)) as Hg.
    { apply List.filter_In. split; [exact Hin|]. apply pair_eqb_eq. exact Ht. }
    destruct (group_of p ts); [contradiction | simpl; lia].
  - apply sql_avg_nonneg. intros d Hd. apply in_map_iff in Hd.
    destruct Hd as (t & Ht & Hin). apply List.filter_In in Hin.
    apply (proj1 (Hv t (proj1 Hin))). exact Ht.
  - apply sql_avg_nonneg. intros d Hd. apply in_map_iff in Hd.
    destruct Hd as (t & Ht & Hin). apply List.filter_In in Hin.
    apply (proj2 (Hv t (proj1 Hin))). exact Ht.
Qed.

Lemma route_stats_valid trips :
  Forall valid_trip trips -> Forall valid_row (route_stats trips).
Proof.
  intros Hv. unfold route_stats. apply List.Forall_forall. intros r Hr.
  apply in_map_iff in Hr. destruct Hr as (p & <- & Hp).
  apply aggregate_valid; [apply where_not_loop_valid; exact Hv|].
  eapply distinct_In. exact Hp.
Qed.

Lemma row_to_RouteStatistics_valid r :
  valid_row r -> row_to_RouteStatistics r = Ok (stats_of_row r).
Proof.
  intros (Hc & Hd & Ht). unfold row_to_RouteStatistics, new_RouteStatistics.
  destruct (Z.ltb_spec (row_trip_count r) 1) as [Hlt|_]; [lia|].
  apply Qlt_bool_false_iff in Hd. apply Qlt_bool_false_iff in Ht.
  rewrite Hd, Ht. reflexivity.
Qed.

Lemma rmapM_rows_valid rows :
  Forall valid_row rows ->
  rmapM row_to_RouteStatistics rows = Ok (map stats_of_row rows).
Proof.
  induction 1 as [|r rows Hr _ IH]; [reflexivity|].
  simpl. rewrite (row_to_RouteStatistics_valid r Hr). simpl. rewrite IH.
  reflexivity.
Qed.

Lemma Forall_perm_list {A} (P : A -> Prop) l l' :
  Permutation l l' -> Forall P l -> Forall P l'.
Proof.
  intros Hp H. apply List.Forall_forall. intros x Hx.
  rewrite List.Forall_forall in H. apply H.
  eapply Permutation_in; [symmetry; exact Hp | exact Hx].
Qed.

Lemma Forall_filter_list {A} (P : A -> Prop) f l :
  Forall P l -> Forall P (List.filter f l).
Proof.
  intros H. apply List.Forall_forall. intros x Hx. apply List.filter_In in Hx.
  rewrite List.Forall_forall in H. apply H. apply Hx.
Qed.

Lemma filter_min_trips_1 rows :
  Forall valid_row rows ->
  List.filter (fun r => 1 <=? row_trip_count r) rows = rows.
Proof.
  induction 1 as [|r rows Hr _ IH]; [reflexivity|].
  simpl. destruct Hr as [Hc _].
  destruct (Z.leb_spec 1 (row_trip_count r)); [|lia].
  rewrite IH. reflexivity.
Qed.

(** ** Sorted lists *)

Lemma StronglySorted_take {A} (R : A -> A -> Prop) n l :
  StronglySorted R l -> StronglySorted R (take n l).
Proof.
  intros H. revert n. induction H as [|x l Hl IH Hx]; intros n.
  - destruct n; constructor.
  - destruct n; simpl; constructor; [apply IH|].
    apply List.Forall_forall. intros y Hy.
    rewrite List.Forall_forall in Hx. apply Hx.
    rewrite <- (firstn_skipn n l). apply in_or_app. left. exact Hy.
Qed.

Lemma StronglySorted_filter_list {A} (R : A -> A -> Prop) f l :
  StronglySorted R l -> StronglySorted R (List.filter f l).
Proof.
  induction 1 as [|x l Hl IH Hx]; simpl; [constructor|].
  destruct (f x); [|exact IH].
  constructor; [exact IH|]. apply Forall_filter_list. exact Hx.
Qed.

Lemma descending_stats_of_rows rows :
  rows_descending rows -> descending (map stats_of_row rows).
Proof.
  induction 1 as [|r rows Hl IH Hr]; simpl; constructor; [exact IH|].
  apply Forall_map. exact Hr.
Qed.

Lemma insert_desc_descending {A} (key : A -> Z) r l :
  StronglySorted (fun a b => key b <= key a) l ->
  StronglySorted (fun a b => key b <= key a) (insert_desc key r l).
Proof.
  induction 1 as [|x l Hl IH Hx]; simpl.
  - constructor; constructor.
  - destruct (Z.ltb_spec (key r) (key x)) as [Hlt|Hge].
    + constructor; [exact IH|].
      apply (Forall_perm_list _ (r :: l));
        [symmetry; apply insert_desc_Permutation|].
      constructor; [lia | exact Hx].
    + constructor; [constructor; assumption|].
      constructor; [exact Hge|].
      apply List.Forall_forall. intros y Hy.
      rewrite List.Forall_forall in Hx. specialize (Hx y Hy). simpl in Hx. lia.
Qed.

Lemma sorted_desc_descending {A} (key : A -> Z) l :
  StronglySorted (fun a b => key b <= key a) (sorted_desc key l).
Proof.
  induction l as [|x l IH]; simpl; [constructor|].
  apply insert_desc_descending. exact IH.
Qed.

Lemma sorted_desc_of_descending {A} (key : A -> Z) l :
  StronglySorted (fun a b => key b <= key a) l -> sorted_desc key l = l.
Proof.
  induction 1 as [|x l Hl IH Hx]; [reflexivity|].
  simpl. rewrite IH. destruct l as [|y l]; [reflexivity|].
  simpl. inversion Hx as [|? ? Hy _]; subst.
  destruct (Z.ltb_spec (key x) (key y)); [lia | reflexivity].
Qed.

Lemma stable_order_by_count_orders : orders_by_count stable_order_by_count.
Proof.
  intros rows. split.
  - apply sorted_desc_Permutation.
  - apply sorted_desc_descending.
Qed.

(** The order by station, then by descending count, of the example
    database. *)

Lemma string_ltb_lt a b : (a <? b)%string = true <-> String_as_OT.lt a b.
Proof.
  rewrite <- String_as_OT.cmp_lt. unfold String.ltb, String_as_OT.cmp.
  destruct (String.compare a b); split; intros H; congruence.
Qed.

Lemma string_ltb_trans a b c :
  (a <? b)%string = true -> (b <? c)%string = true -> (a <? c)%string = true.
Proof.
  rewrite !string_ltb_lt. apply String_as_OT.lt_trans.
Qed.

(** [a] need not come after [b] in the order by station, then by
    descending count. *)
Lemma station_count_ltb_false a b :
  station_count_ltb a b = false <->
  (row_departure_station_id a <? row_departure_station_id b)%string = true
  \/ (row_departure_station_id a = row_departure_station_id b
      /\ row_trip_count b <= row_trip_count a).
Proof.
  unfold station_count_ltb.
  set (da := row_departure_station_id a). set (db := row_departure_station_id b).
  rewrite orb_false_iff, andb_false_iff.
  destruct (String.eqb_spec db da) as [Heq|Hne].
  - rewrite Heq, string_ltb_irrefl. rewrite Z.ltb_ge.
    split.
    + intros [_ [H|H]]; [discriminate | right; auto].
    + intros [H|[_ H]]; [discriminate | auto].
  - split.
    + intros [Hlt _]. left.
      destruct (string_ltb_total da db) as [H|H]; [congruence | exact H |].
      rewrite H in Hlt. discriminate.
    + intros [H|[H _]]; [|congruence].
      split; [apply string_ltb_asym; exact H | left; reflexivity].
Qed.

Lemma station_count_ltb_asym a b :
  station_count_ltb a b = true -> station_count_ltb b a = false.
Proof.
  intros H. apply station_count_ltb_false.
  unfold station_count_ltb in H. apply orb_true_iff in H.
  destruct H as [H|H]; [left; exact H|].
  apply andb_true_iff in H. destruct H as [He Hc].
  apply String.eqb_eq in He. apply Z.ltb_lt in Hc. right. split; [exact He | lia].
Qed.

Lemma station_count_ltb_trans a b c :
  station_count_ltb a b = false -> station_count_ltb b c = false ->
  station_count_ltb a c = false.
Proof.
  rewrite !station_count_ltb_false.
  intros [H1|[E1 C1]] [H2|[E2 C2]].
  - left. eapply string_ltb_trans; eassumption.
  - left. rewrite <- E2. exact H1.
  - left. rewrite E1. exact H2.
  - right. split; [congruence | lia].
Qed.

Lemma insert_by_Permutation {A} (after : A -> A -> bool) r l :
  Permutation (insert_by after r l) (r :: l).
Proof.
  induction l as [|x l IH]; simpl; [reflexivity|].
  destruct (after r x); [|reflexivity].
  rewrite IH. apply perm_swap.
Qed.

Lemma sort_by_Permutation {A} (after : A -> A -> bool) l :
  Permutation (sort_by after l) l.
Proof.
  induction l as [|x l IH]; simpl; [reflexivity|].
  rewrite insert_by_Permutation, IH. reflexivity.
Qed.

Lemma insert_by_station_count_sorted r l :
  StronglySorted (fun a b => station_count_ltb a b = false) l ->
  StronglySorted (fun a b => station_count_ltb a b = false)
    (insert_by station_count_ltb r l).
Proof.
  induction 1 as [|x l Hl IH Hx]; simpl.
  - constructor; constructor.
  - destruct (station_count_ltb r x) eqn:E.
    + constructor; [exact IH|].
      apply (Forall_perm_list _ (r :: l));
        [symmetry; apply insert_by_Permutation|].
      constructor; [apply station_count_ltb_asym; exact E | exact Hx].
    + constructor; [constructor; assumption|].
      constructor; [exact E|].
      apply List.Forall_forall. intros y Hy.
      rewrite List.Forall_forall in Hx.
      eapply station_count_ltb_trans; [exact E | apply Hx; exact Hy].
Qed.

Lemma sort_by_station_count_sorted l :
  StronglySorted (fun a b => station_count_ltb a b = false)
    (sort_by station_count_ltb l).
Proof.
  induction l as [|x l IH]; simpl; [constructor|].
  apply insert_by_station_count_sorted. exact IH.
Qed.

Lemma StronglySorted_weaken {A} (R R' : A -> A -> Prop) l :
  (forall a b, In a l -> In b l -> R a b -> R' a b) ->
  StronglySorted R l -> StronglySorted R' l.
Proof.
  intros HR H. induction H as [|x l Hl IH Hx]; constructor.
  - apply IH. intros a b Ha Hb. apply HR; right; assumption.
  - apply List.Forall_forall. intros y Hy.
    rewrite List.Forall_forall in Hx.
    apply HR; [left; reflexivity | right; exact Hy | apply Hx; exact Hy].
Qed.

Lemma stable_order_by_station_count_orders :
  orders_by_station_count stable_order_by_station_count.
Proof.
  intros rows. split; [apply sort_by_Permutation|].
  intros s. unfold rows_descending.
  apply (StronglySorted_weaken (fun a b => station_count_ltb a b = false)).
  - intros a b Ha Hb Hab.
    apply List.filter_In in Ha. apply List.filter_In in Hb.
    destruct Ha as [_ Ha], Hb as [_ Hb].
    unfold departs_from in Ha, Hb.
    apply String.eqb_eq in Ha. apply String.eqb_eq in Hb.
    apply station_count_ltb_false in Hab.
    destruct Hab as [H|[_ H]]; [|exact H].
    rewrite Ha, Hb, string_ltb_irrefl in H. discriminate.
  - apply StronglySorted_filter_list. apply sort_by_station_count_sorted.
Qed.

(** ** Top N over the network *)

Lemma get_route_statistics_valid order_by_count trips :
  orders_by_count order_by_count ->
  Forall valid_trip trips ->
  get_route_statistics order_by_count 1 trips
  = Ok (map stats_of_row (order_by_count (route_stats trips)))
  /\ Forall valid_row (order_by_count (route_stats trips)).
Proof.
  intros Hob Hv.
  pose proof (route_stats_valid trips Hv) as Hrows.
  assert (Forall valid_row (order_by_count (route_stats trips))) as Hord.
  { apply (Forall_perm_list _ (route_stats trips));
      [symmetry; apply Hob | exact Hrows]. }
  split; [|exact Hord].
  unfold get_route_statistics, query_route_statistics.
  rewrite (filter_min_trips_1 _ Hrows).
  apply rmapM_rows_valid. exact Hord.
Qed.

Lemma top_n_global order_by_count n trips :
  orders_by_count order_by_count ->
  Forall valid_trip trips ->
  0 <= n ->
  exists all_routes top,
    get_route_statistics order_by_count 1 trips = Ok all_routes
    /\ get_top_n_routes order_by_count n trips = Ok top
    /\ Z.of_nat (length top) = Z.min n (Z.of_nat (length (route_stats trips)))
    /\ descending top
    /\ top = take (Z.to_nat n) (sorted_desc trip_count all_routes)
    /\ top = take (Z.to_nat n) all_routes.
Proof.
  intros Hob Hv Hn.
  destruct (get_route_statistics_valid order_by_count trips Hob Hv) as [Hrun _].
  set (rows := order_by_count (route_stats trips)) in *.
  assert (descending (map stats_of_row rows)) as Hdesc
    by (apply descending_stats_of_rows; apply Hob).
  exists (map stats_of_row rows), (take (Z.to_nat n) (map stats_of_row rows)).
  split; [exact Hrun|]. split; [|split; [|split; [|split]]].
  - unfold get_top_n_routes. rewrite Hrun. simpl. unfold slice_to.
    destruct (Z.ltb_spec n 0); [lia | reflexivity].
  - rewrite length_take, length_map.
    unfold rows. rewrite (Permutation_length (proj1 (Hob (route_stats trips)))).
    lia.
  - apply StronglySorted_take. exact Hdesc.
  - rewrite (sorted_desc_of_descending trip_count _ Hdesc). reflexivity.
  - reflexivity.
Qed.

(** ** Top N per station *)

Lemma window_rank_filter total n rows :
  forall cum k,
    map rr_row
      (List.filter (fun r => rr_rank r <=? n) (window total cum k rows))
    = take (Z.to_nat (n - k + 1)) rows.
Proof.
  induction rows as [|r rows IH]; intros cum k.
  - simpl. rewrite firstn_nil. reflexivity.
  - cbn [window List.filter rr_rank].
    destruct (Z.leb_spec k n) as [Hle|Hgt].
    + replace (Z.to_nat (n - k + 1)) with (S (Z.to_nat (n - (k + 1) + 1)))
        by lia.
      cbn [map rr_row firstn]. rewrite IH. reflexivity.
    + rewrite IH.
      replace (Z.to_nat (n - (k + 1) + 1)) with 0%nat by lia.
      replace (Z.to_nat (n - k + 1)) with 0%nat by lia.
      reflexivity.
Qed.

Lemma map_flat_map_list {A B C} (f : B -> C) (g : A -> list B) l :
  map f (flat_map g l) = flat_map (fun x => map f (g x)) l.
Proof.
  induction l as [|x l IH]; [reflexivity|].
  simpl. rewrite map_app, IH. reflexivity.
Qed.

Lemma filter_flat_map_list {A B} (p : B -> bool) (g : A -> list B) l :
  List.filter p (flat_map g l) = flat_map (fun x => List.filter p (g x)) l.
Proof.
  induction l as [|x l IH]; [reflexivity|].
  simpl. rewrite List.filter_app, IH. reflexivity.
Qed.

Lemma flat_map_ext_list {A B} (g h : A -> list B) l :
  (forall x, g x = h x) -> flat_map g l = flat_map h l.
Proof.
  intros H. induction l as [|x l IH]; [reflexivity|].
  simpl. rewrite H, IH. reflexivity.
Qed.

Lemma Permutation_filter_list {A} (p : A -> bool) l l' :
  Permutation l l' -> Permutation (List.filter p l) (List.filter p l').
Proof.
  induction 1 as [|x l l' _ IH|x y l|l l' l'' _ IH1 _ IH2]; simpl.
  - reflexivity.
  - destruct (p x); [apply perm_skip|]; exact IH.
  - destruct (p x), (p y); try reflexivity. apply perm_swap.
  - etransitivity; eassumption.
Qed.

Lemma filter_all_list {A} (p : A -> bool) l :
  (forall x, In x l -> p x = true) -> List.filter p l = l.
Proof.
  intros H. induction l as [|x l IH]; [reflexivity|].
  simpl. rewrite (H x) by (left; reflexivity).
  rewrite IH; [reflexivity|]. intros y Hy. apply H. right. exact Hy.
Qed.

Lemma filter_none_list {A} (p : A -> bool) l :
  (forall x, In x l -> p x = false) -> List.filter p l = [].
Proof.
  intros H. induction l as [|x l IH]; [reflexivity|].
  simpl. rewrite (H x) by (left; reflexivity).
  apply IH. intros y Hy. apply H. right. exact Hy.
Qed.

(** The rows selected for one station out of per-station lists. *)
Lemma filter_station_flat_map (h : string -> list RouteRow) stations s :
  (forall s' r, In r (h s') -> row_departure_station_id r = s') ->
  List.NoDup stations ->
  (In s stations ->
   List.filter (departs_from s) (flat_map h stations) = h s)
  /\ (~ In s stations ->
      List.filter (departs_from s) (flat_map h stations) = []).
Proof.
  intros Hh Hnd. induction Hnd as [|s' stations Hnotin Hnd IH].
  - split; [intros []|reflexivity].
  - simpl flat_map. rewrite List.filter_app.
    destruct IH as [IHin IHout].
    destruct (String.eqb_spec s' s) as [->|Hne].
    + rewrite (filter_all_list _ (h s)).
      2:{ intros r Hr. unfold departs_from. apply String.eqb_eq.
          apply Hh. exact Hr. }
      rewrite (IHout Hnotin), app_nil_r.
      split; [reflexivity|]. intros H. exfalso. apply H. left. reflexivity.
    + rewrite (filter_none_list _ (h s')).
      2:{ intros r Hr. unfold departs_from. apply String.eqb_neq.
          rewrite (Hh s' r Hr). exact Hne. }
      simpl. split.
      * intros [H|H]; [contradiction | apply IHin; exact H].
      * intros H. apply IHout. intros Hin. apply H. right. exact Hin.
Qed.

Lemma ordered_partition_departs order_by_count rows s r :
  orders_by_count order_by_count ->
  In r (order_by_count (List.filter (departs_from s) rows)) ->
  In r rows /\ row_departure_station_id r = s.
Proof.
  intros Hob Hr.
  apply (Permutation_in _ (proj1 (Hob _))) in Hr.
  apply List.filter_In in Hr. destruct Hr as [Hin Hd].
  split; [exact Hin|]. apply String.eqb_eq. exact Hd.
Qed.

Lemma In_take {A} n (l : list A) x : In x (take n l) -> In x l.
Proof.
  intros H. rewrite <- (firstn_skipn n l). apply in_or_app. left. exact H.
Qed.

Lemma selected_top_n order_by_count n trips :
  map rr_row (List.filter (fun r => rr_rank r <=? n)
                (ranked_routes order_by_count trips))
  = flat_map
      (fun s => take (Z.to_nat n)
                  (order_by_count
                     (List.filter (departs_from s) (route_stats trips))))
      (distinct String.eqb (map row_departure_station_id (route_stats trips))).
Proof.
  unfold ranked_routes.
  rewrite filter_flat_map_list, map_flat_map_list.
  apply flat_map_ext_list. intros s.
  rewrite window_rank_filter. f_equal. lia.
Qed.

Lemma selected_top_n_of_station order_by_count n trips s :
  orders_by_count order_by_count ->
  List.filter (departs_from s)
    (map rr_row (List.filter (fun r => rr_rank r <=? n)
                   (ranked_routes order_by_count trips)))
  = take (Z.to_nat n)
      (order_by_count (List.filter (departs_from s) (route_stats trips))).
Proof.
  intros Hob. rewrite selected_top_n.
  set (h := fun s' =>
              take (Z.to_nat n)
                (order_by_count
                   (List.filter (departs_from s') (route_stats trips)))).
  set (stations := distinct String.eqb
                     (map row_departure_station_id (route_stats trips))).
  assert (forall s' r, In r (h s') -> row_departure_station_id r = s') as Hh.
  { intros s' r Hr. apply In_take in Hr.
    eapply ordered_partition_departs; eassumption. }
  assert (List.NoDup stations) as Hnd
    by (apply distinct_NoDup; apply String.eqb_eq).
  destruct (filter_station_flat_map h stations s Hh Hnd) as [Hin Hout].
  destruct (in_dec string_dec s stations) as [Hs|Hs].
  - apply Hin. exact Hs.
  - rewrite (Hout Hs).
    assert (List.filter (departs_from s) (route_stats trips) = []) as Hnone.
    { apply filter_none_list. intros r Hr. unfold departs_from.
      apply String.eqb_neq. intros Heq. apply Hs.
      apply In_distinct; [apply String.eqb_eq|].
      apply in_map_iff. exists r. auto. }
    rewrite Hnone.
    pose proof (proj1 (Hob [])) as Hp. symmetry in Hp.
    apply Permutation_nil in Hp. rewrite Hp, firstn_nil. reflexivity.
Qed.

Lemma collect_by_station_spec rows :
  Forall valid_row rows ->
  forall m,
  exists m',
    collect_by_station rows m = Ok m'
    /\ (forall s, default [] (m' !! s)
                  = default [] (m !! s)
                    ++ map stats_of_row (List.filter (departs_from s) rows))
    /\ (forall s, m' !! s = None
                  <-> m !! s = None /\ List.filter (departs_from s) rows = []).
Proof.
  induction 1 as [|r rows Hr _ IH]; intros m.
  - exists m. split; [reflexivity|]. split.
    + intros s. simpl. rewrite app_nil_r. reflexivity.
    + intros s. simpl. tauto.
  - cbn [collect_by_station]. rewrite (row_to_RouteStatistics_valid r Hr). simpl.
    destruct (IH (dict_append m (row_departure_station_id r) (stats_of_row r)))
      as (m' & Hrun & Hlist & Hnone).
    exists m'. split; [exact Hrun|]. split.
    + intros s. rewrite Hlist, dict_append_lookup, <- app_assoc. f_equal.
      unfold departs_from at 2.
      destruct (String.eqb (row_departure_station_id r) s); reflexivity.
    + intros s. rewrite Hnone, dict_append_None.
      unfold departs_from at 2.
      destruct (String.eqb_spec (row_departure_station_id r) s);
        split; intros H; try tauto;
        try (destruct H as [_ H]; discriminate).
Qed.

Lemma selected_top_n_valid order_by_count n trips :
  orders_by_count order_by_count ->
  Forall valid_trip trips ->
  Forall valid_row
    (map rr_row (List.filter (fun r => rr_rank r <=? n)
                   (ranked_routes order_by_count trips))).
Proof.
  intros Hob Hv. rewrite selected_top_n.
  pose proof (route_stats_valid trips Hv) as Hrows.
  rewrite List.Forall_forall in Hrows.
  apply List.Forall_forall. intros r Hr.
  apply in_flat_map in Hr. destruct Hr as (s & _ & Hr).
  apply In_take in Hr.
  apply Hrows. eapply ordered_partition_departs; eassumption.
Qed.

Lemma top_n_per_station order_by_count order_by_station_count n trips :
  orders_by_count order_by_count ->
  orders_by_station_count order_by_station_count ->
  Forall valid_trip trips ->
  1 <= n ->
  exists result,
    get_routes_by_station_top_n order_by_count order_by_station_count n trips
    = Ok result
    /\ forall s,
         let pairs_of_s := List.filter (departs_from s) (route_stats trips) in
         let routes_of_s := default [] (result !! s) in
         Z.of_nat (length routes_of_s) = Z.min n (Z.of_nat (length pairs_of_s))
         /\ descending routes_of_s
         /\ Permutation routes_of_s
              (map stats_of_row (take (Z.to_nat n) (order_by_count pairs_of_s)))
         /\ routes_of_s
            = map stats_of_row
                (List.filter (departs_from s)
                   (query_station_top_n order_by_count order_by_station_count
                      n trips))
         /\ (result !! s = None <-> pairs_of_s = []).
Proof.
  intros Hob Hobs Hv Hn.
  unfold get_routes_by_station_top_n.
  set (rows := query_station_top_n order_by_count order_by_station_count n trips).
  set (selected := map rr_row
                     (List.filter (fun r => rr_rank r <=? n)
                        (ranked_routes order_by_count trips))).
  assert (rows = order_by_station_count selected) as Hrows by reflexivity.
  assert (Forall valid_row rows) as Hvalid.
  { rewrite Hrows.
    apply (Forall_perm_list _ selected); [symmetry; apply Hobs|].
    apply selected_top_n_valid; assumption. }
  destruct (collect_by_station_spec rows Hvalid ∅) as (m & Hrun & Hlist & Hnone).
  exists m. split; [exact Hrun|].
  intros s.
  set (pairs_of_s := List.filter (departs_from s) (route_stats trips)).
  set (routes_of_s := default [] (m !! s)).
  assert (routes_of_s = map stats_of_row (List.filter (departs_from s) rows))
    as Hroutes.
  { unfold routes_of_s. rewrite Hlist, lookup_empty. reflexivity. }
  assert (Permutation (List.filter (departs_from s) rows)
            (take (Z.to_nat n) (order_by_count pairs_of_s))) as Hperm.
  { rewrite Hrows.
    rewrite (Permutation_filter_list _ _ _ (proj1 (Hobs selected))).
    unfold selected. rewrite selected_top_n_of_station by assumption.
    reflexivity. }
  assert (Z.of_nat (length routes_of_s)
          = Z.min n (Z.of_nat (length pairs_of_s))) as Hlen.
  { rewrite Hroutes, length_map, (Permutation_length Hperm), length_take.
    rewrite (Permutation_length (proj1 (Hob pairs_of_s))). lia. }
  split; [exact Hlen|]. split; [|split; [|split]].
  - rewrite Hroutes. apply descending_stats_of_rows.
    rewrite Hrows. apply Hobs.
  - rewrite Hroutes. apply Permutation_map. exact Hperm.
  - exact Hroutes.
  - rewrite Hnone. split.
    + intros [_ Hf].
      assert (length routes_of_s = 0%nat) as H0
        by (rewrite Hroutes, Hf; reflexivity).
      destruct pairs_of_s; [reflexivity | simpl in Hlen; lia].
    + intros Hp. split; [apply lookup_empty|].
      rewrite Hp in Hlen. simpl in Hlen.
      rewrite Hroutes, length_map in Hlen.
      destruct (List.filter (departs_from s) rows); [reflexivity|].
      simpl in Hlen. lia.
Qed.

Lemma trips_between_valid dep ret n : Forall valid_trip (trips_between dep ret n).
Proof.
  unfold trips_between. apply List.Forall_forall. intros t Ht.
  apply repeat_spec in Ht. subst t.
  split; intros d Hd; simpl in Hd; inversion Hd; discriminate.
Qed.

Lemma scenario_trips_valid : Forall valid_trip scenario_trips.
Proof.
  unfold scenario_trips. repeat apply Forall_app_2; apply trips_between_valid.
Qed.



(** ** Coverage per station *)

(** C1 at its failing input.  Station 030 has 8 trips, 4, 3 and 1 to
    three stations.  For 60 percent the query keeps the rows whose
    cumulative share is at most 60, which is the first pair alone (50
    percent); accumulating until the share reaches 60, the pair that
    crosses included, gives the first two pairs (87.5 percent), and
    that is what the global selection returns on the same table. *)
Theorem per_station_coverage_stops_before_the_threshold :
  get_routes_by_station_coverage stable_order_by_count
    stable_order_by_station_count 60 coverage_trips
  = Ok {["030" := [mkRouteStatistics "030" "067" 4 1000 300]]}
  /\ select_global_coverage 60 coverage_pairs
     = [mkRouteStatistics "030" "067" 4 1000 300;
        mkRouteStatistics "030" "045" 3 1000 300]
  /\ get_global_coverage_routes stable_order_by_count 60 coverage_trips
     = Ok [mkRouteStatistics "030" "067" 4 1000 300;
           mkRouteStatistics "030" "045" 3 1000 300].
Proof. repeat split; vm_compute; reflexivity. Qed.

(** The first pair of a station is kept even when its share alone
    exceeds the percentage. *)
Lemma per_station_coverage_keeps_the_top_pair :
  get_routes_by_station_coverage stable_order_by_count
    stable_order_by_station_count 10 coverage_trips
  = Ok {["030" := [mkRouteStatistics "030" "067" 4 1000 300]]}.
Proof. vm_compute. reflexivity. Qed.

(** The share is a [float8]: 11 trips of 20 give a share just above
    55, so for 55 percent the second pair is not kept, although 6 and
    5 trips are 55 percent of the station's 20. *)
Lemma per_station_share_is_rounded :
  (55 < coverage_share 11 20)%Q
  /\ get_routes_by_station_coverage stable_order_by_count
       stable_order_by_station_count 55 share_trips
     = Ok {["030" := [mkRouteStatistics "030" "067" 6 1000 300]]}.
Proof. split; vm_compute; reflexivity. Qed.

(** ** More on the generator *)

Section GeneratorTraces.

Variable valhalla : ValhallaConfig.
Variable generation : GenerationConfig.
Variable polyline_roundtrip : string -> option string.

Local Abbreviation step :=
  (attempt_once valhalla generation polyline_roundtrip).
Local Abbreviation loop :=
  (retry_loop valhalla generation polyline_roundtrip).
Local Abbreviation generate :=
  (generate_route valhalla generation polyline_roundtrip).
Local Abbreviation batch :=
  (generate_batch valhalla generation polyline_roundtrip).
Local Abbreviation request := (request_data valhalla generation).
Local Abbreviation retries := (retried_effects valhalla generation).

Lemma attempt_once_effects attempt reply f t g :
  match step attempt reply f t g with
  | Returned g' _ => effects g' = effects g ++ [EvPost (request f t)]
  | NextAttempt g' =>
      effects g'
      = effects g ++ [EvPost (request f t);
                      EvSleep (retry_delay_seconds valhalla)]
      /\ attempt < max_retries valhalla
  end.
Proof.
  step_cases; rewrite <- ?app_assoc; try reflexivity;
    (split; [reflexivity | lia]).
Qed.

Lemma retry_loop_trace replies f t remaining :
  forall attempt g,
    (0 < remaining)%nat ->
    attempt + Z.of_nat remaining = max_retries valhalla + 1 ->
    exists k : nat,
      (1 <= k <= remaining)%nat
      /\ total_requests (fst (loop remaining attempt replies f t g))
         = total_requests g + Z.of_nat k
      /\ effects (fst (loop remaining attempt replies f t g))
         = effects g ++ retries f t (k - 1) ++ [EvPost (request f t)].
Proof.
  induction remaining as [|remaining IH]; intros attempt g Hpos Hsum; [lia|].
  cbn [retry_loop].
  pose proof (attempt_once_effects attempt (replies attempt) f t g) as He.
  pose proof (attempt_once_requests valhalla generation polyline_roundtrip
                attempt (replies attempt) f t g) as Hr.
  destruct (step attempt (replies attempt) f t g) as [g1 r|g1]; simpl in Hr.
  - exists 1%nat. simpl. repeat split; try lia; assumption.
  - destruct He as [He Hlt].
    destruct (IH (attempt + 1) g1) as (k & Hk & Hreq & Heff); [lia | lia |].
    exists (S k). split; [lia|]. split; [lia|].
    rewrite Heff, He, <- app_assoc.
    replace (S k - 1)%nat with (S (k - 1)) by lia.
    reflexivity.
Qed.



Lemma new_RouteGeometry_ok_valid key dep ret poly dist dur geom :
  new_RouteGeometry key dep ret poly dist dur = Ok geom ->
  geom = mkRouteGeometry key dep ret poly dist dur /\ valid_geometry geom.
Proof.
  unfold new_RouteGeometry, valid_geometry.
  destruct (String.eqb_spec poly "") as [|Hp]; [discriminate|].
  destruct (Qlt_bool dist 0) eqn:Ed; [discriminate|].
  destruct (Qlt_bool dur 0) eqn:Et; [discriminate|].
  intros H. inversion H; subst. simpl.
  apply Qlt_bool_false_iff in Ed. apply Qlt_bool_false_iff in Et. auto.
Qed.

Lemma attempt_once_ledger attempt reply f t g :
  match step attempt reply f t g with
  | Returned g' (Some geom) =>
      failed_routes g' = failed_routes g /\ valid_geometry geom
  | Returned g' None =>
      exists l, failed_routes g' = failed_routes g ++ l /\ (length l <= 1)%nat
  | NextAttempt g' => failed_routes g' = failed_routes g
  end.
Proof.
  step_cases; try reflexivity;
    try (eexists; split; [reflexivity | simpl; lia]);
    try (exists []; split; [symmetry; apply app_nil_r | simpl; lia]).
  split; [reflexivity|].
  match goal with
  | E : new_RouteGeometry _ _ _ _ _ _ = Ok _ |- _ =>
      apply new_RouteGeometry_ok_valid in E; apply E
  end.
Qed.

Lemma retry_loop_ledger replies f t remaining :
  forall attempt g,
    match loop remaining attempt replies f t g with
    | (g', Some geom) =>
        failed_routes g' = failed_routes g /\ valid_geometry geom
    | (g', None) =>
        exists l, failed_routes g' = failed_routes g ++ l /\ (length l <= 1)%nat
    end.
Proof.
  induction remaining as [|remaining IH]; intros attempt g.
  - simpl. exists []. split; [symmetry; apply app_nil_r | simpl; lia].
  - cbn [retry_loop].
    pose proof (attempt_once_ledger attempt (replies attempt) f t g) as Hl.
    destruct (step attempt (replies attempt) f t g) as [g1 r|g1].
    + exact Hl.
    + specialize (IH (attempt + 1) g1). rewrite Hl in IH. exact IH.
Qed.

Lemma batch_loop_output replies station_pairs :
  forall i g routes,
    exists new,
      snd (batch_loop valhalla generation polyline_roundtrip
             i replies station_pairs g routes) = routes ++ new
      /\ Forall valid_geometry new
      /\ Forall (fun geom =>
                   g_route_key geom
                   = canonical_key (g_departure_station_id geom)
                       (g_return_station_id geom)) new
      /\ sublist (map endpoints_of new) (map stations_of station_pairs).
Proof.
  induction station_pairs as [|[f t] rest IH]; intros i g routes.
  - exists []. simpl. rewrite app_nil_r. repeat split; constructor.
  - cbn [batch_loop].
    pose proof (retry_loop_ledger (replies i) f t
                  (Z.to_nat (max_retries valhalla)) 1 g) as Hl.
    destruct (generate (replies i) f t g) as [g1 [geom|]] eqn:E.
    + unfold generate_route in E. rewrite E in Hl. destruct Hl as [_ Hv].
      apply retry_loop_some in E. destruct E as (Hk & Hd & Hr).
      destruct (IH (i + 1) g1 (routes ++ [geom])) as (new & Hout & Hval & Hkey & Hsub).
      exists (geom :: new). rewrite Hout, <- app_assoc.
      split; [reflexivity|]. split; [constructor; assumption|].
      split.
      * constructor; [|exact Hkey]. rewrite Hk, Hd, Hr. reflexivity.
      * simpl. unfold endpoints_of at 1, stations_of at 1. simpl.
        rewrite Hd, Hr. apply sublist_skip. exact Hsub.
    + destruct (IH (i + 1) g1 routes) as (new & Hout & Hval & Hkey & Hsub).
      exists new. split; [exact Hout|]. split; [exact Hval|].
      split; [exact Hkey|]. simpl. apply sublist_cons. exact Hsub.
Qed.

(** X2. Whatever the service answers, the geometries returned by
    [generate_batch] satisfy the constructor's checks, carry the
    canonical key of their two stations, follow the order of the
    requested pairs (a pair is dropped, never added, moved or
    repeated), and [organize_by_station] accepts them with any
    bidirectional map without raising. *)
Theorem generate_batch_output replies station_pairs g :
  let routes := snd (batch replies station_pairs g) in
  Forall valid_geometry routes
  /\ Forall (fun geom =>
               g_route_key geom
               = canonical_key (g_departure_station_id geom)
                   (g_return_station_id geom)) routes
  /\ sublist (map endpoints_of routes) (map stations_of station_pairs)
  /\ forall bidirectional_map,
       exists station_routes,
         organize_by_station routes bidirectional_map = Ok station_routes.
Proof.
  intros routes. subst routes. unfold generate_batch.
  destruct (batch_loop_output replies station_pairs 1 g [])
    as (new & Hout & Hval & Hkey & Hsub).
  rewrite Hout. simpl.
  split; [exact Hval|]. split; [exact Hkey|]. split; [exact Hsub|].
  intros bm.
  destruct (organize_loop_spec bm new Hval ∅) as (m & Hm & _).
  exists m. exact Hm.
Qed.


Lemma generate_route_without_attempts replies f t g :
  max_retries valhalla <= 0 -> generate replies f t g = (g, None).
Proof.
  intros H. unfold generate_route.
  replace (Z.to_nat (max_retries valhalla)) with 0%nat by lia. reflexivity.
Qed.

(** X3. With [max_retries <= 0] the loop of [generate_route] has no
    iteration: a batch returns no route, sends no request and counts
    nothing, not even a failure. *)
Theorem generate_batch_without_attempts replies station_pairs g :
  max_retries valhalla <= 0 ->
  generate_batch valhalla generation polyline_roundtrip replies station_pairs g
  = (g, []).
Proof.
  intros H. unfold generate_batch. generalize 1 at 1. generalize (@nil RouteGeometry).
  induction station_pairs as [|[f t] rest IH]; intros routes i; [reflexivity|].
  cbn [batch_loop]. rewrite generate_route_without_attempts by assumption.
  apply IH.
Qed.



Lemma attempt_once_generated attempt reply f t g :
  let g' := step_generator (step attempt reply f t g) in
  0 <= routes_generated g' - routes_generated g
  <= total_requests g' - total_requests g.
Proof. step_cases; lia. Qed.

Lemma retry_loop_generated replies f t remaining :
  forall attempt g,
    let g' := fst (loop remaining attempt replies f t g) in
    0 <= routes_generated g' - routes_generated g
    <= total_requests g' - total_requests g.
Proof.
  induction remaining as [|remaining IH]; intros attempt g; simpl; [lia|].
  pose proof (attempt_once_generated attempt (replies attempt) f t g) as Hs.
  destruct (step attempt (replies attempt) f t g) as [g1 r|g1]; simpl in *.
  - exact Hs.
  - specialize (IH (attempt + 1) g1). simpl in IH. lia.
Qed.

Lemma batch_loop_generated replies station_pairs :
  forall i g routes,
    let g' := fst (batch_loop valhalla generation polyline_roundtrip
                     i replies station_pairs g routes) in
    0 <= routes_generated g' - routes_generated g
    <= total_requests g' - total_requests g.
Proof.
  induction station_pairs as [|[f t] rest IH]; intros i g routes; simpl; [lia|].
  pose proof (retry_loop_generated (replies i) f t
                (Z.to_nat (max_retries valhalla)) 1 g) as Hs.
  unfold generate_route.
  destruct (loop (Z.to_nat (max_retries valhalla)) 1 (replies i) f t g)
    as [g1 r]. simpl in Hs.
  match goal with
  | |- context [batch_loop _ _ _ ?j _ _ _ ?rs] => specialize (IH j g1 rs)
  end.
  simpl in IH. lia.
Qed.

End GeneratorTraces.

Lemma py_round_bounds (x : Q) (ndigits lo hi : Z) :
  0 <= ndigits ->
  (inject_Z lo <= x)%Q -> (x <= inject_Z hi)%Q ->
  (inject_Z lo <= py_round x ndigits)%Q /\ (py_round x ndigits <= inject_Z hi)%Q.
Proof.
  intros Hn Hlo Hhi. unfold py_round.
  set (s := 10 ^ ndigits).
  assert (0 < s) as Hs by (apply Z.pow_pos_nonneg; lia).
  assert (0 < inject_Z s)%Q as HsQ.
  { change 0%Q with (inject_Z 0). rewrite <- Zlt_Qlt. exact Hs. }
  set (y := (x * inject_Z s)%Q).
  assert (inject_Z (lo * s) <= y)%Q as Hylo.
  { rewrite inject_Z_mult. unfold y. apply Qmult_le_compat_r; [exact Hlo|].
    apply Qlt_le_weak. exact HsQ. }
  assert (y <= inject_Z (hi * s))%Q as Hyhi.
  { rewrite inject_Z_mult. unfold y. apply Qmult_le_compat_r; [exact Hhi|].
    apply Qlt_le_weak. exact HsQ. }
  assert (lo * s <= Qfloor y) as Hflo.
  { rewrite <- (Qfloor_Z (lo * s)). apply Qfloor_resp_le. exact Hylo. }
  assert (Qfloor y <= hi * s) as Hfhi.
  { rewrite <- (Qfloor_Z (hi * s)). apply Qfloor_resp_le. exact Hyhi. }
  set (nearest :=
         if Qlt_bool (y - inject_Z (Qfloor y)) (1 # 2) then Qfloor y
         else if Qlt_bool (1 # 2) (y - inject_Z (Qfloor y)) then Qfloor y + 1
         else if Z.even (Qfloor y) then Qfloor y else Qfloor y + 1).
  assert (lo * s <= nearest <= hi * s) as Hnear.
  { assert (Qlt_bool (y - inject_Z (Qfloor y)) (1 # 2) = false ->
            Qfloor y + 1 <= hi * s) as Hup.
    { intros Hrest. apply Qlt_bool_false_iff in Hrest.
      destruct (Z.eq_dec (Qfloor y) (hi * s)) as [Heq|Hne]; [|lia].
      exfalso. rewrite Heq in Hrest.
      assert (y - inject_Z (hi * s) <= 0)%Q as Hle by lra. lra. }
    unfold nearest.
    destruct (Qlt_bool (y - inject_Z (Qfloor y)) (1 # 2)) eqn:E1; [lia|].
    specialize (Hup eq_refl).
    destruct (Qlt_bool (1 # 2) (y - inject_Z (Qfloor y))); [lia|].
    destruct (Z.even (Qfloor y)); lia. }
  fold nearest. rewrite Qred_correct.
  destruct Hnear as [Hn1 Hn2].
  split.
  - apply Qle_shift_div_l; [exact HsQ|].
    rewrite <- inject_Z_mult, <- Zle_Qle. exact Hn1.
  - apply Qle_shift_div_r; [exact HsQ|].
    rewrite <- inject_Z_mult, <- Zle_Qle. exact Hn2.
Qed.

(** X5. A batch keeps [routes_generated] between 0 and
    [total_requests], so the success rate reported by [get_statistics]
    is a percentage between 0 and 100, and it is 0 when no request was
    sent. *)
Theorem success_rate_is_a_percentage
    (valhalla : ValhallaConfig) (generation : GenerationConfig)
    (polyline_roundtrip : string -> option string)
    (replies : Z -> Z -> Reply)
    (station_pairs : list (StationCoordinate * StationCoordinate))
    (g : Generator) :
  0 <= routes_generated g <= total_requests g ->
  let g' := fst (generate_batch valhalla generation polyline_roundtrip
                   replies station_pairs g) in
  let stats := get_statistics g' in
  0 <= routes_generated g' <= total_requests g'
  /\ (0 <= success_rate_pct stats)%Q
  /\ (success_rate_pct stats <= 100)%Q
  /\ (st_total_requests stats = 0 -> success_rate_pct stats = 0%Q).
Proof.
  intros Hg g' stats. subst stats g'. unfold generate_batch.
  pose proof (batch_loop_generated valhalla generation polyline_roundtrip
                replies station_pairs 1 g []) as H.
  set (g' := fst (batch_loop valhalla generation polyline_roundtrip 1 replies
                    station_pairs g [])) in *.
  simpl in H. split; [lia|].
  unfold get_statistics. simpl.
  assert (forall x, (0 <= x)%Q -> (x <= 100)%Q ->
                    (0 <= py_round x 2)%Q /\ (py_round x 2 <= 100)%Q) as Hround.
  { intros x H0 H100.
    exact (py_round_bounds x 2 0 100 ltac:(lia) H0 H100). }
  destruct (Z.ltb_spec 0 (total_requests g')) as [Hpos|Hzero].
  - assert (0 < inject_Z (total_requests g'))%Q as HposQ.
    { change 0%Q with (inject_Z 0). rewrite <- Zlt_Qlt. exact Hpos. }
    assert (0 <= inject_Z (routes_generated g'))%Q as Hgen0.
    { change 0%Q with (inject_Z 0). rewrite <- Zle_Qle. lia. }
    assert (inject_Z (routes_generated g') <= inject_Z (total_requests g'))%Q
      as Hgen1 by (rewrite <- Zle_Qle; lia).
    set (rate := (inject_Z (routes_generated g')
                  / inject_Z (total_requests g') * 100)%Q).
    assert (0 <= rate)%Q as H0.
    { unfold rate. apply Qmult_le_0_compat; [|discriminate].
      apply Qle_shift_div_l; [exact HposQ|]. lra. }
    assert (rate <= 100)%Q as H100.
    { unfold rate.
      assert (inject_Z (routes_generated g') / inject_Z (total_requests g')
              <= 1)%Q as H1.
      { apply Qle_shift_div_r; [exact HposQ|]. lra. }
      lra. }
    destruct (Hround rate H0 H100) as [R0 R100].
    split; [exact R0|]. split; [exact R100|]. intros Hz. lia.
  - destruct (Hround 0%Q ltac:(discriminate) ltac:(discriminate)) as [R0 R100].
    split; [exact R0|]. split; [exact R100|]. intros _. reflexivity.
Qed.

Lemma success_rate_is_a_percentage_witness :
  0 <= routes_generated new_Generator <= total_requests new_Generator
  /\ (success_rate_pct
        (get_statistics
           (fst (generate_batch default_valhalla default_generation
                   keep_encoding (fun _ => always timed_out)
                   [(station_030, station_067)] new_Generator)))
      <= 100)%Q.
Proof.
  assert (0 <= routes_generated new_Generator <= total_requests new_Generator)
    as H by (simpl; lia).
  split; [exact H|].
  exact (proj1 (proj2 (proj2
    (success_rate_is_a_percentage default_valhalla default_generation
       keep_encoding (fun _ => always timed_out)
       [(station_030, station_067)] new_Generator H)))).
Defined.


Lemma generate_batch_without_attempts_witness :
  max_retries (mkValhallaConfig "http://localhost:8002" 30 0 1 100 20) <= 0
  /\ generate_batch (mkValhallaConfig "http://localhost:8002" 30 0 1 100 20)
       default_generation keep_encoding
       (fun _ => always (Response 200 (BodyTrip [a_leg])))
       [(station_030, station_067)] new_Generator
     = (new_Generator, []).
Proof.
  assert (max_retries (mkValhallaConfig "http://localhost:8002" 30 0 1 100 20)
          <= 0) as H by (simpl; lia).
  split; [exact H|].
  exact (generate_batch_without_attempts
           (mkValhallaConfig "http://localhost:8002" 30 0 1 100 20)
           default_generation keep_encoding
           (fun _ => always (Response 200 (BodyTrip [a_leg])))
           [(station_030, station_067)] new_Generator H).
Defined.


(** ** Canonical keys across the modules *)

Lemma append_dash_inj a c b d :
  dash_free a -> dash_free c ->
  (a ++ "-" ++ b)%string = (c ++ "-" ++ d)%string -> a = c /\ b = d.
Proof.
  revert c. induction a as [|x a IH]; intros [|y c] Ha Hc H; simpl in *.
  - inversion H. auto.
  - inversion H. subst. destruct Hc as [Hc _]. contradiction.
  - inversion H. subst. destruct Ha as [Ha _]. contradiction.
  - inversion H. subst. destruct Ha as [_ Ha]. destruct Hc as [_ Hc].
    destruct (IH c Ha Hc) as [-> ->]; auto.
Qed.

Lemma canonical_key_inj a b c d :
  dash_free a -> dash_free b -> dash_free c -> dash_free d ->
  canonical_key a b = canonical_key c d ->
  (a, b) = (c, d) \/ (a, b) = (d, c).
Proof.
  intros Ha Hb Hc Hd. unfold canonical_key.
  destruct (b <? a)%string, (d <? c)%string; intros H;
    apply append_dash_inj in H; try assumption;
    destruct H as [-> ->]; auto.
Qed.

(** X6. The canonical key of two identifiers without a dash determines
    the two identifiers up to their order: two routes bear the same key
    only when they join the same two stations.  An identifier with a
    dash breaks this: the pairs ("1-2", "3") and ("1", "2-3") share a
    key. *)
Theorem route_key_determines_the_stations :
  (forall a b : RouteStatistics,
     dash_free (departure_station_id a) -> dash_free (return_station_id a) ->
     dash_free (departure_station_id b) -> dash_free (return_station_id b) ->
     route_key a = route_key b ->
     ordered_pair a = ordered_pair b \/ ordered_pair a = swap_pair (ordered_pair b))
  /\ canonical_key "1-2" "3" = canonical_key "1" "2-3".
Proof.
  split; [|reflexivity].
  intros a b Ha1 Ha2 Hb1 Hb2 H. unfold route_key in H.
  apply canonical_key_inj in H; assumption.
Qed.

Lemma route_key_determines_the_stations_witness :
  ordered_pair stats_030_067 = ordered_pair stats_067_030
  \/ ordered_pair stats_030_067 = swap_pair (ordered_pair stats_067_030).
Proof.
  apply (proj1 route_key_determines_the_stations stats_030_067 stats_067_030);
    simpl; try reflexivity; repeat split; discriminate.
Defined.

Lemma filter_key_route_key (r : RouteStatistics) : filter_key r = route_key r.
Proof.
  unfold filter_key, route_key, canonical_key, py_min, py_max.
  destruct (return_station_id r <? departure_station_id r)%string eqn:E.
  - rewrite (string_ltb_asym _ _ E). reflexivity.
  - destruct (departure_station_id r <? return_station_id r)%string eqn:E';
      [reflexivity|].
    destruct (string_dec (departure_station_id r) (return_station_id r))
      as [->|Hne]; [reflexivity|].
    destruct (string_ltb_total _ _ Hne); congruence.
Qed.

Lemma is_reverse_ltb (route : RouteGeometry) :
  is_reverse route
  = (g_return_station_id route <? g_departure_station_id route)%string.
Proof.
  unfold is_reverse, py_min.
  destruct (g_return_station_id route <? g_departure_station_id route)%string
    eqn:E.
  - destruct (String.eqb_spec (g_departure_station_id route)
                (g_return_station_id route)) as [Heq|]; [|reflexivity].
    rewrite Heq, string_ltb_irrefl in E. discriminate.
  - rewrite String.eqb_refl. reflexivity.
Qed.

(** X7. The three places that put two stations in canonical order
    agree: the key [write_station_routes] builds with [min] and [max]
    for its filter is [route_key], and its direction test on a geometry
    gives [is_reversed] of the statistics with the same two stations;
    a reversed route is the one whose key starts with its return
    station. *)
Theorem canonical_order_is_shared (r : RouteStatistics) (route : RouteGeometry) :
  g_departure_station_id route = departure_station_id r ->
  g_return_station_id route = return_station_id r ->
  filter_key r = route_key r
  /\ is_reverse route = is_reversed r
  /\ route_key r
     = (if is_reversed r
        then return_station_id r ++ "-" ++ departure_station_id r
        else departure_station_id r ++ "-" ++ return_station_id r)%string
  /\ direction (station_entry route)
     = (if is_reversed r then "reverse" else "forward").
Proof.
  intros Hd Hr. split; [apply filter_key_route_key|].
  assert (is_reverse route = is_reversed r) as H.
  { rewrite is_reverse_ltb, Hd, Hr. reflexivity. }
  split; [exact H|]. split; [reflexivity|].
  unfold station_entry. simpl. rewrite H. reflexivity.
Qed.

Lemma canonical_order_is_shared_witness :
  filter_key stats_067_030 = route_key stats_067_030
  /\ is_reverse (mkRouteGeometry "030-067" "067" "030" "u`~nJqafxC_@aA" 2 10)
     = is_reversed stats_067_030.
Proof.
  pose proof (canonical_order_is_shared stats_067_030
                (mkRouteGeometry "030-067" "067" "030" "u`~nJqafxC_@aA" 2 10)
                eq_refl eq_refl) as H.
  split; [exact (proj1 H) | exact (proj1 (proj2 H))].
Defined.

(** ** Deduplication of distinct ordered pairs *)

Lemma NoDup_map_filter_list {A B} (f : A -> B) (p : A -> bool) l :
  List.NoDup (map f l) -> List.NoDup (map f (List.filter p l)).
Proof.
  induction l as [|x l IH]; simpl; intros H; [constructor|].
  inversion H as [|? ? Hnotin Hnd]; subst.
  destruct (p x); [|apply IH; exact Hnd].
  simpl. constructor; [|apply IH; exact Hnd].
  intros Hin. apply Hnotin. apply in_map_iff in Hin.
  destruct Hin as (y & Hy & Hin). apply in_map_iff. exists y.
  split; [exact Hy|]. apply List.filter_In in Hin. apply Hin.
Qed.

Lemma bearing_distinct_pairs P k :
  distinct_pairs P ->
  match bearing k P with
  | [] => True
  | [x] => True
  | [x; y] => ordered_pair y = swap_pair (ordered_pair x)
              /\ ordered_pair x <> ordered_pair y
  | _ :: _ :: _ :: _ => False
  end.
Proof.
  intros [Hdash Hnd].
  pose proof (NoDup_map_filter_list ordered_pair
                (fun r => String.eqb (route_key r) k) P Hnd) as Hb.
  fold (bearing k P) in Hb.
  assert (forall r, In r (bearing k P) ->
                    route_key r = k
                    /\ dash_free (departure_station_id r)
                    /\ dash_free (return_station_id r)) as Hall.
  { intros r Hr. apply bearing_In in Hr. destruct Hr as [Hin Hk].
    split; [exact Hk|]. rewrite List.Forall_forall in Hdash.
    apply Hdash. exact Hin. }
  assert (forall x y, In x (bearing k P) -> In y (bearing k P) ->
                      ordered_pair x = ordered_pair y
                      \/ ordered_pair x = swap_pair (ordered_pair y)) as Hpair.
  { intros x y Hx Hy.
    destruct (Hall x Hx) as (Kx & Dx1 & Dx2).
    destruct (Hall y Hy) as (Ky & Dy1 & Dy2).
    unfold route_key in Kx, Ky.
    apply (canonical_key_inj _ _ _ _ Dx1 Dx2 Dy1 Dy2). congruence. }
  destruct (bearing k P) as [|x [|y [|z rest]]]; try exact I.
  - inversion Hb as [|? ? Hx _]; subst.
    assert (ordered_pair x <> ordered_pair y) as Hne.
    { intros E. apply Hx. left. symmetry. exact E. }
    split; [|exact Hne].
    destruct (Hpair y x) as [E|E]; [right; left; reflexivity | left; reflexivity
                                    | congruence | exact E].
  - inversion Hb as [|? ? Hx Hb']; subst.
    inversion Hb' as [|? ? Hy _]; subst.
    assert (In x (x :: y :: z :: rest)) as Ix by (left; reflexivity).
    assert (In y (x :: y :: z :: rest)) as Iy by (right; left; reflexivity).
    assert (In z (x :: y :: z :: rest)) as Iz
      by (right; right; left; reflexivity).
    destruct (Hpair x y Ix Iy) as [E1|E1].
    { apply Hx. left. symmetry. exact E1. }
    destruct (Hpair x z Ix Iz) as [E2|E2].
    { apply Hx. right. left. symmetry. exact E2. }
    apply Hy. left.
    unfold swap_pair in E1, E2. rewrite E1 in E2.
    destruct (ordered_pair y), (ordered_pair z). simpl in E2.
    inversion E2. reflexivity.
Qed.

Lemma dedup_head_kept (P : list RouteStatistics) k x :
  head (bearing k P) = Some x <->
  In x (fst (deduplicate_bidirectional P)) /\ route_key x = k.
Proof.
  destruct (deduplicate_inv P) as [seen [_ Huniq _ _]].
  rewrite <- bearing_In, Huniq.
  destruct (bearing k P) as [|y l]; simpl; split.
  - discriminate.
  - intros [].
  - intros H. inversion H. left. reflexivity.
  - intros [->|[]]. reflexivity.
Qed.

Lemma dedup_kept_or_recorded (P : list RouteStatistics) r :
  distinct_pairs P ->
  In r P ->
  In r (fst (deduplicate_bidirectional P))
  \/ (snd (deduplicate_bidirectional P) !! route_key r = Some r
      /\ exists u, In u (fst (deduplicate_bidirectional P))
                   /\ route_key u = route_key r
                   /\ ordered_pair u = swap_pair (ordered_pair r)).
Proof.
  intros Hdp Hr.
  destruct (deduplicate_inv P) as [seen [_ _ _ Hrmap]].
  assert (In r (bearing (route_key r) P)) as Hb by (apply bearing_In; auto).
  pose proof (bearing_distinct_pairs P (route_key r) Hdp) as Hshape.
  specialize (Hrmap (route_key r)).
  pose proof (dedup_head_kept P (route_key r)) as Hh.
  destruct (bearing (route_key r) P) as [|x [|y [|z rest]]] eqn:E;
    try contradiction.
  - destruct Hb as [->|[]]. left. apply Hh. reflexivity.
  - destruct Hb as [->|[->|[]]].
    + left. apply Hh. reflexivity.
    + right. split; [exact Hrmap|].
      exists x. destruct (proj1 (Hh x) eq_refl) as [Hx Hk].
      split; [exact Hx|]. split; [exact Hk|].
      destruct Hshape as [Hs _]. unfold swap_pair in *. rewrite Hs.
      destruct (ordered_pair x). reflexivity.
Qed.

Lemma dedup_reverse_record (P : list RouteStatistics) k r :
  distinct_pairs P ->
  snd (deduplicate_bidirectional P) !! k = Some r ->
  In r P /\ route_key r = k /\ ~ In r (fst (deduplicate_bidirectional P)).
Proof.
  intros Hdp Hk.
  destruct (deduplicate_inv P) as [seen [_ _ _ Hrmap]].
  rewrite Hrmap in Hk.
  pose proof (bearing_distinct_pairs P k Hdp) as Hshape.
  pose proof (dedup_head_kept P k r) as Hh.
  assert (forall x, In x (bearing k P) -> In x P /\ route_key x = k) as Hin.
  { intros x Hx. apply bearing_In in Hx. exact Hx. }
  destruct (bearing k P) as [|x [|y [|z rest]]] eqn:E;
    try contradiction; try discriminate.
  simpl in Hk. inversion Hk; subst y.
  destruct (Hin r) as [Hr Hkr]; [right; left; reflexivity|].
  split; [exact Hr|]. split; [exact Hkr|].
  intros Hu. destruct Hh as [_ Hh]. specialize (Hh (conj Hu Hkr)).
  simpl in Hh. inversion Hh; subst x.
  destruct Hshape as [_ Hne]. apply Hne. reflexivity.
Qed.

Lemma dedup_kept_from_input (P : list RouteStatistics) u :
  In u (fst (deduplicate_bidirectional P)) -> In u P.
Proof.
  destruct (deduplicate_inv P) as [seen [_ _ Hsub _]].
  rewrite <- !list_elem_of_In. intros Hu.
  eapply elem_of_sublist; eassumption.
Qed.

(** X8. On identifiers without a dash and a list that holds no ordered
    pair twice, which is what the pipeline passes, deduplication loses
    nothing: each route is either kept, or it is the reverse record
    stored under its key and the kept route of that key joins the same
    two stations the other way round; and a reverse record is never a
    kept route. *)
Theorem deduplicate_loses_no_pair (P : list RouteStatistics) :
  distinct_pairs P ->
  let unique := fst (deduplicate_bidirectional P) in
  let reverse_map := snd (deduplicate_bidirectional P) in
  (forall r, In r P ->
     In r unique
     \/ (reverse_map !! route_key r = Some r
         /\ exists u, In u unique /\ route_key u = route_key r
                      /\ ordered_pair u = swap_pair (ordered_pair r)))
  /\ (forall k r, reverse_map !! k = Some r ->
        In r P /\ route_key r = k /\ ~ In r unique)
  /\ (forall u, In u unique -> In u P).
Proof.
  intros Hdp unique reverse_map. subst unique reverse_map.
  split; [|split].
  - intros r Hr. apply dedup_kept_or_recorded; assumption.
  - intros k r Hk. apply dedup_reverse_record; assumption.
  - intros u Hu. apply dedup_kept_from_input. exact Hu.
Qed.

Lemma deduplicate_loses_no_pair_witness :
  distinct_pairs [stats_030_067; stats_030_045; stats_067_030]
  /\ snd (deduplicate_bidirectional [stats_030_067; stats_030_045; stats_067_030])
       !! route_key stats_067_030 = Some stats_067_030.
Proof.
  assert (distinct_pairs [stats_030_067; stats_030_045; stats_067_030]) as H.
  { split.
    - repeat constructor; simpl; discriminate.
    - simpl. repeat constructor; simpl; intuition discriminate. }
  split; [exact H|].
  destruct (proj1 (deduplicate_loses_no_pair _ H) stats_067_030) as [Hin|[Hr _]].
  - right. right. left. reflexivity.
  - exfalso. vm_compute in Hin. intuition discriminate.
  - exact Hr.
Defined.

(** ** What the statistics count *)

Lemma filter_filter_list {A} (f g : A -> bool) l :
  (forall x, f x = true -> g x = true) ->
  List.filter f (List.filter g l) = List.filter f l.
Proof.
  intros H. induction l as [|x l IH]; [reflexivity|]. simpl.
  destruct (g x) eqn:G; simpl.
  - rewrite IH. reflexivity.
  - destruct (f x) eqn:F; [|exact IH]. rewrite (H x F) in G. discriminate.
Qed.

Lemma filter_ext_list {A} (f g : A -> bool) l :
  (forall x, In x l -> f x = g x) -> List.filter f l = List.filter g l.
Proof.
  induction l as [|x l IH]; intros H; [reflexivity|]. simpl.
  rewrite (H x) by (left; reflexivity).
  rewrite IH by (intros y Hy; apply H; right; exact Hy). reflexivity.
Qed.

Lemma sum_row_count_app l l' :
  sum_row_count (l ++ l') = sum_row_count l + sum_row_count l'.
Proof. induction l as [|x l IH]; simpl; lia. Qed.

Lemma sum_row_count_Permutation l l' :
  Permutation l l' -> sum_row_count l = sum_row_count l'.
Proof. induction 1; simpl; lia. Qed.

Lemma sum_trip_count_stats_of_rows rows :
  sum_trip_count (map stats_of_row rows) = sum_row_count rows.
Proof. induction rows as [|r rows IH]; simpl; [reflexivity | rewrite IH; lia]. Qed.

Lemma aggregate_count_cons t l p :
  row_trip_count (aggregate (t :: l) p)
  = row_trip_count (aggregate l p)
    + (if pair_eqb (trip_pair t) p then 1 else 0).
Proof.
  unfold aggregate, group_of. cbn [row_trip_count List.filter].
  destruct (pair_eqb (trip_pair t) p); cbn [length]; lia.
Qed.

Lemma sum_aggregate_nil keys : sum_row_count (map (aggregate []) keys) = 0.
Proof. induction keys as [|p keys IH]; [reflexivity|]. simpl. exact IH. Qed.

Lemma sum_aggregate_cons t l keys :
  List.NoDup keys ->
  sum_row_count (map (aggregate (t :: l)) keys)
  = sum_row_count (map (aggregate l) keys)
    + (if existsb (pair_eqb (trip_pair t)) keys then 1 else 0).
Proof.
  induction 1 as [|p ks Hp Hks IH]; [reflexivity|].
  cbn [map sum_row_count fold_right existsb].
  fold (sum_row_count (map (aggregate (t :: l)) ks)).
  fold (sum_row_count (map (aggregate l) ks)).
  rewrite IH, aggregate_count_cons.
  destruct (pair_eqb (trip_pair t) p) eqn:E; cbn [orb].
  - apply pair_eqb_eq in E. subst p.
    destruct (existsb (pair_eqb (trip_pair t)) ks) eqn:Ex; [|lia].
    apply existsb_exists in Ex. destruct Ex as (q & Hq & Heq).
    apply pair_eqb_eq in Heq. subst q. contradiction.
  - lia.
Qed.

(** Each trip falls in the group of exactly one key. *)
Lemma groups_partition (ts : list Trip) keys :
  List.NoDup keys ->
  (forall t, In t ts -> In (trip_pair t) keys) ->
  sum_row_count (map (aggregate ts) keys) = Z.of_nat (length ts).
Proof.
  intros Hnd. induction ts as [|t ts IH]; intros Hin.
  - apply sum_aggregate_nil.
  - rewrite (sum_aggregate_cons t ts keys Hnd), IH
      by (intros t' Ht'; apply Hin; right; exact Ht').
    destruct (existsb (pair_eqb (trip_pair t)) keys) eqn:Ex.
    + cbn [length]. lia.
    + exfalso.
      assert (existsb (pair_eqb (trip_pair t)) keys = true) as Ht; [|congruence].
      apply existsb_exists. exists (trip_pair t).
      split; [apply Hin; left; reflexivity | apply pair_eqb_eq; reflexivity].
Qed.

Lemma route_stats_sum trips :
  sum_row_count (route_stats trips) = journeys trips.
Proof.
  unfold route_stats, journeys. fold (where_not_loop trips).
  apply groups_partition.
  - apply distinct_NoDup. apply pair_eqb_eq.
  - intros t Ht. apply In_distinct; [apply pair_eqb_eq|].
    apply in_map. exact Ht.
Qed.

Lemma aggregate_pair ts p :
  (row_departure_station_id (aggregate ts p),
   row_return_station_id (aggregate ts p)) = p.
Proof. destruct p. reflexivity. Qed.

Lemma aggregate_count trips dep ret :
  dep <> ret ->
  row_trip_count (aggregate (where_not_loop trips) (dep, ret))
  = trips_from_to trips dep ret.
Proof.
  intros Hne. unfold aggregate, group_of, where_not_loop, trips_from_to.
  cbn [row_trip_count]. f_equal. f_equal.
  rewrite filter_filter_list.
  - apply filter_ext_list. intros t _. unfold pair_eqb, trip_pair. reflexivity.
  - intros t Ht. apply pair_eqb_eq in Ht. unfold trip_pair in Ht.
    inversion Ht; subst. apply negb_true_iff. apply String.eqb_neq. exact Hne.
Qed.

Lemma route_stats_In trips r :
  In r (route_stats trips) <->
  exists dep ret,
    dep <> ret /\ 1 <= trips_from_to trips dep ret
    /\ r = aggregate (where_not_loop trips) (dep, ret).
Proof.
  unfold route_stats. rewrite in_map_iff. split.
  - intros ([dep ret] & <- & Hp). apply distinct_In in Hp.
    apply in_map_iff in Hp. destruct Hp as (t & Ht & Hin).
    assert (dep <> ret) as Hne.
    { apply List.filter_In in Hin. destruct Hin as [_ Hl].
      unfold trip_pair in Ht. inversion Ht; subst.
      apply negb_true_iff in Hl. apply String.eqb_neq. exact Hl. }
    exists dep, ret. split; [exact Hne|]. split; [|reflexivity].
    rewrite <- (aggregate_count trips dep ret Hne).
    unfold aggregate. cbn [row_trip_count].
    assert (In t (group_of (dep, ret) (where_not_loop trips))) as Hg.
    { apply List.filter_In. split; [exact Hin|]. apply pair_eqb_eq. exact Ht. }
    destruct (group_of (dep, ret) (where_not_loop trips));
      [contradiction | cbn [length]; lia].
  - intros (dep & ret & Hne & Hc & ->). exists (dep, ret).
    split; [reflexivity|]. apply In_distinct; [apply pair_eqb_eq|].
    unfold trips_from_to in Hc.
    destruct (List.filter _ trips) as [|t l] eqn:E; [simpl in Hc; lia|].
    assert (In t (t :: l)) as Ht by (left; reflexivity).
    rewrite <- E in Ht. apply List.filter_In in Ht. destruct Ht as [Hin Hb].
    apply andb_true_iff in Hb. destruct Hb as [Hd Hr].
    apply String.eqb_eq in Hd. apply String.eqb_eq in Hr.
    apply in_map_iff. exists t. split; [unfold trip_pair; congruence|].
    apply List.filter_In. split; [exact Hin|].
    apply negb_true_iff. apply String.eqb_neq. congruence.
Qed.

Lemma route_stats_NoDup trips :
  List.NoDup (map (fun r => (row_departure_station_id r, row_return_station_id r))
                (route_stats trips)).
Proof.
  unfold route_stats. rewrite map_map.
  rewrite (map_ext _ id) by (intros p; apply aggregate_pair).
  rewrite map_id. apply distinct_NoDup. apply pair_eqb_eq.
Qed.

Lemma get_route_statistics_rows order_by_count min_trips trips :
  orders_by_count order_by_count ->
  Forall valid_trip trips ->
  get_route_statistics order_by_count min_trips trips
  = Ok (map stats_of_row
          (query_route_statistics order_by_count min_trips trips)).
Proof.
  intros Hob Hv. unfold get_route_statistics.
  apply rmapM_rows_valid. unfold query_route_statistics.
  apply (Forall_perm_list _ (List.filter (fun r => min_trips <=? row_trip_count r)
                               (route_stats trips))); [symmetry; apply Hob|].
  apply Forall_filter_list. apply route_stats_valid. exact Hv.
Qed.

(** X9. On a table without negative distances or durations
    [get_route_statistics] returns, by descending trip count, one
    route for each ordered pair of distinct stations that has at least
    one trip and at least [min_trips] of them; the trip count of a
    route is the number of trips of the table from its departure to its
    return station, and no ordered pair comes twice. *)
Theorem route_statistics_count_the_trips
    (order_by_count : list RouteRow -> list RouteRow)
    (min_trips : Z) (trips : list Trip) :
  orders_by_count order_by_count ->
  Forall valid_trip trips ->
  exists routes,
    get_route_statistics order_by_count min_trips trips = Ok routes
    /\ descending routes
    /\ List.NoDup (map ordered_pair routes)
    /\ (forall r, In r routes ->
          departure_station_id r <> return_station_id r
          /\ trip_count r
             = trips_from_to trips (departure_station_id r) (return_station_id r)
          /\ 1 <= trip_count r /\ min_trips <= trip_count r)
    /\ (forall dep ret,
          dep <> ret ->
          1 <= trips_from_to trips dep ret ->
          min_trips <= trips_from_to trips dep ret ->
          exists r, In r routes /\ ordered_pair r = (dep, ret)).
Proof.
  intros Hob Hv.
  exists (map stats_of_row (query_route_statistics order_by_count min_trips trips)).
  split; [apply get_route_statistics_rows; assumption|].
  unfold query_route_statistics.
  set (kept := List.filter (fun r => min_trips <=? row_trip_count r)
                 (route_stats trips)).
  destruct (Hob kept) as [Hperm Hdesc].
  assert (forall r, In r (order_by_count kept) <->
                    In r (route_stats trips) /\ min_trips <= row_trip_count r)
    as Hin.
  { intros r. split.
    - intros H. apply (Permutation_in _ Hperm) in H.
      apply List.filter_In in H. destruct H as [H1 H2].
      split; [exact H1 | apply Z.leb_le; exact H2].
    - intros [H1 H2]. apply (Permutation_in _ (Permutation_sym Hperm)).
      apply List.filter_In. split; [exact H1 | apply Z.leb_le; exact H2]. }
  split; [apply descending_stats_of_rows; exact Hdesc|].
  split; [|split].
  - rewrite map_map.
    apply (Permutation_NoDup
             (l := map (fun r => (row_departure_station_id r,
                                  row_return_station_id r)) kept)).
    + apply Permutation_map. symmetry. exact Hperm.
    + apply NoDup_map_filter_list. apply route_stats_NoDup.
  - intros r Hr. apply in_map_iff in Hr. destruct Hr as (row & <- & Hrow).
    apply Hin in Hrow. destruct Hrow as [Hrs Hmin].
    apply route_stats_In in Hrs. destruct Hrs as (dep & ret & Hne & Hc & ->).
    cbn [stats_of_row departure_station_id return_station_id trip_count
         aggregate row_departure_station_id row_return_station_id fst snd].
    fold (aggregate (where_not_loop trips) (dep, ret)) in *.
    change (Z.of_nat (length (group_of (dep, ret) (where_not_loop trips))))
      with (row_trip_count (aggregate (where_not_loop trips) (dep, ret))) in *.
    rewrite (aggregate_count trips dep ret Hne) in *.
    repeat split; assumption.
  - intros dep ret Hne Hc Hmin.
    exists (stats_of_row (aggregate (where_not_loop trips) (dep, ret))).
    split; [|reflexivity].
    apply in_map. apply Hin. split.
    + apply route_stats_In. exists dep, ret. auto.
    + rewrite (aggregate_count trips dep ret Hne). exact Hmin.
Qed.

Lemma route_statistics_count_the_trips_witness :
  exists routes,
    get_route_statistics stable_order_by_count 10 scenario_trips = Ok routes
    /\ descending routes
    /\ forall r, In r routes -> 10 <= trip_count r.
Proof.
  destruct (route_statistics_count_the_trips stable_order_by_count 10
              scenario_trips stable_order_by_count_orders scenario_trips_valid)
    as (routes & Hrun & Hdesc & _ & Hin & _).
  exists routes. split; [exact Hrun|]. split; [exact Hdesc|].
  intros r Hr. apply (Hin r Hr).
Defined.

(** ** Every trip is counted once *)

Lemma filter_map_list {A B} (f : A -> B) (p : B -> bool) l :
  List.filter p (map f l) = map f (List.filter (fun x => p (f x)) l).
Proof.
  induction l as [|x l IH]; [reflexivity|]. simpl.
  destruct (p (f x)); simpl; rewrite IH; reflexivity.
Qed.

Lemma station_rows_sum trips s :
  sum_row_count (List.filter (departs_from s) (route_stats trips))
  = station_trips trips s.
Proof.
  unfold route_stats, station_trips.
  set (ts := where_not_loop trips).
  set (ts_s := List.filter (fun t => String.eqb (t_departure_station_id t) s) ts).
  set (keys := distinct pair_eqb (map trip_pair ts)).
  rewrite filter_map_list.
  set (keys_s := List.filter (fun p => departs_from s (aggregate ts p)) keys).
  assert (forall p, In p keys_s -> fst p = s) as Hfst.
  { intros p Hp. apply List.filter_In in Hp. destruct Hp as [_ Hp].
    unfold departs_from, aggregate in Hp. simpl in Hp.
    apply String.eqb_eq. exact Hp. }
  assert (map (aggregate ts) keys_s = map (aggregate ts_s) keys_s) as Hagg.
  { apply map_ext_in. intros p Hp. unfold aggregate.
    assert (group_of p ts_s = group_of p ts) as ->; [|reflexivity].
    unfold group_of, ts_s. apply filter_filter_list.
    intros t Ht. apply pair_eqb_eq in Ht. rewrite <- (Hfst p Hp), <- Ht.
    apply String.eqb_refl. }
  rewrite Hagg. apply groups_partition.
  - apply List.NoDup_filter. apply distinct_NoDup. apply pair_eqb_eq.
  - intros t Ht. apply List.filter_In in Ht. destruct Ht as [Hin Hs].
    apply List.filter_In. split.
    + apply In_distinct; [apply pair_eqb_eq|]. apply in_map. exact Hin.
    + unfold departs_from, aggregate. simpl. exact Hs.
Qed.

Lemma filter_stats_of_rows s rows :
  List.filter (fun r => String.eqb (departure_station_id r) s)
    (map stats_of_row rows)
  = map stats_of_row (List.filter (departs_from s) rows).
Proof. rewrite filter_map_list. reflexivity. Qed.

(** X10. The routes of [get_all_routes] account for every trip that
    leaves its station, once: their trip counts add up to the number
    of such trips, and those departing from one station add up to the
    total the coverage query divides by for that station. *)
Theorem every_trip_is_counted_once
    (order_by_count : list RouteRow -> list RouteRow) (trips : list Trip) :
  orders_by_count order_by_count ->
  Forall valid_trip trips ->
  exists all_routes,
    get_all_routes order_by_count trips = Ok all_routes
    /\ sum_trip_count all_routes = journeys trips
    /\ forall s,
         sum_trip_count
           (List.filter (fun r => String.eqb (departure_station_id r) s)
              all_routes)
         = station_trips trips s.
Proof.
  intros Hob Hv.
  destruct (get_route_statistics_valid order_by_count trips Hob Hv) as [Hrun _].
  exists (map stats_of_row (order_by_count (route_stats trips))).
  split; [exact Hrun|].
  destruct (Hob (route_stats trips)) as [Hperm _].
  split.
  - rewrite sum_trip_count_stats_of_rows, (sum_row_count_Permutation _ _ Hperm).
    apply route_stats_sum.
  - intros s. rewrite filter_stats_of_rows, sum_trip_count_stats_of_rows.
    rewrite (sum_row_count_Permutation _ _
               (Permutation_filter_list (departs_from s) _ _ Hperm)).
    apply station_rows_sum.
Qed.

Lemma every_trip_is_counted_once_witness :
  exists all_routes,
    get_all_routes stable_order_by_count scenario_trips = Ok all_routes
    /\ sum_trip_count all_routes = 100.
Proof.
  destruct (every_trip_is_counted_once stable_order_by_count scenario_trips
              stable_order_by_count_orders scenario_trips_valid)
    as (all_routes & Hrun & Hsum & _).
  exists all_routes. split; [exact Hrun|]. rewrite Hsum. reflexivity.
Defined.

(** ** Coverage per station, in general *)

Lemma float_of_int_100 : (float_of_int 100 == 100)%Q.
Proof. exact (binary64_Z 100 ltac:(simpl; lia)). Qed.

Lemma float_of_int_ge_1 (n : Z) : 1 <= n -> (1 <= float_of_int n)%Q.
Proof.
  intros H. rewrite <- binary64_1. apply binary64_mono.
  change 1%Q with (inject_Z 1). rewrite <- Zle_Qle. exact H.
Qed.

Lemma coverage_share_mono total c c' :
  0 < total -> c <= c' ->
  (coverage_share c total <= coverage_share c' total)%Q.
Proof.
  intros Ht Hc. unfold coverage_share.
  pose proof (float_of_int_ge_1 total ltac:(lia)) as HT.
  pose proof float_of_int_100 as E100.
  apply float_mul_mono_r; [lra|].
  apply float_div_mono; [lra|].
  apply float_of_int_mono. exact Hc.
Qed.

Lemma coverage_share_le_100 total c :
  0 < total -> c <= total -> (coverage_share c total <= 100)%Q.
Proof.
  intros Ht Hc. unfold coverage_share.
  pose proof (float_of_int_ge_1 total ltac:(lia)) as HT.
  pose proof (float_of_int_mono c total Hc) as Hct.
  pose proof float_of_int_100 as E100.
  assert (float_div (float_of_int c) (float_of_int total) <= 1)%Q as Hq.
  { unfold float_div. rewrite <- binary64_1. apply binary64_mono.
    apply Qle_shift_div_r; lra. }
  apply (Qle_trans _ (float_of_int 100)); [|lra].
  unfold float_mul. unfold float_of_int at 4.
  apply binary64_mono. change (inject_Z 100) with 100%Q.
  set (q := float_div (float_of_int c) (float_of_int total)) in *.
  set (h := float_of_int 100) in *. nra.
Qed.

(** For counts that are binary64 numbers, the share the query computes
    is within a relative error of [2 ^ -51] of the exact one. *)
Lemma coverage_share_error total c :
  1 <= c <= total -> total <= 2 ^ 53 ->
  ((1 - 2 ^ (-51)) * share_of total c <= coverage_share c total)%Q
  /\ (coverage_share c total <= (1 + 2 ^ (-51)) * share_of total c)%Q.
Proof.
  intros Hc Ht. unfold coverage_share, share_of, float_mul, float_div.
  pose proof (float_of_int_exact c ltac:(lia)) as Ec.
  pose proof (float_of_int_exact total ltac:(lia)) as Et.
  pose proof float_of_int_100 as E100.
  assert (1 <= inject_Z c)%Q as HC.
  { change 1%Q with (inject_Z 1). rewrite <- Zle_Qle. lia. }
  assert (inject_Z c <= inject_Z total)%Q as HCT
    by (rewrite <- Zle_Qle; lia).
  assert (inject_Z total <= 2 ^ 53)%Q as HT.
  { rewrite (pow2_Z 53) by lia. rewrite <- Zle_Qle. lia. }
  set (fc := float_of_int c) in *. set (ft := float_of_int total) in *.
  set (h := float_of_int 100) in *.
  set (C := inject_Z c) in *. set (T := inject_Z total) in *.
  assert (fc / ft == C / T)%Q as Eq.
  { apply Qdiv_comp; assumption. }
  assert (2 ^ (-53) <= fc / ft)%Q as Hq.
  { rewrite Eq. apply Qle_shift_div_l; [lra|].
    assert (2 ^ (-53) * 2 ^ 53 == 1)%Q as E1
      by (rewrite <- pow2_add; reflexivity).
    pose proof (pow2_pos (-53)). nra. }
  assert (2 ^ (-1022) <= 2 ^ (-53))%Q as Hmin
    by (apply pow2_le; lia).
  destruct (binary64_error (fc / ft) ltac:(lra)) as [Q1 Q2].
  assert (2 ^ (-53) <= binary64 (fc / ft))%Q as HQ.
  { rewrite <- (binary64_pow2 (-53)) by lia. apply binary64_mono. exact Hq. }
  pose proof (pow2_pos (-53)) as Hu.
  assert (2 ^ (-53) <= 1)%Q as Hu1 by (apply (pow2_le (-53) 0); lia).
  assert (2 ^ (-51) == 4 * 2 ^ (-53))%Q as Eu by reflexivity.
  set (q := (fc / ft)%Q) in *. set (bq := binary64 q) in *.
  assert (2 ^ (-1022) <= bq * h)%Q as Hx by nra.
  destruct (binary64_error (bq * h) Hx) as [X1 X2].
  set (s := binary64 (bq * h)) in *.
  assert (C / T * 100 == q * 100)%Q as Es by (rewrite Eq; reflexivity).
  rewrite Eu, Es.
  set (u := (2 ^ (-53))%Q) in *.
  assert (0 < q)%Q as Hqpos by lra.
  assert (q * 100 * (1 - u) <= bq * h)%Q as Y1 by nra.
  assert (bq * h <= q * 100 * (1 + u))%Q as Y2 by nra.
  set (x := (bq * h)%Q) in *.
  assert (0 <= q * 100)%Q as He by nra.
  set (e := (q * 100)%Q) in *.
  split; nra.
Qed.

Lemma map_rr_row_window total rows :
  forall cum k, map rr_row (window total cum k rows) = rows.
Proof.
  induction rows as [|r rows IH]; intros cum k; [reflexivity|].
  simpl. rewrite IH. reflexivity.
Qed.

Lemma window_beyond pct total rows :
  forall cum k,
    0 < total -> 1 < k ->
    Forall (fun r => 0 <= row_trip_count r) rows ->
    (pct < coverage_share cum total)%Q ->
    List.filter (fun r => Qle_bool (coverage_of r) pct || (rr_rank r =? 1))
      (window total cum k rows) = [].
Proof.
  induction rows as [|r rows IH]; intros cum k Ht Hk Hpos Hlt; [reflexivity|].
  inversion Hpos as [|? ? Hr Hrows]; subst.
  cbn [window List.filter].
  assert (pct < coverage_share (cum + row_trip_count r) total)%Q as Hlt'.
  { eapply Qlt_le_trans; [exact Hlt|]. apply coverage_share_mono; lia. }
  replace (Qle_bool (coverage_of
             (mkRankedRow r total (cum + row_trip_count r) k)) pct) with false.
  2:{ symmetry. apply not_true_is_false. intros H. apply Qle_bool_iff in H.
      unfold coverage_of in H. simpl in H.
      apply (Qlt_not_le _ _ Hlt'). exact H. }
  cbn [rr_rank]. replace (k =? 1) with false by (symmetry; apply Z.eqb_neq; lia).
  cbn [orb]. apply IH; try assumption; lia.
Qed.

Lemma window_coverage_tail pct total rows :
  forall cum k,
    0 < total -> 1 < k ->
    Forall (fun r => 0 <= row_trip_count r) rows ->
    exists sel rest,
      rows = sel ++ rest
      /\ map rr_row
           (List.filter (fun r => Qle_bool (coverage_of r) pct || (rr_rank r =? 1))
              (window total cum k rows)) = sel
      /\ (sel <> [] -> (coverage_share (cum + sum_row_count sel) total <= pct)%Q)
      /\ (forall r rest', rest = r :: rest' ->
            (pct < coverage_share (cum + sum_row_count sel + row_trip_count r) total)%Q).
Proof.
  induction rows as [|r rows IH]; intros cum k Ht Hk Hpos.
  - exists [], []. repeat split; try reflexivity; [congruence | discriminate].
  - inversion Hpos as [|? ? Hr Hrows]; subst.
    cbn [window List.filter rr_rank].
    replace (k =? 1) with false by (symmetry; apply Z.eqb_neq; lia).
    rewrite orb_false_r.
    destruct (Qle_bool (coverage_of
                (mkRankedRow r total (cum + row_trip_count r) k)) pct) eqn:E.
    + apply Qle_bool_iff in E.
      destruct (IH (cum + row_trip_count r) (k + 1) Ht ltac:(lia) Hrows)
        as (sel & rest & Hsplit & Hsel & Hcov & Hmax).
      exists (r :: sel), rest. split; [simpl; f_equal; exact Hsplit|].
      split; [cbn [map rr_row]; f_equal; exact Hsel|].
      cbn [sum_row_count fold_right]. fold (sum_row_count sel).
      split.
      * intros _. destruct sel as [|x sel'].
        -- simpl. rewrite Z.add_0_r. exact E.
        -- rewrite Z.add_assoc. apply Hcov. discriminate.
      * intros x rest' Hx. rewrite Z.add_assoc. apply (Hmax x rest' Hx).
    + exists [], (r :: rows). split; [reflexivity|].
      assert (pct < coverage_share (cum + row_trip_count r) total)%Q as Hlt.
      { apply Qnot_le_lt. intros H. apply Qle_bool_iff in H.
        unfold coverage_of in E. simpl in E.
        congruence. }
      split.
      * rewrite (window_beyond pct total rows) by (try assumption; lia).
        reflexivity.
      * split; [congruence|]. intros x rest' Hx. inversion Hx; subst.
        simpl. rewrite Z.add_0_r. exact Hlt.
Qed.

Lemma window_coverage pct total rows :
  0 < total ->
  Forall (fun r => 0 <= row_trip_count r) rows ->
  rows <> [] ->
  exists sel rest,
    rows = sel ++ rest
    /\ map rr_row
         (List.filter (fun r => Qle_bool (coverage_of r) pct || (rr_rank r =? 1))
            (window total 0 1 rows)) = sel
    /\ sel <> []
    /\ ((2 <= length sel)%nat -> (coverage_share (sum_row_count sel) total <= pct)%Q)
    /\ (forall r rest', rest = r :: rest' ->
          (pct < coverage_share (sum_row_count sel + row_trip_count r) total)%Q).
Proof.
  intros Ht Hpos Hne. destruct rows as [|r rows]; [contradiction|].
  inversion Hpos as [|? ? Hr Hrows]; subst.
  cbn [window List.filter rr_rank]. rewrite Z.eqb_refl, orb_true_r.
  cbn [map rr_row]. rewrite Z.add_0_l.
  destruct (Qle_bool (coverage_share (row_trip_count r) total) pct) eqn:E.
  - destruct (window_coverage_tail pct total rows (row_trip_count r) 2
                Ht ltac:(lia) Hrows)
      as (sel & rest & Hsplit & Hsel & Hcov & Hmax).
    exists (r :: sel), rest. change (1 + 1) with 2.
    split; [simpl; f_equal; exact Hsplit|].
    split; [f_equal; exact Hsel|]. split; [discriminate|].
    cbn [sum_row_count fold_right]. fold (sum_row_count sel).
    split.
    + intros Hlen. apply Hcov. destruct sel; [simpl in Hlen; lia | discriminate].
    + exact Hmax.
  - assert (pct < coverage_share (row_trip_count r) total)%Q as Hlt.
    { apply Qnot_le_lt. intros H. apply Qle_bool_iff in H. congruence. }
    exists [r], rows. change (1 + 1) with 2.
    split; [reflexivity|].
    split.
    { rewrite (window_beyond pct total rows) by (try assumption; lia).
      reflexivity. }
    split; [discriminate|]. split; [simpl; lia|].
    intros x rest' Hx. subst rows. inversion Hrows; subst.
    simpl. rewrite Z.add_0_r.
    eapply Qlt_le_trans; [exact Hlt|]. apply coverage_share_mono; lia.
Qed.

Lemma In_selected_window (p : RankedRow -> bool) total rows r :
  In r (map rr_row (List.filter p (window total 0 1 rows))) -> In r rows.
Proof.
  intros H. apply in_map_iff in H. destruct H as (x & <- & Hx).
  apply List.filter_In in Hx. destruct Hx as [Hx _].
  rewrite <- (map_rr_row_window total rows 0 1). apply in_map. exact Hx.
Qed.

Lemma selected_rows order_by_count (p : RankedRow -> bool) trips :
  map rr_row (List.filter p (ranked_routes order_by_count trips))
  = flat_map
      (fun s => map rr_row
                  (List.filter p
                     (window (station_trips trips s) 0 1
                        (order_by_count
                           (List.filter (departs_from s) (route_stats trips))))))
      (distinct String.eqb (map row_departure_station_id (route_stats trips))).
Proof.
  unfold ranked_routes.
  rewrite filter_flat_map_list, map_flat_map_list. reflexivity.
Qed.

Lemma selected_rows_of_station order_by_count (p : RankedRow -> bool) trips s :
  orders_by_count order_by_count ->
  List.filter (departs_from s)
    (map rr_row (List.filter p (ranked_routes order_by_count trips)))
  = map rr_row
      (List.filter p
         (window (station_trips trips s) 0 1
            (order_by_count (List.filter (departs_from s) (route_stats trips))))).
Proof.
  intros Hob. rewrite selected_rows.
  set (h := fun s' =>
              map rr_row
                (List.filter p
                   (window (station_trips trips s') 0 1
                      (order_by_count
                         (List.filter (departs_from s') (route_stats trips)))))).
  set (stations := distinct String.eqb
                     (map row_departure_station_id (route_stats trips))).
  assert (forall s' r, In r (h s') -> row_departure_station_id r = s') as Hh.
  { intros s' r Hr. apply In_selected_window in Hr.
    eapply ordered_partition_departs; eassumption. }
  assert (List.NoDup stations) as Hnd
    by (apply distinct_NoDup; apply String.eqb_eq).
  destruct (filter_station_flat_map h stations s Hh Hnd) as [Hin Hout].
  destruct (in_dec string_dec s stations) as [Hs|Hs].
  - apply Hin. exact Hs.
  - rewrite (Hout Hs).
    assert (List.filter (departs_from s) (route_stats trips) = []) as Hnone.
    { apply filter_none_list. intros r Hr. unfold departs_from.
      apply String.eqb_neq. intros Heq. apply Hs.
      apply In_distinct; [apply String.eqb_eq|].
      apply in_map_iff. exists r. auto. }
    rewrite Hnone.
    pose proof (proj1 (Hob [])) as Hp. symmetry in Hp.
    apply Permutation_nil in Hp. rewrite Hp. reflexivity.
Qed.

Lemma selected_rows_valid order_by_count (p : RankedRow -> bool) trips :
  orders_by_count order_by_count ->
  Forall valid_trip trips ->
  Forall valid_row
    (map rr_row (List.filter p (ranked_routes order_by_count trips))).
Proof.
  intros Hob Hv. rewrite selected_rows.
  pose proof (route_stats_valid trips Hv) as Hrows.
  rewrite List.Forall_forall in Hrows.
  apply List.Forall_forall. intros r Hr.
  apply in_flat_map in Hr. destruct Hr as (s & _ & Hr).
  apply In_selected_window in Hr.
  apply Hrows. eapply ordered_partition_departs; eassumption.
Qed.

(** X11. What [get_routes_by_station_coverage] returns for a station,
    for any percentage.  With the station's pairs in the window order
    of the query (descending trip count), the station's routes are a
    prefix of them: never empty when the station has a pair, with a
    cumulative share of the station's trips of at most [coverage_pct]
    as soon as the prefix has two pairs, and such that the next pair
    would take the share above [coverage_pct]; from 100 percent on the
    prefix is all the pairs.  The share is the one the query computes,
    [cumulative_trips::float / total_trips * 100] in [float8]; for a
    station of at most [2 ^ 53] trips it is within a relative error of
    [2 ^ -51] of the exact percentage.  The station's total is the sum
    of the trip counts of its pairs, and stations without a pair have
    no entry. *)
Theorem per_station_coverage_is_the_longest_prefix_within
    (order_by_count order_by_station_count : list RouteRow -> list RouteRow)
    (coverage_pct : Q) (trips : list Trip) :
  orders_by_count order_by_count ->
  orders_by_station_count order_by_station_count ->
  Forall valid_trip trips ->
  exists result,
    get_routes_by_station_coverage order_by_count order_by_station_count
      coverage_pct trips = Ok result
    /\ forall s,
         let pairs_of_s := List.filter (departs_from s) (route_stats trips) in
         let routes_of_s := default [] (result !! s) in
         let total := station_trips trips s in
         (result !! s = None <-> pairs_of_s = [])
         /\ total = sum_row_count pairs_of_s
         /\ descending routes_of_s
         /\ (total <= 2 ^ 53 ->
             forall c, 1 <= c <= total ->
               ((1 - 2 ^ (-51)) * share_of total c
                <= coverage_share c total)%Q
               /\ (coverage_share c total
                   <= (1 + 2 ^ (-51)) * share_of total c)%Q)
         /\ exists sel rest,
              order_by_count pairs_of_s = sel ++ rest
              /\ Permutation routes_of_s (map stats_of_row sel)
              /\ (pairs_of_s <> [] -> sel <> [])
              /\ ((2 <= length routes_of_s)%nat ->
                  (coverage_share (sum_trip_count routes_of_s) total
                   <= coverage_pct)%Q)
              /\ (forall r rest', rest = r :: rest' ->
                    (coverage_pct
                     < coverage_share
                         (sum_trip_count routes_of_s + row_trip_count r)
                         total)%Q)
              /\ ((100 <= coverage_pct)%Q -> rest = []).
Proof.
  intros Hob Hobs Hv.
  unfold get_routes_by_station_coverage.
  set (p := fun r : RankedRow =>
              Qle_bool (coverage_of r) coverage_pct || (rr_rank r =? 1)).
  set (selected := map rr_row (List.filter p (ranked_routes order_by_count trips))).
  set (rows := query_station_coverage order_by_count order_by_station_count
                 coverage_pct trips).
  assert (rows = order_by_station_count selected) as Hrows by reflexivity.
  assert (Forall valid_row rows) as Hvalid.
  { rewrite Hrows.
    apply (Forall_perm_list _ selected); [symmetry; apply Hobs|].
    apply selected_rows_valid; assumption. }
  destruct (collect_by_station_spec rows Hvalid ∅) as (m & Hrun & Hlist & Hnone).
  exists m. split; [exact Hrun|].
  intros s.
  set (pairs_of_s := List.filter (departs_from s) (route_stats trips)).
  set (routes_of_s := default [] (m !! s)).
  set (total := station_trips trips s).
  set (part := order_by_count pairs_of_s).
  assert (routes_of_s = map stats_of_row (List.filter (departs_from s) rows))
    as Hroutes.
  { unfold routes_of_s. rewrite Hlist, lookup_empty. reflexivity. }
  assert (Permutation (List.filter (departs_from s) rows)
            (map rr_row (List.filter p (window total 0 1 part)))) as Hperm.
  { rewrite Hrows.
    rewrite (Permutation_filter_list _ _ _ (proj1 (Hobs selected))).
    unfold selected. rewrite selected_rows_of_station by assumption.
    reflexivity. }
  assert (total = sum_row_count pairs_of_s) as Htotal.
  { unfold total, pairs_of_s. symmetry. apply station_rows_sum. }
  assert (Forall valid_row pairs_of_s) as Hpv.
  { apply Forall_filter_list. apply route_stats_valid. exact Hv. }
  assert (Permutation part pairs_of_s) as Hpart by apply Hob.
  assert (Forall valid_row part) as Hpartv.
  { apply (Forall_perm_list _ pairs_of_s); [symmetry; exact Hpart | exact Hpv]. }
  assert (Forall (fun r => 0 <= row_trip_count r) part) as Hpos.
  { eapply Forall_impl; [exact Hpartv|]. intros r (Hc & _). lia. }
  assert (descending routes_of_s) as Hdesc.
  { rewrite Hroutes. apply descending_stats_of_rows. rewrite Hrows. apply Hobs. }
  assert (pairs_of_s = [] -> part = []) as Hempty.
  { intros E. unfold part. rewrite E.
    pose proof (proj1 (Hob [])) as Hp. symmetry in Hp.
    apply Permutation_nil in Hp. exact Hp. }
  assert (sum_trip_count routes_of_s
          = sum_row_count (map rr_row (List.filter p (window total 0 1 part))))
    as Hsum.
  { rewrite Hroutes, sum_trip_count_stats_of_rows.
    apply sum_row_count_Permutation. exact Hperm. }
  assert (length routes_of_s
          = length (map rr_row (List.filter p (window total 0 1 part))))
    as Hlen.
  { rewrite Hroutes, length_map. apply Permutation_length. exact Hperm. }
  destruct pairs_of_s as [|r0 pairs'] eqn:Epairs.
  - rewrite (Hempty eq_refl) in *. simpl in Hperm.
    apply Permutation_sym, Permutation_nil in Hperm.
    split.
    { rewrite Hnone. split; [reflexivity|]. intros _.
      split; [apply lookup_empty | exact Hperm]. }
    split; [exact Htotal|]. split; [exact Hdesc|].
    split; [intros H53 c Hc; apply coverage_share_error; assumption|].
    exists [], []. split; [reflexivity|].
    split; [rewrite Hroutes, Hperm; constructor|].
    split; [congruence|].
    split; [rewrite Hroutes, Hperm; simpl; lia|].
    split; [discriminate | reflexivity].
  - assert (part <> []) as Hne.
    { intros E. rewrite E in Hpart. apply Permutation_nil in Hpart.
      discriminate. }
    assert (0 < total) as Htpos.
    { rewrite Htotal.
      inversion Hpv as [|? ? (Hc & _) Hrest]; subst. simpl.
      assert (0 <= sum_row_count pairs'); [|lia].
      clear -Hrest. induction Hrest as [|x l (Hx & _) _ IH]; simpl; lia. }
    destruct (window_coverage coverage_pct total part Htpos Hpos Hne)
      as (sel & rest & Hsplit & Hsel & Hsne & Hcov & Hmax).
    fold p in Hsel. rewrite Hsel in Hperm, Hsum, Hlen.
    split.
    { rewrite Hnone. split; [|discriminate].
      intros [_ Hf]. rewrite Hf in Hperm.
      apply Permutation_nil in Hperm. contradiction. }
    split; [exact Htotal|]. split; [exact Hdesc|].
    split; [intros H53 c Hc; apply coverage_share_error; assumption|].
    exists sel, rest. split; [exact Hsplit|].
    split; [rewrite Hroutes; apply Permutation_map; exact Hperm|].
    split; [intros _; exact Hsne|].
    rewrite Hsum, Hlen. split; [exact Hcov|]. split; [exact Hmax|].
    intros H100. destruct rest as [|r rest']; [reflexivity|]. exfalso.
    specialize (Hmax r rest' eq_refl).
    assert (sum_row_count sel + row_trip_count r <= total) as Hle.
    { rewrite Htotal, <- (sum_row_count_Permutation _ _ Hpart), Hsplit.
      rewrite sum_row_count_app.
      change (sum_row_count (r :: rest'))
        with (row_trip_count r + sum_row_count rest').
      assert (0 <= sum_row_count rest'); [|lia].
      rewrite Hsplit in Hpos. apply Forall_app in Hpos. destruct Hpos as [_ Hp].
      inversion Hp as [|? ? _ Hrest]; subst.
      clear -Hrest. induction Hrest as [|x l Hx _ IH]; simpl; lia. }
    pose proof (coverage_share_le_100 total _ Htpos Hle) as Hshare.
    apply (Qlt_irrefl coverage_pct).
    eapply Qlt_le_trans; [exact Hmax|].
    eapply Qle_trans; [exact Hshare | exact H100].
Qed.

Lemma per_station_coverage_is_the_longest_prefix_within_witness :
  exists result,
    get_routes_by_station_coverage stable_order_by_count
      stable_order_by_station_count 60 coverage_trips = Ok result
    /\ station_trips coverage_trips "030" = 8
    /\ descending (default [] (result !! "030"))
    /\ (coverage_share 4 8 <= (1 + 2 ^ (-51)) * share_of 8 4)%Q.
Proof.
  destruct (per_station_coverage_is_the_longest_prefix_within
              stable_order_by_count stable_order_by_station_count 60
              coverage_trips stable_order_by_count_orders
              stable_order_by_station_count_orders)
    as (result & Hrun & Hs).
  - unfold coverage_trips. repeat apply Forall_app_2; apply trips_between_valid.
  - exists result. split; [exact Hrun|].
    destruct (Hs "030") as (_ & _ & Hd & Herr & _).
    split; [reflexivity|]. split; [exact Hd|].
    assert (station_trips coverage_trips "030" = 8) as E by reflexivity.
    rewrite E in Herr.
    apply (Herr ltac:(vm_compute; discriminate) 4). lia.
Defined.

(** ** Station files and the filter *)

Lemma allowed_keys_existsb stats key :
  bool_decide (key ∈ allowed_keys stats)
  = existsb (fun st => String.eqb (route_key st) key) stats.
Proof.
  apply Bool.eq_iff_eq_true.
  rewrite bool_decide_eq_true, existsb_exists.
  unfold allowed_keys. rewrite elem_of_list_to_set, list_elem_of_In, in_map_iff.
  split; intros (st & H1 & H2).
  - exists st. split; [exact H2|]. apply String.eqb_eq.
    rewrite <- filter_key_route_key. exact H1.
  - exists st. apply String.eqb_eq in H2.
    rewrite filter_key_route_key. split; assumption.
Qed.

Lemma routes_to_write_filter f s stats all_routes :
  f !! s = Some stats ->
  routes_to_write (Some f) s all_routes = with_key_among stats all_routes.
Proof.
  intros Hs. unfold routes_to_write, with_key_among. rewrite Hs.
  apply filter_ext_list. intros r _. apply allowed_keys_existsb.
Qed.

Lemma filter_sublist_list {A} (p : A -> bool) l : sublist (List.filter p l) l.
Proof.
  induction l as [|x l IH]; simpl; [constructor|].
  destruct (p x); [apply sublist_skip | apply sublist_cons]; exact IH.
Qed.

(** X12. [write_station_routes] writes one file for each station of
    [station_routes] and for no other, a station whose filter keeps
    nothing included; the file's count is its number of entries.  When
    the filter has the station, the file holds, in order, the entries
    of exactly those routes whose key is the [route_key] of one of the
    station's selected routes; when there is no filter, the filter is
    empty or it lacks the station, the file holds all the routes. *)
Theorem station_files_follow_the_filter
    (station_routes : gmap string (list RouteGeometry))
    (bidirectional_map : gmap string RouteStatistics)
    (per_station_filter : option (gmap string (list RouteStatistics)))
    (s : string) :
  let files :=
    write_station_routes station_routes bidirectional_map per_station_filter in
  (files !! s = None <-> station_routes !! s = None)
  /\ forall all_routes,
       station_routes !! s = Some all_routes ->
       exists file,
         files !! s = Some file
         /\ sf_station_id file = s
         /\ sf_count file = Z.of_nat (length (sf_routes file))
         /\ sublist (sf_routes file) (map station_entry all_routes)
         /\ (forall f stats,
               per_station_filter = Some f -> f !! s = Some stats ->
               sf_routes file
               = map station_entry (with_key_among stats all_routes))
         /\ (forall f stats,
               per_station_filter = Some f -> f !! s = Some stats ->
               stats = [] -> sf_routes file = [] /\ sf_count file = 0)
         /\ (per_station_filter = None
             \/ per_station_filter = Some ∅
             \/ (exists f, per_station_filter = Some f /\ f !! s = None) ->
             sf_routes file = map station_entry all_routes).
Proof.
  intros files. subst files. rewrite write_station_routes_lookup.
  split.
  - destruct (station_routes !! s); simpl; split; congruence.
  - intros all_routes Hs. rewrite Hs. simpl.
    exists (station_file per_station_filter s all_routes).
    split; [reflexivity|]. split; [reflexivity|]. split; [reflexivity|].
    unfold station_file. cbn [sf_routes sf_count].
    split; [|split; [|split]].
    + apply fmap_sublist.
      unfold routes_to_write.
      destruct per_station_filter as [f|]; [|reflexivity].
      destruct (f !! s); [apply filter_sublist_list | reflexivity].
    + intros f stats -> Hf. rewrite (routes_to_write_filter f s stats) by exact Hf.
      reflexivity.
    + intros f stats -> Hf ->.
      rewrite (routes_to_write_filter f s []) by exact Hf.
      unfold with_key_among.
      rewrite (filter_none_list _ all_routes) by reflexivity.
      split; reflexivity.
    + intros [->|[->|(f & -> & Hf)]]; unfold routes_to_write.
      * reflexivity.
      * rewrite lookup_empty. reflexivity.
      * rewrite Hf. reflexivity.
Qed.

Lemma station_files_follow_the_filter_witness :
  exists file,
    write_station_routes {["030" := [geometry_030_067]]} ∅
      (Some {["030" := [stats_030_045]]}) !! "030" = Some file
    /\ sf_routes file = [] /\ sf_count file = 0.
Proof.
  assert (({["030" := [geometry_030_067]]} : gmap string (list RouteGeometry))
            !! "030" = Some [geometry_030_067]) as Hall
    by (vm_compute; reflexivity).
  assert (({["030" := [stats_030_045]]} : gmap string (list RouteStatistics))
            !! "030" = Some [stats_030_045]) as Hsel
    by (vm_compute; reflexivity).
  destruct (proj2 (station_files_follow_the_filter
                     {["030" := [geometry_030_067]]} ∅
                     (Some {["030" := [stats_030_045]]}) "030")
              [geometry_030_067] Hall)
    as (file & Hfile & _ & Hcount & _ & Hkeep & _).
  exists file. split; [exact Hfile|].
  rewrite Hcount, (Hkeep _ [stats_030_045] eq_refl Hsel).
  split; reflexivity.
Defined.

(** ** Routes without coordinates *)

Lemma station_pairs_of_located routes station_coords :
  coordinates_by_id station_coords ->
  map stations_of (station_pairs_of routes station_coords)
  = map ordered_pair (located station_coords routes).
Proof.
  intros Hid. unfold located.
  induction routes as [|r routes IH]; [reflexivity|].
  cbn [station_pairs_of List.filter].
  destruct (station_coords !! departure_station_id r) as [f|] eqn:Ef;
    destruct (station_coords !! return_station_id r) as [t|] eqn:Et;
    simpl; try exact IH.
  rewrite IH. unfold stations_of, ordered_pair. simpl.
  rewrite (Hid _ _ Ef), (Hid _ _ Et). reflexivity.
Qed.

Lemma station_pairs_of_length routes station_coords :
  length (station_pairs_of routes station_coords)
  = length (located station_coords routes).
Proof.
  unfold located. induction routes as [|r routes IH]; [reflexivity|].
  cbn [station_pairs_of List.filter].
  destruct (station_coords !! departure_station_id r) as [f|];
    destruct (station_coords !! return_station_id r) as [t|];
    simpl; rewrite ?IH; reflexivity.
Qed.



(** ** From the selection to the station files *)

Lemma dedup_unique_key (P : list RouteStatistics) u v :
  In u (fst (deduplicate_bidirectional P)) ->
  In v (fst (deduplicate_bidirectional P)) ->
  route_key u = route_key v -> u = v.
Proof.
  intros Hu Hv Hk.
  pose proof (proj2 (dedup_head_kept P (route_key u) u) (conj Hu eq_refl)) as H1.
  pose proof (proj2 (dedup_head_kept P (route_key u) v)
                (conj Hv (eq_sym Hk))) as H2.
  congruence.
Qed.

Lemma route_key_of_pair (a b : RouteStatistics) :
  ordered_pair a = ordered_pair b -> route_key a = route_key b.
Proof.
  unfold ordered_pair, route_key. intros H. inversion H. congruence.
Qed.

Lemma distinct_pairs_dash_free P r :
  distinct_pairs P -> In r P ->
  dash_free (departure_station_id r) /\ dash_free (return_station_id r).
Proof.
  intros [Hd _] Hr. rewrite List.Forall_forall in Hd. apply Hd. exact Hr.
Qed.

Lemma same_departure_same_key a b c d :
  dash_free a -> dash_free b -> dash_free c -> dash_free d ->
  a = c -> canonical_key a b = canonical_key c d -> b = d.
Proof.
  intros Ha Hb Hc Hd Hac Hk.
  destruct (canonical_key_inj a b c d Ha Hb Hc Hd Hk) as [E|E];
    inversion E; congruence.
Qed.

Lemma station_entry_along x st geom :
  g_departure_station_id x = departure_station_id st ->
  g_return_station_id x = return_station_id st ->
  polyline x = polyline geom ->
  distance_km x = distance_km geom ->
  duration_minutes x = duration_minutes geom ->
  station_entry x = entry_along st geom.
Proof.
  intros Hd Hr Hp Hdist Hdur. unfold station_entry, entry_along.
  rewrite is_reverse_ltb, Hd, Hr, Hp, Hdist, Hdur. reflexivity.
Qed.

Section SelectionToFiles.

Variable valhalla : ValhallaConfig.
Variable generation : GenerationConfig.
Variable polyline_roundtrip : string -> option string.
Variable replies : Z -> Z -> Reply.
Variable all_routes : list RouteStatistics.
Variable station_coords : gmap string StationCoordinate.
Variable g : Generator.

Hypothesis Hdistinct : distinct_pairs all_routes.
Hypothesis Hcoords : coordinates_by_id station_coords.

Local Abbreviation unique := (fst (deduplicate_bidirectional all_routes)).
Local Abbreviation reverse_map := (snd (deduplicate_bidirectional all_routes)).
Local Abbreviation generated :=
  (snd (_generate_geometries valhalla generation polyline_roundtrip replies
          unique station_coords g)).

Lemma generated_spec :
  Forall valid_geometry generated
  /\ forall geom,
       In geom generated ->
       exists u,
         In u unique /\ In u all_routes
         /\ ordered_pair u = endpoints_of geom
         /\ g_route_key geom = route_key u.
Proof.
  unfold _generate_geometries, generate_batch.
  destruct (batch_loop_output valhalla generation polyline_roundtrip replies
              (station_pairs_of unique station_coords) 1 g [])
    as (new & Hout & Hval & Hkey & Hsub).
  rewrite Hout. simpl. split; [exact Hval|].
  intros geom Hgeom.
  assert (In (endpoints_of geom) (map ordered_pair (located station_coords unique)))
    as Hin.
  { rewrite <- station_pairs_of_located by exact Hcoords.
    rewrite <- list_elem_of_In. eapply elem_of_sublist; [|exact Hsub].
    rewrite list_elem_of_In. apply in_map. exact Hgeom. }
  apply in_map_iff in Hin. destruct Hin as (u & Hpair & Hu).
  apply List.filter_In in Hu. destruct Hu as [Hu _].
  exists u. split; [exact Hu|].
  split; [apply dedup_kept_from_input; exact Hu|]. split; [exact Hpair|].
  rewrite List.Forall_forall in Hkey. rewrite (Hkey geom Hgeom).
  unfold endpoints_of, ordered_pair in Hpair. inversion Hpair.
  reflexivity.
Qed.

Lemma emitted_for_selected s st geom :
  departure_station_id st = s ->
  (exists st', In st' all_routes /\ ordered_pair st' = ordered_pair st) ->
  In geom generated ->
  g_route_key geom = route_key st ->
  exists x,
    In x (emitted reverse_map s geom)
    /\ g_route_key x = route_key st
    /\ station_entry x = entry_along st geom.
Proof.
  intros Hs (st' & Hst' & Hpair) Hgeom Hkey.
  destruct generated_spec as [_ Horigin].
  destruct (Horigin geom Hgeom) as (u & Hu & _ & Hupair & Hukey).
  pose proof (route_key_of_pair st' st Hpair) as Hk'.
  unfold ordered_pair in Hpair. inversion Hpair as [[Hd Hr]].
  destruct (dedup_kept_or_recorded all_routes st' Hdistinct Hst')
    as [Hkept|[Hrec _]].
  - assert (u = st') as -> by (apply (dedup_unique_key all_routes); congruence).
    unfold ordered_pair, endpoints_of in Hupair. inversion Hupair as [[Hgd Hgr]].
    exists geom. split; [|split; [exact Hkey|]].
    + replace s with (g_departure_station_id geom) by congruence.
      apply emitted_forward.
    + apply station_entry_along; congruence.
  - exists (reverse_of geom st'). split; [|split; [exact Hkey|]].
    + replace s with (departure_station_id st') by congruence.
      apply emitted_reverse. congruence.
    + apply station_entry_along; simpl; congruence.
Qed.

Lemma selected_for_emitted s st geom x :
  departure_station_id st = s ->
  (exists st', In st' all_routes /\ ordered_pair st' = ordered_pair st) ->
  In geom generated ->
  In x (emitted reverse_map s geom) ->
  g_route_key x = route_key st ->
  g_route_key geom = route_key st /\ station_entry x = entry_along st geom.
Proof.
  intros Hs (st' & Hst' & Hpair) Hgeom Hx Hkey.
  destruct generated_spec as [_ Horigin].
  destruct (Horigin geom Hgeom) as (u & _ & Hu & Hupair & Hukey).
  destruct (distinct_pairs_dash_free _ _ Hdistinct Hst') as [D1 D2].
  unfold ordered_pair in Hpair. inversion Hpair as [[Hd Hr]].
  rewrite Hd in D1. rewrite Hr in D2.
  apply emitted_origin in Hx.
  destruct Hx as [[-> Hdep]|(st'' & Hrec & Hdep & ->)].
  - split; [exact Hkey|].
    destruct (distinct_pairs_dash_free _ _ Hdistinct Hu) as [U1 U2].
    unfold ordered_pair, endpoints_of in Hupair. inversion Hupair as [[Hgd Hgr]].
    apply station_entry_along; try reflexivity; [congruence|].
    rewrite <- Hgr.
    apply (same_departure_same_key (departure_station_id u)
             (return_station_id u) (departure_station_id st)
             (return_station_id st)); try assumption; [congruence|].
    change (route_key u = route_key st). congruence.
  - simpl in Hkey. split; [exact Hkey|].
    destruct (dedup_reverse_record all_routes _ _ Hdistinct Hrec)
      as (Hin & Hk'' & _).
    destruct (distinct_pairs_dash_free _ _ Hdistinct Hin) as [R1 R2].
    apply station_entry_along; try reflexivity; simpl; [congruence|].
    apply (same_departure_same_key (departure_station_id st'')
             (return_station_id st'') (departure_station_id st)
             (return_station_id st)); try assumption; [congruence|].
    change (route_key st'' = route_key st). congruence.
Qed.

End SelectionToFiles.

(** X14. From the selection to the station files.  Take routes with
    identifiers without a dash and no ordered pair twice, deduplicate
    them, generate geometries for the kept ones, organize the
    geometries with the reverse map and write the station files with
    the per-station selection as filter.  Then, for a station of the
    selection, the entries of its file are exactly the geometries
    generated for the keys of its selected routes, each shown along
    the selected route: to the route's return station, with the
    geometry's polyline, rounded distance and duration, tagged
    "reverse" when the route is reversed.  A selected route appears
    whether its own direction or the opposite one was generated, and
    nothing that was not selected for the station appears. *)
Theorem station_files_hold_the_selected_pairs
    (valhalla : ValhallaConfig) (generation : GenerationConfig)
    (polyline_roundtrip : string -> option string)
    (replies : Z -> Z -> Reply)
    (all_routes : list RouteStatistics)
    (per_station_routes : gmap string (list RouteStatistics))
    (station_coords : gmap string StationCoordinate) (g : Generator) :
  distinct_pairs all_routes ->
  selection_within all_routes per_station_routes ->
  coordinates_by_id station_coords ->
  let unique := fst (deduplicate_bidirectional all_routes) in
  let reverse_map := snd (deduplicate_bidirectional all_routes) in
  let generated :=
    snd (_generate_geometries valhalla generation polyline_roundtrip replies
           unique station_coords g) in
  exists station_routes,
    organize_by_station generated reverse_map = Ok station_routes
    /\ forall s stats,
         per_station_routes !! s = Some stats ->
         let file :=
           write_station_routes station_routes reverse_map
             (Some per_station_routes) !! s in
         (forall st geom,
            In st stats -> In geom generated ->
            g_route_key geom = route_key st ->
            exists f, file = Some f /\ In (entry_along st geom) (sf_routes f))
         /\ (forall f e,
               file = Some f -> In e (sf_routes f) ->
               exists st geom,
                 In st stats /\ In geom generated
                 /\ g_route_key geom = route_key st
                 /\ e = entry_along st geom).
Proof.
  intros Hdistinct Hwithin Hcoords unique reverse_map generated.
  destruct (generated_spec valhalla generation polyline_roundtrip replies
              all_routes station_coords g Hcoords) as [Hvalid _].
  fold unique generated in Hvalid.
  destruct (organize_loop_spec reverse_map generated Hvalid ∅)
    as (m & Hrun & Hlist & _).
  exists m. split; [exact Hrun|].
  intros s stats Hstats file. subst file.
  rewrite write_station_routes_lookup.
  specialize (Hlist s). rewrite lookup_empty in Hlist. simpl in Hlist.
  split.
  - intros st geom Hst Hgeom Hkey.
    destruct (Hwithin s stats st Hstats Hst) as [Hdep Hin].
    destruct (emitted_for_selected valhalla generation polyline_roundtrip
                replies all_routes station_coords g Hdistinct Hcoords
                s st geom Hdep Hin Hgeom Hkey) as (x & Hx & Hxkey & Hentry).
    assert (In x (default [] (m !! s))) as Hxs.
    { rewrite Hlist. apply in_flat_map. exists geom. split; assumption. }
    destruct (m !! s) as [l|]; [|contradiction]. simpl in Hxs |- *.
    eexists. split; [reflexivity|].
    unfold station_file. cbn [sf_routes].
    rewrite (routes_to_write_filter _ s stats) by exact Hstats.
    rewrite <- Hentry. apply in_map.
    apply List.filter_In. split; [exact Hxs|].
    apply existsb_exists. exists st. split; [exact Hst|].
    apply String.eqb_eq. congruence.
  - intros f e Hf He.
    destruct (m !! s) as [l|]; [|discriminate]. simpl in Hf, Hlist.
    inversion Hf; subst f. unfold station_file in He. cbn [sf_routes] in He.
    rewrite (routes_to_write_filter _ s stats) in He by exact Hstats.
    apply in_map_iff in He. destruct He as (x & <- & Hx).
    apply List.filter_In in Hx. destruct Hx as [Hxl Hallowed].
    apply existsb_exists in Hallowed. destruct Hallowed as (st & Hst & Hk).
    apply String.eqb_eq in Hk.
    rewrite Hlist in Hxl. apply in_flat_map in Hxl.
    destruct Hxl as (geom & Hgeom & Hx).
    destruct (Hwithin s stats st Hstats Hst) as [Hdep Hin].
    destruct (selected_for_emitted valhalla generation polyline_roundtrip
                replies all_routes station_coords g Hdistinct Hcoords
                s st geom x Hdep Hin Hgeom Hx (eq_sym Hk)) as [Hgk Hentry].
    exists st, geom. repeat split; assumption.
Qed.

Lemma station_files_hold_the_selected_pairs_witness :
  exists station_routes f,
    organize_by_station
      (snd (_generate_geometries default_valhalla default_generation
              keep_encoding (fun _ => always (Response 200 (BodyTrip [a_leg])))
              (fst (deduplicate_bidirectional [stats_030_067; stats_067_030]))
              (<["030" := station_030]> {["067" := station_067]})
              new_Generator))
      (snd (deduplicate_bidirectional [stats_030_067; stats_067_030]))
    = Ok station_routes
    /\ write_station_routes station_routes
         (snd (deduplicate_bidirectional [stats_030_067; stats_067_030]))
         (Some {["067" := [stats_067_030]]}) !! "067" = Some f
    /\ In (entry_along stats_067_030
             (mkRouteGeometry "030-067" "030" "067" "u`~nJqafxC_@aA"
                (25 # 10) (600 / 60)%Q))
          (sf_routes f).
Proof.
  destruct (station_files_hold_the_selected_pairs
              default_valhalla default_generation keep_encoding
              (fun _ => always (Response 200 (BodyTrip [a_leg])))
              [stats_030_067; stats_067_030]
              {["067" := [stats_067_030]]}
              (<["030" := station_030]> {["067" := station_067]})
              new_Generator)
    as (station_routes & Hrun & Hfiles).
  - split.
    + repeat constructor; simpl; discriminate.
    + simpl. repeat constructor; simpl; intuition discriminate.
  - intros s stats st Hs Hst. apply lookup_singleton_Some in Hs.
    destruct Hs as [<- <-]. destruct Hst as [<-|[]].
    split; [reflexivity|]. exists stats_067_030.
    split; [right; left; reflexivity | reflexivity].
  - intros s c Hs. apply lookup_insert_Some in Hs.
    destruct Hs as [[<- <-]|[_ Hs]]; [reflexivity|].
    apply lookup_singleton_Some in Hs. destruct Hs as [<- <-]. reflexivity.
  - destruct (Hfiles "067" [stats_067_030]) as [Hin _].
    { vm_compute. reflexivity. }
    destruct (Hin stats_067_030
                (mkRouteGeometry "030-067" "030" "067" "u`~nJqafxC_@aA"
                   (25 # 10) (600 / 60)%Q))
      as (f & Hf & He).
    + left. reflexivity.
    + vm_compute. left. reflexivity.
    + reflexivity.
    + exists station_routes, f. split; [exact Hrun|]. split; assumption.
Defined.

(** ** The union of the selections *)

Lemma dict_has_In (d : PairDict) key :
  dict_has d key = true <-> In key (map fst d).
Proof.
  unfold dict_has. rewrite existsb_exists, in_map_iff. split.
  - intros (kv & Hin & Hk). apply pair_eqb_eq in Hk. exists kv. auto.
  - intros (kv & Hk & Hin). exists kv. split; [exact Hin|].
    apply pair_eqb_eq. exact Hk.
Qed.

Lemma dict_set_keys (d : PairDict) key route k :
  In k (map fst (dict_set d key route)) <-> In k (map fst d) \/ k = key.
Proof.
  unfold dict_set. destruct (dict_has d key) eqn:E.
  - rewrite map_map.
    rewrite (map_ext _ fst)
      by (intros kv; destruct (pair_eqb (fst kv) key); reflexivity).
    apply dict_has_In in E. split; [auto|]. intros [H| ->]; assumption.
  - rewrite map_app, in_app_iff. simpl. split.
    + intros [H|[H|[]]]; auto.
    + intros [H|H]; auto.
Qed.

Lemma dict_set_values (d : PairDict) key route v :
  In v (map snd (dict_set d key route)) -> v = route \/ In v (map snd d).
Proof.
  unfold dict_set. destruct (dict_has d key).
  - rewrite map_map, in_map_iff. intros (kv & Hv & Hin).
    destruct (pair_eqb (fst kv) key); simpl in Hv; [left; congruence|].
    right. apply in_map_iff. exists kv. auto.
  - rewrite map_app, in_app_iff. simpl. intros [H|[H|[]]]; auto.
Qed.

Lemma dict_set_keyed (d : PairDict) route :
  keyed_by_pair d -> keyed_by_pair (dict_set d (ordered_pair route) route).
Proof.
  intros [Hnd Hkey]. unfold dict_set.
  destruct (dict_has d (ordered_pair route)) eqn:E; split.
  - rewrite map_map.
    rewrite (map_ext _ fst)
      by (intros kv; destruct (pair_eqb (fst kv) (ordered_pair route));
          reflexivity).
    exact Hnd.
  - apply List.Forall_forall. intros kv Hin. apply in_map_iff in Hin.
    destruct Hin as (kv' & <- & Hin).
    destruct (pair_eqb (fst kv') (ordered_pair route)) eqn:Ek.
    + apply pair_eqb_eq in Ek. exact Ek.
    + rewrite List.Forall_forall in Hkey. apply Hkey. exact Hin.
  - rewrite map_app. simpl. apply List.NoDup_app; [exact Hnd | |].
    + repeat constructor. intros [].
    + intros k Hk [<-|[]].
      assert (dict_has d (ordered_pair route) = true) as H
        by (apply dict_has_In; exact Hk).
      congruence.
  - apply Forall_app. split; [exact Hkey|]. repeat constructor.
Qed.


Lemma dict_set_added (d : PairDict) key route :
  exists added, map fst (dict_set d key route) = map fst d ++ added.
Proof.
  unfold dict_set. destruct (dict_has d key).
  - exists []. rewrite app_nil_r, map_map. apply map_ext.
    intros kv. destruct (pair_eqb (fst kv) key); reflexivity.
  - exists [key]. rewrite map_app. reflexivity.
Qed.

Lemma pass_refl (d : PairDict) : keyed_by_pair d -> pass_spec [] d d.
Proof.
  intros H. split; [exact H|]. split; [auto|]. split; [intros r []|].
  split; [auto|]. exists []. rewrite app_nil_r. reflexivity.
Qed.

Lemma pass_trans l1 l2 (d d1 d2 : PairDict) :
  pass_spec l1 d d1 -> pass_spec l2 d1 d2 -> pass_spec (l1 ++ l2) d d2.
Proof.
  intros (_ & K1 & R1 & V1 & (a1 & A1)) (W2 & K2 & R2 & V2 & (a2 & A2)).
  split; [exact W2|]. split; [auto|]. split; [|split].
  - intros r Hr. apply in_app_iff in Hr. destruct Hr as [Hr|Hr]; auto.
  - intros v Hv. rewrite in_app_iff.
    destruct (V2 v Hv) as [H|H]; [auto|].
    destruct (V1 v H); auto.
  - exists (a1 ++ a2). rewrite A2, A1, app_assoc. reflexivity.
Qed.

Lemma pass_set (d : PairDict) route :
  keyed_by_pair d ->
  pass_spec [route] d (dict_set d (ordered_pair route) route).
Proof.
  intros H. split; [apply dict_set_keyed; exact H|].
  split; [intros k Hk; apply dict_set_keys; auto|].
  split; [intros r [<-|[]]; apply dict_set_keys; auto|].
  split; [|apply dict_set_added].
  intros v Hv. apply dict_set_values in Hv. destruct Hv as [->|Hv]; auto.
  left. left. reflexivity.
Qed.

Lemma pass_set_missing (d : PairDict) route :
  keyed_by_pair d ->
  pass_spec [route] d
    (if dict_has d (ordered_pair route) then d
     else dict_set d (ordered_pair route) route).
Proof.
  intros H. destruct (dict_has d (ordered_pair route)) eqn:E;
    [|apply pass_set; exact H].
  split; [exact H|]. split; [auto|].
  split; [intros r [<-|[]]; apply dict_has_In; exact E|].
  split; [auto|]. exists []. rewrite app_nil_r. reflexivity.
Qed.

Lemma pass_keyed l (d d' : PairDict) : pass_spec l d d' -> keyed_by_pair d'.
Proof. intros H. apply H. Qed.

Lemma add_global_pass routes :
  forall d, keyed_by_pair d -> pass_spec routes d (add_global routes d).
Proof.
  induction routes as [|r routes IH]; intros d H; [apply pass_refl; exact H|].
  change (r :: routes) with ([r] ++ routes).
  pose proof (pass_set d r H) as Hs.
  eapply pass_trans; [exact Hs|].
  apply IH. eapply pass_keyed. exact Hs.
Qed.

Lemma add_missing_pass routes :
  forall d, keyed_by_pair d -> pass_spec routes d (add_missing routes d).
Proof.
  induction routes as [|r routes IH]; intros d H; [apply pass_refl; exact H|].
  change (r :: routes) with ([r] ++ routes).
  pose proof (pass_set_missing d r H) as Hs.
  eapply pass_trans; [exact Hs|].
  apply IH. eapply pass_keyed. exact Hs.
Qed.

Lemma add_individual_pass items :
  forall d,
    keyed_by_pair d ->
    pass_spec (concat (map snd items)) d (add_individual items d).
Proof.
  induction items as [|[s stats] items IH]; intros d H;
    [apply pass_refl; exact H|].
  pose proof (add_missing_pass stats d H) as Hs.
  cbn [map concat snd]. eapply pass_trans; [exact Hs|].
  apply IH. eapply pass_keyed. exact Hs.
Qed.

Lemma keyed_values (d : PairDict) :
  keyed_by_pair d -> map ordered_pair (map snd d) = map fst d.
Proof.
  intros [_ H]. rewrite map_map. apply map_ext_in. intros kv Hkv.
  rewrite List.Forall_forall in H. symmetry. apply H. exact Hkv.
Qed.

Lemma add_global_cons r routes (d : PairDict) :
  add_global (r :: routes) d
  = add_global routes (dict_set d (ordered_pair r) r).
Proof. reflexivity. Qed.

Lemma add_missing_cons r routes (d : PairDict) :
  add_missing (r :: routes) d
  = add_missing routes
      (if dict_has d (ordered_pair r) then d
       else dict_set d (ordered_pair r) r).
Proof. reflexivity. Qed.

Lemma add_individual_cons item items (d : PairDict) :
  add_individual (item :: items) d
  = add_individual items (add_missing (snd item) d).
Proof. reflexivity. Qed.

Lemma add_missing_extends routes :
  forall d : PairDict, exists rest, add_missing routes d = d ++ rest.
Proof.
  induction routes as [|r routes IH]; intros d.
  - exists []. rewrite app_nil_r. reflexivity.
  - rewrite add_missing_cons.
    destruct (dict_has d (ordered_pair r)) eqn:E; [apply IH|].
    unfold dict_set. rewrite E.
    destruct (IH (d ++ [(ordered_pair r, r)])) as [rest Hrest].
    eexists. rewrite Hrest, <- app_assoc. reflexivity.
Qed.

Lemma add_individual_extends items :
  forall d : PairDict, exists rest, add_individual items d = d ++ rest.
Proof.
  induction items as [|item items IH]; intros d.
  - exists []. rewrite app_nil_r. reflexivity.
  - rewrite add_individual_cons.
    destruct (add_missing_extends (snd item) d) as [r1 H1].
    destruct (IH (add_missing (snd item) d)) as [r2 H2].
    exists (r1 ++ r2). rewrite H2, H1, <- app_assoc. reflexivity.
Qed.

Lemma add_global_distinct routes :
  forall d : PairDict,
    List.NoDup (map ordered_pair routes) ->
    (forall r, In r routes -> ~ In (ordered_pair r) (map fst d)) ->
    add_global routes d = d ++ map (fun r => (ordered_pair r, r)) routes.
Proof.
  induction routes as [|r routes IH]; intros d Hnd Hfresh.
  - simpl. rewrite app_nil_r. reflexivity.
  - rewrite add_global_cons.
    inversion Hnd as [|? ? Hr Hnd']; subst.
    assert (dict_has d (ordered_pair r) = false) as E.
    { apply not_true_is_false. intros H. apply dict_has_In in H.
      apply (Hfresh r); [left; reflexivity | exact H]. }
    unfold dict_set. rewrite E.
    rewrite IH; [rewrite <- app_assoc; reflexivity | exact Hnd' |].
    intros r' Hr' Hin. rewrite map_app, in_app_iff in Hin. simpl in Hin.
    destruct Hin as [Hin|[Heq|[]]].
    + apply (Hfresh r'); [right; exact Hr' | exact Hin].
    + apply Hr. rewrite Heq. apply in_map. exact Hr'.
Qed.

Lemma dedup_unique_keys (P : list RouteStatistics) :
  List.NoDup (map route_key (fst (deduplicate_bidirectional P))).
Proof.
  destruct (deduplicate_inv P) as [seen [_ Huniq _ _]].
  apply NoDup_keys_of_bearing. intros k. rewrite Huniq.
  destruct (bearing k P); simpl; lia.
Qed.

Lemma dedup_representative (P : list RouteStatistics) r :
  In r P ->
  exists u, In u (fst (deduplicate_bidirectional P)) /\ route_key u = route_key r.
Proof.
  intros Hr.
  assert (In r (bearing (route_key r) P)) as Hb by (apply bearing_In; auto).
  destruct (bearing (route_key r) P) as [|u l] eqn:E; [contradiction|].
  exists u. apply (dedup_head_kept P (route_key r) u). rewrite E. reflexivity.
Qed.

Lemma union_spec dict_items global_routes
    (per_station_routes : gmap string (list RouteStatistics)) :
  iterates_the_dict dict_items ->
  let all_routes :=
    union_of_selections dict_items global_routes per_station_routes in
  List.NoDup (map ordered_pair all_routes)
  /\ (forall r, In r all_routes ->
        In r global_routes
        \/ exists s stats, per_station_routes !! s = Some stats /\ In r stats)
  /\ (forall r,
        In r global_routes
        \/ (exists s stats, per_station_routes !! s = Some stats /\ In r stats) ->
        exists r', In r' all_routes /\ ordered_pair r' = ordered_pair r)
  /\ (List.NoDup (map ordered_pair global_routes) ->
      exists rest, all_routes = global_routes ++ rest).
Proof.
  intros Hitems all_routes. subst all_routes. unfold union_of_selections.
  set (items := dict_items per_station_routes).
  assert (keyed_by_pair []) as H0 by (split; constructor).
  pose proof (add_global_pass global_routes [] H0) as P1.
  pose proof (add_individual_pass items _ (pass_keyed _ _ _ P1)) as P2.
  pose proof (pass_trans _ _ _ _ _ P1 P2) as (Hkeyed & _ & Hkeys & Hvals & _).
  set (d := add_individual items (add_global global_routes [])) in *.
  assert (forall r, In r (concat (map snd items)) <->
                    exists s stats,
                      per_station_routes !! s = Some stats /\ In r stats)
    as Hconcat.
  { intros r. rewrite in_concat. split.
    - intros (stats & Hstats & Hr). apply in_map_iff in Hstats.
      destruct Hstats as ([s stats'] & <- & Hin).
      exists s, stats'. split; [apply Hitems; exact Hin | exact Hr].
    - intros (s & stats & Hs & Hr). exists stats. split; [|exact Hr].
      apply in_map_iff. exists (s, stats). split; [reflexivity|].
      apply Hitems. exact Hs. }
  split; [rewrite (keyed_values d Hkeyed); apply Hkeyed|].
  split; [|split].
  - intros r Hr. destruct (Hvals r Hr) as [H|[]].
    apply in_app_iff in H. destruct H as [H|H]; [left; exact H|].
    right. apply Hconcat. exact H.
  - intros r Hr.
    assert (In (ordered_pair r) (map fst d)) as Hk.
    { apply Hkeys. apply in_app_iff.
      destruct Hr as [Hr|Hr]; [left; exact Hr | right; apply Hconcat; exact Hr]. }
    rewrite <- (keyed_values d Hkeyed) in Hk. apply in_map_iff in Hk.
    destruct Hk as (r' & Hpair & Hr'). exists r'. split; assumption.
  - intros Hnd. unfold d.
    rewrite (add_global_distinct global_routes [] Hnd) by (intros r _ []).
    destruct (add_individual_extends items
                ([] ++ map (fun r => (ordered_pair r, r)) global_routes))
      as [rest Hrest].
    rewrite Hrest. exists (map snd rest).
    rewrite map_app. simpl. rewrite map_map. simpl. rewrite map_id.
    reflexivity.
Qed.

Lemma collect_by_station_departs rows :
  forall m m',
    collect_by_station rows m = Ok m' ->
    (forall s st, In st (default [] (m !! s)) -> departure_station_id st = s) ->
    forall s st, In st (default [] (m' !! s)) -> departure_station_id st = s.
Proof.
  induction rows as [|row rows IH]; intros m m' Hrun Hm.
  - inversion Hrun; subst. exact Hm.
  - cbn [collect_by_station] in Hrun.
    destruct (row_to_RouteStatistics row) as [route|e] eqn:E; [|discriminate].
    simpl in Hrun. apply (IH _ _ Hrun).
    intros s st Hst. rewrite dict_append_lookup in Hst.
    apply in_app_iff in Hst. destruct Hst as [Hst|Hst]; [apply Hm; exact Hst|].
    destruct (String.eqb_spec (row_departure_station_id row) s) as [<-|];
      [|contradiction].
    destruct Hst as [<-|[]].
    apply new_RouteStatistics_ok in E. destruct E as [-> _]. reflexivity.
Qed.

Lemma routes_per_station_depart order_by_count order_by_station_count
    strategy trips m :
  _get_routes_per_station order_by_count order_by_station_count strategy trips
  = Ok m ->
  forall s stats st,
    m !! s = Some stats -> In st stats -> departure_station_id st = s.
Proof.
  intros Hrun s stats st Hs Hst.
  assert (forall rows,
            collect_by_station rows ∅ = Ok m -> departure_station_id st = s)
    as Hcollect.
  { intros rows Hc.
    apply (collect_by_station_departs rows ∅ m Hc).
    - intros s' st'. rewrite lookup_empty. intros [].
    - rewrite Hs. exact Hst. }
  unfold _get_routes_per_station in Hrun.
  destruct (selection_type strategy).
  - destruct (top_n strategy); [|discriminate].
    eapply Hcollect. exact Hrun.
  - destruct (coverage_percentage strategy); [|discriminate].
    eapply Hcollect. exact Hrun.
Qed.

(** X15. What [_select_routes] hands to the generation.  When it
    returns, the kept routes and the reverse map are the
    deduplication of a union that holds every selected ordered pair,
    global or of a station, exactly once and nothing that was not
    selected, the global routes first when no pair is twice among
    them; the routes selected for a station depart from it.  So no
    two kept routes share a key, every kept route was
    selected, and every selected route has a kept route with its key:
    each selected pair of stations is requested once.  The selection
    depends on the configuration through the global and the
    individual strategy only: [min_trips_threshold] and the aggregate
    strategy change nothing, and with neither of the two strategies
    nothing is selected. *)
Theorem selection_requests_each_pair_once
    (order_by_count order_by_station_count : list RouteRow -> list RouteRow)
    (dict_items : gmap string (list RouteStatistics)
                  -> list (string * list RouteStatistics))
    (gen_config : RouteGenerationConfig) (trips : list Trip)
    (sel : Selection) :
  iterates_the_dict dict_items ->
  _select_routes order_by_count order_by_station_count dict_items
    gen_config trips = Ok sel ->
  let all_routes :=
    union_of_selections dict_items (sel_global_routes sel)
      (sel_per_station_routes sel) in
  sel_unique_routes sel = fst (deduplicate_bidirectional all_routes)
  /\ sel_bidirectional_map sel = snd (deduplicate_bidirectional all_routes)
  /\ List.NoDup (map ordered_pair all_routes)
  /\ (forall r, In r all_routes -> is_selected sel r)
  /\ (forall r, is_selected sel r ->
        exists r', In r' all_routes /\ ordered_pair r' = ordered_pair r)
  /\ selection_within all_routes (sel_per_station_routes sel)
  /\ (List.NoDup (map ordered_pair (sel_global_routes sel)) ->
      exists rest, all_routes = sel_global_routes sel ++ rest)
  /\ List.NoDup (map route_key (sel_unique_routes sel))
  /\ (forall u, In u (sel_unique_routes sel) -> is_selected sel u)
  /\ (forall r, is_selected sel r ->
        exists u, In u (sel_unique_routes sel) /\ route_key u = route_key r)
  /\ (forall gen_config',
        global_strategy gen_config' = global_strategy gen_config ->
        individual_strategy gen_config' = individual_strategy gen_config ->
        _select_routes order_by_count order_by_station_count dict_items
          gen_config' trips = Ok sel)
  /\ (global_strategy gen_config = None ->
      individual_strategy gen_config = None ->
      sel = mkSelection [] ∅ [] ∅).
Proof.
  intros Hitems Hrun all_routes.
  assert (sel_unique_routes sel = fst (deduplicate_bidirectional all_routes)
          /\ sel_bidirectional_map sel
             = snd (deduplicate_bidirectional all_routes)) as [Hu Hb].
  { unfold _select_routes in Hrun.
    destruct (if should_generate_global gen_config then _ else _)
      as [gl|] eqn:Eg; [|discriminate].
    simpl in Hrun.
    destruct (if should_generate_individual gen_config then _ else _)
      as [ps|] eqn:Ei; [|discriminate].
    simpl in Hrun.
    destruct (deduplicate_bidirectional (union_of_selections dict_items gl ps))
      as [u b] eqn:Ed.
    inversion Hrun; subst sel. subst all_routes. simpl. rewrite Ed.
    split; reflexivity. }
  destruct (union_spec dict_items (sel_global_routes sel)
              (sel_per_station_routes sel) Hitems)
    as (Hnd & Hsub & Hsup & Hfirst).
  fold all_routes in Hnd, Hsub, Hsup, Hfirst.
  split; [exact Hu|]. split; [exact Hb|]. split; [exact Hnd|].
  split; [exact Hsub|]. split; [exact Hsup|].
  split.
  { intros s stats st Hs Hst. split.
    - unfold _select_routes in Hrun.
      destruct (if should_generate_global gen_config then _ else _)
        as [gl|]; [|discriminate].
      simpl in Hrun.
      destruct (should_generate_individual gen_config).
      + destruct (individual_strategy gen_config) as [strategy|];
          [|discriminate].
        destruct (_get_routes_per_station order_by_count order_by_station_count
                    strategy trips) as [ps|] eqn:Ei; [|discriminate].
        simpl in Hrun.
        destruct (deduplicate_bidirectional
                    (union_of_selections dict_items gl ps)).
        inversion Hrun; subst sel. simpl in Hs.
        eapply routes_per_station_depart; eassumption.
      + simpl in Hrun.
        destruct (deduplicate_bidirectional
                    (union_of_selections dict_items gl ∅)).
        inversion Hrun; subst sel. simpl in Hs.
        rewrite lookup_empty in Hs. discriminate.
    - apply Hsup. right. exists s, stats. split; assumption. }
  split; [exact Hfirst|].
  split; [rewrite Hu; apply dedup_unique_keys|].
  split; [|split; [|split]].
  - intros u Hin. apply Hsub. rewrite Hu in Hin.
    apply dedup_kept_from_input. exact Hin.
  - intros r Hr. destruct (Hsup r Hr) as (r' & Hr' & Hpair).
    destruct (dedup_representative all_routes r' Hr') as (u & Hin & Hk).
    exists u. rewrite Hu. split; [exact Hin|].
    rewrite Hk. apply route_key_of_pair. exact Hpair.
  - intros c' Hg Hi. rewrite <- Hrun. unfold _select_routes.
    unfold should_generate_global, should_generate_individual.
    rewrite Hg, Hi. reflexivity.
  - intros Hg Hi. unfold _select_routes in Hrun.
    unfold should_generate_global, should_generate_individual in Hrun.
    rewrite Hg, Hi in Hrun. simpl in Hrun.
    assert (union_of_selections dict_items [] ∅ = []) as Hempty.
    { unfold union_of_selections.
      destruct (dict_items ∅) as [|[s stats] items] eqn:E; [reflexivity|].
      assert (In (s, stats) (dict_items ∅)) as Hin by (rewrite E; left; reflexivity).
      apply Hitems in Hin. rewrite lookup_empty in Hin. discriminate. }
    rewrite Hempty in Hrun. simpl in Hrun. inversion Hrun. reflexivity.
Qed.

Lemma selection_requests_each_pair_once_witness :
  exists sel,
    _select_routes stable_order_by_count stable_order_by_station_count
      map_to_list
      (mkRouteGenerationConfig
         (Some (mkRouteSelectionStrategy TOP_N (Some 2) None))
         (Some (mkRouteSelectionStrategy TOP_N (Some 1) None))
         None 1 50 10 "bicycle" "Road")
      scenario_trips = Ok sel
    /\ List.NoDup (map route_key (sel_unique_routes sel)).
Proof.
  assert (iterates_the_dict map_to_list) as Hitems.
  { intros m s stats. rewrite <- list_elem_of_In. apply elem_of_map_to_list. }
  destruct (_select_routes stable_order_by_count stable_order_by_station_count
              map_to_list
              (mkRouteGenerationConfig
                 (Some (mkRouteSelectionStrategy TOP_N (Some 2) None))
                 (Some (mkRouteSelectionStrategy TOP_N (Some 1) None))
                 None 1 50 10 "bicycle" "Road")
              scenario_trips) as [sel|e] eqn:E.
  - exists sel. split; [reflexivity|].
    exact (proj1 (proj2 (proj2 (proj2 (proj2 (proj2 (proj2 (proj2
             (selection_requests_each_pair_once _ _ _ _ _ _ Hitems E))))))))).
  - vm_compute in E. discriminate.
Defined.

(** ** The configuration from the command line *)

Lemma create_top_n_well_formed n strategy :
  create_top_n n = Ok strategy -> well_formed strategy.
Proof.
  unfold create_top_n. destruct (Z.ltb_spec n 1) as [|Hn]; [discriminate|].
  intros H. inversion H. exists n. auto.
Qed.

Lemma create_percentage_well_formed pct strategy :
  create_percentage pct = Ok strategy -> well_formed strategy.
Proof.
  unfold create_percentage.
  destruct (Qlt_bool 0 pct) eqn:E0; [|discriminate].
  destruct (Qle_bool pct 100) eqn:E1; [|discriminate].
  simpl. intros H. inversion H. exists pct.
  apply Qlt_bool_iff in E0. apply Qle_bool_iff in E1. auto.
Qed.

Lemma strategy_from_args_well_formed disabled top pct default_strategy strategy :
  (forall s, default_strategy = Ok s -> well_formed_if_set s) ->
  strategy_from_args disabled top pct default_strategy = Ok strategy ->
  well_formed_if_set strategy.
Proof.
  intros Hdefault. unfold strategy_from_args.
  destruct disabled; [intros H; inversion H; exact I|].
  destruct (truthy_int top).
  - destruct (create_top_n (default 0 top)) as [s|] eqn:E; [|discriminate].
    intros H. inversion H. simpl. eapply create_top_n_well_formed. exact E.
  - destruct (truthy_float pct); [|apply Hdefault].
    destruct (create_percentage (default 0%Q pct)) as [s|] eqn:E;
      [|discriminate].
    intros H. inversion H. simpl. eapply create_percentage_well_formed. exact E.
Qed.

Lemma post_init_ok c c' :
  RouteGenerationConfig_post_init c = Ok c' ->
  c' = c
  /\ (should_generate_global c || should_generate_individual c
      || should_generate_aggregate c) = true
  /\ 1 <= min_trips_threshold c /\ 1 <= batch_size c <= 1000.
Proof.
  unfold RouteGenerationConfig_post_init.
  destruct (should_generate_global c || should_generate_individual c
            || should_generate_aggregate c); simpl; [|discriminate].
  destruct (Z.ltb_spec (min_trips_threshold c) 1) as [|Hmin]; [discriminate|].
  destruct (Z.leb_spec 1 (batch_size c)) as [Hlo|]; simpl; [|discriminate].
  destruct (Z.leb_spec (batch_size c) 1000) as [Hhi|]; simpl; [|discriminate].
  intros Hc. inversion Hc; subst. repeat split; auto; lia.
Qed.

(** X16. A configuration that [build_config_from_args] returns is
    usable as it is: each strategy it sets is one that the factory
    methods accept (a count of at least 1, or a percentage in (0,
    100], with the other field unset), at least one of the three
    strategies is set, the minimum trip count is the argument's and at
    least 1, and the batch size and log interval are the defaults 50
    and 10.  With [--phase] the aggregate strategy is never set and
    the global one always is; without it, [--no-global] and
    [--no-individual] leave their strategy unset whatever numbers were
    given. *)
Theorem config_from_args_is_valid
    (Env : Type) (from_env : result Env) (args : Args)
    (config : PipelineConfig Env) :
  build_config_from_args Env from_env args = Ok config ->
  let c := pc_generation config in
  well_formed_if_set (global_strategy c)
  /\ well_formed_if_set (individual_strategy c)
  /\ well_formed_if_set (per_station_aggregate_strategy c)
  /\ (should_generate_global c || should_generate_individual c
      || should_generate_aggregate c) = true
  /\ min_trips_threshold c = min_trips args
  /\ 1 <= min_trips args
  /\ batch_size c = 50 /\ rg_log_interval c = 10
  /\ from_env = Ok (pc_environment config)
  /\ (truthy_str (phase args) = true ->
      global_strategy c <> None /\ per_station_aggregate_strategy c = None)
  /\ (truthy_str (phase args) = false ->
      (no_global args = true -> global_strategy c = None)
      /\ (no_global args = false -> global_strategy c <> None)
      /\ (no_individual args = true -> individual_strategy c = None)
      /\ (no_individual args = false -> individual_strategy c <> None)
      /\ (no_aggregate args = true -> per_station_aggregate_strategy c = None)).
Proof.
  intros Hrun c. subst c. unfold build_config_from_args in Hrun.
  destruct (truthy_int (global_top args) && truthy_float (global_pct args));
    [discriminate|].
  destruct (truthy_int (individual_top args)
            && truthy_float (individual_pct args)); [discriminate|].
  destruct (truthy_int (aggregate_top args)
            && truthy_float (aggregate_pct args)); [discriminate|].
  match type of Hrun with
  | rbind ?strategies _ = _ =>
      destruct strategies as [[[gst ist] ast]|] eqn:Es; [|discriminate]
  end.
  cbn [rbind] in Hrun.
  destruct (negb (is_not_None gst) && negb (is_not_None ist)
            && negb (is_not_None ast)); [discriminate|].
  unfold new_RouteGenerationConfig in Hrun.
  destruct (RouteGenerationConfig_post_init _) as [gen|] eqn:Ep; [|discriminate].
  cbn [rbind] in Hrun.
  destruct from_env as [env|]; [|discriminate].
  cbn [rbind] in Hrun. inversion Hrun; subst config. cbn [pc_generation pc_environment].
  apply post_init_ok in Ep. destruct Ep as (-> & Hany & Hmin & _).
  cbn [global_strategy individual_strategy per_station_aggregate_strategy
       min_trips_threshold batch_size rg_log_interval] in *.
  assert (well_formed_if_set gst /\ well_formed_if_set ist
          /\ well_formed_if_set ast
          /\ (truthy_str (phase args) = true -> gst <> None /\ ast = None)
          /\ (truthy_str (phase args) = false ->
              (no_global args = true -> gst = None)
              /\ (no_global args = false -> gst <> None)
              /\ (no_individual args = true -> ist = None)
              /\ (no_individual args = false -> ist <> None)
              /\ (no_aggregate args = true -> ast = None))) as Hs.
  { destruct (truthy_str (phase args)).
    - assert (well_formed_if_set gst /\ well_formed_if_set ist
              /\ well_formed_if_set ast /\ gst <> None /\ ast = None) as H.
      { destruct (String.eqb (default "" (phase args)) "phase1").
        - destruct (create_top_n 1000) as [s|] eqn:E; [|discriminate].
          inversion Es; subst.
          repeat split; simpl; try exact I; try discriminate.
          eapply create_top_n_well_formed. exact E.
        - destruct (create_percentage (coverage args)) as [s|] eqn:E;
            [|discriminate].
          cbn [rbind] in Es. inversion Es; subst.
          pose proof (create_percentage_well_formed _ _ E) as Hw.
          repeat split; simpl; try exact I; try discriminate; exact Hw. }
      destruct H as (H1 & H2 & H3 & H4 & H5).
      repeat split; try assumption; discriminate.
    - destruct (strategy_from_args (no_global args) _ _ _) as [g0|] eqn:Eg;
        [|discriminate].
      cbn [rbind] in Es.
      destruct (strategy_from_args (no_individual args) _ _ _) as [i0|] eqn:Ei;
        [|discriminate].
      cbn [rbind] in Es.
      destruct (strategy_from_args (no_aggregate args) _ _ _) as [a0|] eqn:Ea;
        [|discriminate].
      cbn [rbind] in Es. inversion Es; subst g0 i0 a0.
      split.
      { eapply strategy_from_args_well_formed; [|exact Eg].
        intros s Hs. destruct (create_top_n 5) as [s5|] eqn:E; [|discriminate].
        inversion Hs. simpl. eapply create_top_n_well_formed. exact E. }
      split.
      { eapply strategy_from_args_well_formed; [|exact Ei].
        intros s Hs.
        destruct (create_percentage 80) as [s80|] eqn:E; [|discriminate].
        inversion Hs. simpl. eapply create_percentage_well_formed. exact E. }
      split.
      { eapply strategy_from_args_well_formed; [|exact Ea].
        intros s Hs. inversion Hs. exact I. }
      split; [discriminate|]. intros _.
      unfold strategy_from_args in Eg, Ei, Ea.
      repeat split.
      + intros H. rewrite H in Eg. inversion Eg. reflexivity.
      + intros H. rewrite H in Eg.
        destruct (truthy_int (global_top args)).
        * destruct (create_top_n (default 0 (global_top args)));
            inversion Eg; subst; discriminate.
        * destruct (truthy_float (global_pct args)).
          -- destruct (create_percentage (default 0%Q (global_pct args)));
               inversion Eg; subst; discriminate.
          -- destruct (create_top_n 5); inversion Eg; subst; discriminate.
      + intros H. rewrite H in Ei. inversion Ei. reflexivity.
      + intros H. rewrite H in Ei. clear Eg.
        destruct (truthy_int (individual_top args)).
        * destruct (create_top_n (default 0 (individual_top args)));
            inversion Ei; subst; discriminate.
        * destruct (truthy_float (individual_pct args)).
          -- destruct (create_percentage (default 0%Q (individual_pct args)));
               inversion Ei; subst; discriminate.
          -- destruct (create_percentage 80); inversion Ei; subst; discriminate.
      + intros H. rewrite H in Ea. inversion Ea. reflexivity. }
  destruct Hs as (H1 & H2 & H3 & H4 & H5).
  split; [exact H1|]. split; [exact H2|]. split; [exact H3|].
  split; [exact Hany|]. split; [reflexivity|]. split; [exact Hmin|].
  split; [reflexivity|]. split; [reflexivity|]. split; [reflexivity|].
  split; [exact H4 | exact H5].
Qed.

Lemma config_from_args_is_valid_witness :
  exists config : PipelineConfig unit,
    build_config_from_args unit (Ok tt)
      (mkArgs (Some 50) None false None (Some 75%Q) false None None false
         1 None 80) = Ok config
    /\ well_formed_if_set (global_strategy (pc_generation config))
    /\ well_formed_if_set (individual_strategy (pc_generation config)).
Proof.
  eexists. split; [reflexivity|].
  match goal with
  | |- well_formed_if_set (global_strategy (pc_generation ?c)) /\ _ =>
      pose proof (config_from_args_is_valid unit (Ok tt)
                    (mkArgs (Some 50) None false None (Some 75%Q) false
                       None None false 1 None 80) c eq_refl) as H
  end.
  split; [exact (proj1 H) | exact (proj1 (proj2 H))].
Defined.

Lemma truthy_int_without_zero x :
  truthy_int (if truthy_int x then x else None) = truthy_int x.
Proof. destruct (truthy_int x) eqn:E; [exact E | reflexivity]. Qed.

Lemma truthy_float_without_zero x :
  truthy_float (if truthy_float x then x else None) = truthy_float x.
Proof. destruct (truthy_float x) eqn:E; [exact E | reflexivity]. Qed.

Lemma truthy_str_without_empty x :
  truthy_str (if truthy_str x then x else None) = truthy_str x.
Proof. destruct (truthy_str x) eqn:E; [exact E | reflexivity]. Qed.

Lemma strategy_from_args_without_zeros disabled top pct default_strategy :
  strategy_from_args disabled
    (if truthy_int top then top else None)
    (if truthy_float pct then pct else None) default_strategy
  = strategy_from_args disabled top pct default_strategy.
Proof.
  unfold strategy_from_args.
  rewrite truthy_int_without_zero, truthy_float_without_zero.
  destruct disabled; [reflexivity|].
  destruct (truthy_int top); [reflexivity|].
  destruct (truthy_float pct); reflexivity.
Qed.

(** X17. [build_config_from_args] tests its numbers for truth, so a
    count or a percentage of 0 is taken as not given: it neither
    raises nor switches the routes off, and the default of the kind
    applies.  A negative count is not: it reaches [create_top_n] and
    raises.  So [--global-top n] alone gives the top [n] for
    [n >= 1], the default top 5 for [n = 0] and an error for
    [n < 0]; without any option the configuration is top 5 globally
    and 80 percent per station. *)
Theorem zero_arguments_count_as_absent
    (Env : Type) (from_env : result Env) :
  (forall args,
     build_config_from_args Env from_env (without_zeros args)
     = build_config_from_args Env from_env args)
  /\ (forall n,
        build_config_from_args Env from_env
          (mkArgs (Some n) None false None None false None None false 1 None 80)
        = if n <? 0 then Raise (ValueError "N must be positive")
          else
            env <-- from_env ;;
            Ok (mkPipelineConfig env
                  (mkRouteGenerationConfig
                     (Some (mkRouteSelectionStrategy TOP_N
                              (Some (if n =? 0 then 5 else n)) None))
                     (Some (mkRouteSelectionStrategy PERCENTAGE None (Some 80%Q)))
                     None 1 50 10 "bicycle" "Road")))
  /\ build_config_from_args Env from_env no_arguments
     = (env <-- from_env ;;
        Ok (mkPipelineConfig env
              (mkRouteGenerationConfig
                 (Some (mkRouteSelectionStrategy TOP_N (Some 5) None))
                 (Some (mkRouteSelectionStrategy PERCENTAGE None (Some 80%Q)))
                 None 1 50 10 "bicycle" "Road"))).
Proof.
  split; [|split].
  - intros args. unfold build_config_from_args, without_zeros.
    cbn [global_top global_pct no_global individual_top individual_pct
         no_individual aggregate_top aggregate_pct no_aggregate min_trips
         phase coverage].
    rewrite !truthy_int_without_zero, !truthy_float_without_zero,
      truthy_str_without_empty, !strategy_from_args_without_zeros.
    destruct (truthy_str (phase args)); reflexivity.
  - intros n. unfold build_config_from_args, strategy_from_args.
    cbn [global_top global_pct no_global individual_top individual_pct
         no_individual aggregate_top aggregate_pct no_aggregate min_trips
         phase coverage truthy_int truthy_float truthy_str andb negb].
    rewrite andb_false_r.
    destruct (Z.eqb_spec n 0) as [->|Hne]; [reflexivity|].
    change (default 0 (Some n)) with n. cbn [negb]. unfold create_top_n.
    destruct (Z.ltb_spec n 1) as [Hlt|Hge];
      destruct (Z.ltb_spec n 0) as [Hneg|Hpos]; try lia; reflexivity.
  - reflexivity.
Qed.

(** ** The selection on a valid table *)

Lemma routes_for_strategy_ok order_by_count strategy trips :
  orders_by_count order_by_count ->
  Forall valid_trip trips ->
  well_formed strategy ->
  exists routes,
    _get_routes_for_strategy order_by_count strategy trips = Ok routes
    /\ descending routes
    /\ Forall (fun r => 1 <= trip_count r) routes.
Proof.
  intros Hob Hv Hw. unfold _get_routes_for_strategy, well_formed in *.
  destruct (get_route_statistics_valid order_by_count trips Hob Hv)
    as [Hall Hrows].
  assert (descending (map stats_of_row (order_by_count (route_stats trips))))
    as Hdesc by (apply descending_stats_of_rows; apply Hob).
  assert (Forall (fun r => 1 <= trip_count r)
            (map stats_of_row (order_by_count (route_stats trips)))) as Hpos.
  { eapply rows_to_statistics_positive. exact Hall. }
  destruct (selection_type strategy).
  - destruct Hw as (n & -> & Hn & _).
    unfold get_top_n_routes. rewrite Hall. simpl.
    eexists. split; [reflexivity|]. unfold slice_to.
    destruct (Z.ltb_spec n 0); [lia|].
    split; [apply StronglySorted_take; exact Hdesc|].
    apply List.Forall_forall. intros r Hr. apply In_take in Hr.
    rewrite List.Forall_forall in Hpos. apply Hpos. exact Hr.
  - destruct Hw as (pct & -> & _).
    unfold get_global_coverage_routes. rewrite Hall. simpl.
    eexists. split; [reflexivity|].
    unfold select_global_coverage.
    rewrite (sorted_desc_of_descending trip_count _ Hdesc).
    match goal with
    | |- context [accumulate ?t ?c ?l] =>
        destruct (accumulate_prefix t l c) as [rest Hrest]
    end.
    split.
    + rewrite Hrest in Hdesc.
      clear -Hdesc.
      match goal with
      | H : descending (?sel ++ rest) |- descending ?sel' =>
          change sel' with sel; generalize dependent sel
      end.
      intros sel. induction sel as [|x sel IH]; intros H; [constructor|].
      inversion H as [|? ? Hs Hx]; subst. constructor; [apply IH; exact Hs|].
      apply Forall_app in Hx. apply Hx.
    + rewrite Hrest in Hpos. apply Forall_app in Hpos. apply Hpos.
Qed.

Lemma routes_per_station_ok order_by_count order_by_station_count strategy trips :
  orders_by_count order_by_count ->
  orders_by_station_count order_by_station_count ->
  Forall valid_trip trips ->
  well_formed strategy ->
  exists m,
    _get_routes_per_station order_by_count order_by_station_count strategy trips
    = Ok m.
Proof.
  intros Hob Hobs Hv Hw. unfold _get_routes_per_station, well_formed in *.
  destruct (selection_type strategy).
  - destruct Hw as (n & -> & Hn & _).
    destruct (top_n_per_station order_by_count order_by_station_count n trips
                Hob Hobs Hv Hn) as (m & Hrun & _).
    exists m. exact Hrun.
  - destruct Hw as (pct & -> & _).
    unfold get_routes_by_station_coverage, query_station_coverage.
    match goal with
    | |- context [collect_by_station ?rows ∅] =>
        assert (Forall valid_row rows) as Hvalid
    end.
    { eapply Forall_perm_list; [symmetry; apply Hobs|].
      apply selected_rows_valid; assumption. }
    destruct (collect_by_station_spec _ Hvalid ∅) as (m & Hrun & _).
    exists m. exact Hrun.
Qed.

(** X18. On a table without negative distances or durations and with
    strategies as the factory methods build them, which is what
    [build_config_from_args] passes on, [_select_routes] returns: no
    assertion fires and no statistics are rejected.  The global routes
    it stores come by descending trip count, each with at least one
    trip, and are empty when the global strategy is off; the
    per-station selection is empty when the individual strategy is
    off. *)
Theorem selection_succeeds_on_a_valid_table
    (order_by_count order_by_station_count : list RouteRow -> list RouteRow)
    (dict_items : gmap string (list RouteStatistics)
                  -> list (string * list RouteStatistics))
    (gen_config : RouteGenerationConfig) (trips : list Trip) :
  orders_by_count order_by_count ->
  orders_by_station_count order_by_station_count ->
  Forall valid_trip trips ->
  well_formed_if_set (global_strategy gen_config) ->
  well_formed_if_set (individual_strategy gen_config) ->
  exists sel,
    _select_routes order_by_count order_by_station_count dict_items
      gen_config trips = Ok sel
    /\ descending (sel_global_routes sel)
    /\ Forall (fun r => 1 <= trip_count r) (sel_global_routes sel)
    /\ (global_strategy gen_config = None -> sel_global_routes sel = [])
    /\ (individual_strategy gen_config = None ->
        sel_per_station_routes sel = ∅).
Proof.
  intros Hob Hobs Hv Hg Hi. unfold _select_routes.
  unfold should_generate_global, should_generate_individual.
  assert (exists gl,
            (if is_not_None (global_strategy gen_config) then
               match global_strategy gen_config with
               | Some strategy =>
                   _get_routes_for_strategy order_by_count strategy trips
               | None =>
                   Raise (OtherException "AssertionError"
                            "global_strategy should not be None when should_generate_global() is True")
               end
             else Ok []) = Ok gl
            /\ descending gl /\ Forall (fun r => 1 <= trip_count r) gl
            /\ (global_strategy gen_config = None -> gl = [])) as (gl & -> & G1 & G2 & G3).
  { destruct (global_strategy gen_config) as [strategy|]; simpl.
    - destruct (routes_for_strategy_ok order_by_count strategy trips Hob Hv Hg)
        as (routes & Hrun & Hd & Hp).
      exists routes. repeat split; try assumption. discriminate.
    - exists []. repeat split; constructor. }
  assert (exists ps,
            (if is_not_None (individual_strategy gen_config) then
               match individual_strategy gen_config with
               | Some strategy =>
                   _get_routes_per_station order_by_count order_by_station_count
                     strategy trips
               | None =>
                   Raise (OtherException "AssertionError"
                            "individual_strategy should not be None when should_generate_individual() is True")
               end
             else Ok ∅) = Ok ps
            /\ (individual_strategy gen_config = None -> ps = ∅))
    as (ps & -> & P1).
  { destruct (individual_strategy gen_config) as [strategy|]; simpl.
    - destruct (routes_per_station_ok order_by_count order_by_station_count
                  strategy trips Hob Hobs Hv Hi) as (m & Hrun).
      exists m. split; [exact Hrun | discriminate].
    - exists ∅. split; reflexivity. }
  cbn [rbind].
  destruct (deduplicate_bidirectional (union_of_selections dict_items gl ps))
    as [u b].
  eexists. split; [reflexivity|]. simpl. repeat split; assumption.
Qed.

Lemma selection_succeeds_on_a_valid_table_witness :
  exists sel,
    _select_routes stable_order_by_count stable_order_by_station_count
      map_to_list
      (mkRouteGenerationConfig
         (Some (mkRouteSelectionStrategy TOP_N (Some 5) None))
         (Some (mkRouteSelectionStrategy PERCENTAGE None (Some 80%Q)))
         None 1 50 10 "bicycle" "Road")
      scenario_trips = Ok sel
    /\ descending (sel_global_routes sel).
Proof.
  destruct (selection_succeeds_on_a_valid_table
              stable_order_by_count stable_order_by_station_count map_to_list
              (mkRouteGenerationConfig
                 (Some (mkRouteSelectionStrategy TOP_N (Some 5) None))
                 (Some (mkRouteSelectionStrategy PERCENTAGE None (Some 80%Q)))
                 None 1 50 10 "bicycle" "Road")
              scenario_trips stable_order_by_count_orders
              stable_order_by_station_count_orders scenario_trips_valid)
    as (sel & Hrun & Hdesc & _).
  - simpl. exists 5. repeat split. lia.
  - simpl. exists 80%Q. repeat split; discriminate.
  - exists sel. split; assumption.
Defined.

(** ** Global coverage across percentages *)

Lemma accumulate_all target routes :
  forall cum,
    Forall (fun r => 1 <= trip_count r) routes ->
    (inject_Z (cum + sum_trip_count routes) <= target)%Q ->
    accumulate target cum routes = routes.
Proof.
  induction routes as [|r routes IH]; intros cum Hpos Hle; [reflexivity|].
  inversion Hpos as [|? ? Hr Hrest]; subst.
  cbn [accumulate].
  destruct routes as [|r' routes'].
  - destruct (Qle_bool target (inject_Z (cum + trip_count r))); reflexivity.
  - assert (0 < sum_trip_count (r' :: routes')) as Hs
      by (apply sum_trip_count_positive; [exact Hrest | discriminate]).
    replace (Qle_bool target (inject_Z (cum + trip_count r))) with false.
    + f_equal. apply IH; [exact Hrest|].
      rewrite <- Z.add_assoc. exact Hle.
    + symmetry. apply not_true_is_false. intros H. apply Qle_bool_iff in H.
      assert (inject_Z (cum + trip_count r)
              < inject_Z (cum + sum_trip_count (r :: r' :: routes')))%Q as Hlt.
      { rewrite <- Zlt_Qlt.
        change (sum_trip_count (r :: r' :: routes'))
          with (trip_count r + sum_trip_count (r' :: routes')).
        lia. }
      apply (Qlt_irrefl target).
      eapply Qle_lt_trans; [exact H|]. eapply Qlt_le_trans; eassumption.
Qed.

Lemma accumulate_mono t1 t2 routes :
  (t1 <= t2)%Q ->
  forall cum,
    exists more, accumulate t2 cum routes = accumulate t1 cum routes ++ more.
Proof.
  intros Ht. induction routes as [|r routes IH]; intros cum.
  - exists []. reflexivity.
  - cbn [accumulate].
    destruct (Qle_bool t2 (inject_Z (cum + trip_count r))) eqn:E2.
    + apply Qle_bool_iff in E2.
      assert (Qle_bool t1 (inject_Z (cum + trip_count r)) = true) as ->.
      { apply Qle_bool_iff. eapply Qle_trans; eassumption. }
      exists []. reflexivity.
    + destruct (Qle_bool t1 (inject_Z (cum + trip_count r))).
      * eexists. reflexivity.
      * destruct (IH (cum + trip_count r)) as [more Hmore].
        exists more. rewrite Hmore. reflexivity.
Qed.

Lemma sum_trip_count_nonneg l :
  Forall (fun r => 1 <= trip_count r) l -> 0 <= sum_trip_count l.
Proof. induction 1 as [|x l Hx _ IH]; simpl; lia. Qed.

(** X19. [get_global_coverage_routes] for any percentage, the ones
    outside (0, 100] included, which it does not reject.  On a table
    without negative distances or durations it returns a prefix of
    [get_all_routes], never empty when there is a route: the most
    popular route alone for a percentage of 0 or less, all the routes
    from 100 percent on when the table has at most [2 ^ 53] trips (a
    larger total is rounded when it is converted to a float), and for
    a larger percentage an extension of what it returns for a smaller
    one. *)
Theorem global_coverage_for_any_percentage
    (order_by_count : list RouteRow -> list RouteRow) (trips : list Trip) :
  orders_by_count order_by_count ->
  Forall valid_trip trips ->
  exists all_routes,
    get_all_routes order_by_count trips = Ok all_routes
    /\ (forall pct,
          exists selected rest,
            get_global_coverage_routes order_by_count pct trips = Ok selected
            /\ all_routes = selected ++ rest
            /\ (all_routes <> [] -> selected <> []))
    /\ (forall pct,
          (pct <= 0)%Q ->
          get_global_coverage_routes order_by_count pct trips
          = Ok (take 1 all_routes))
    /\ (forall pct,
          (100 <= pct)%Q ->
          sum_trip_count all_routes <= 2 ^ 53 ->
          get_global_coverage_routes order_by_count pct trips = Ok all_routes)
    /\ (forall p1 p2 s1 s2,
          (p1 <= p2)%Q ->
          get_global_coverage_routes order_by_count p1 trips = Ok s1 ->
          get_global_coverage_routes order_by_count p2 trips = Ok s2 ->
          exists more, s2 = s1 ++ more).
Proof.
  intros Hob Hv.
  destruct (get_route_statistics_valid order_by_count trips Hob Hv)
    as [Hall _].
  set (all_routes := map stats_of_row (order_by_count (route_stats trips))) in *.
  assert (descending all_routes) as Hdesc
    by (apply descending_stats_of_rows; apply Hob).
  assert (Forall (fun r => 1 <= trip_count r) all_routes) as Hpos
    by (eapply rows_to_statistics_positive; exact Hall).
  pose proof (sum_trip_count_nonneg all_routes Hpos) as Htotal.
  assert (forall pct,
            get_global_coverage_routes order_by_count pct trips
            = Ok (accumulate
                    (target_trips_of (sum_trip_count all_routes) pct)
                    0 all_routes)) as Hrun.
  { intros pct. unfold get_global_coverage_routes. rewrite Hall. simpl.
    unfold select_global_coverage.
    rewrite (sorted_desc_of_descending trip_count _ Hdesc). reflexivity. }
  exists all_routes. split; [exact Hall|]. split; [|split; [|split]].
  - intros pct. rewrite Hrun.
    destruct (accumulate_prefix
                (target_trips_of (sum_trip_count all_routes) pct)
                all_routes 0) as [rest Hrest].
    eexists. exists rest. split; [reflexivity|]. split; [exact Hrest|].
    apply accumulate_nonempty.
  - intros pct Hneg. rewrite Hrun. f_equal.
    destruct all_routes as [|r routes]; [reflexivity|].
    inversion Hpos as [|? ? Hr _]; subst.
    apply accumulate_first.
    eapply Qle_trans; [apply target_trips_of_nonpos; assumption|].
    change 0%Q with (inject_Z 0). rewrite <- Zle_Qle. lia.
  - intros pct H100 H53. rewrite Hrun. f_equal.
    apply accumulate_all; [exact Hpos|].
    rewrite Z.add_0_l.
    apply target_trips_of_ge; [lia | exact H100].
  - intros p1 p2 s1 s2 Hp H1 H2. rewrite Hrun in H1, H2.
    inversion H1; subst s1. inversion H2; subst s2.
    apply accumulate_mono. apply target_trips_of_mono; assumption.
Qed.

Lemma global_coverage_for_any_percentage_witness :
  get_global_coverage_routes stable_order_by_count 0 scenario_trips
  = Ok [mkRouteStatistics "001" "002" 50 1000 300]
  /\ get_global_coverage_routes stable_order_by_count 100 scenario_trips
     = Ok scenario_pairs.
Proof.
  destruct (global_coverage_for_any_percentage stable_order_by_count
              scenario_trips stable_order_by_count_orders scenario_trips_valid)
    as (all_routes & Hall & _ & Hzero & Hfull & _).
  assert (Ok all_routes
          = get_all_routes stable_order_by_count scenario_trips) as E
    by (symmetry; exact Hall).
  vm_compute in E. inversion E; subst all_routes. clear E.
  split.
  - rewrite (Hzero 0%Q) by discriminate. reflexivity.
  - apply (Hfull 100%Q); [discriminate | vm_compute; discriminate].
Defined.

(** ** The global routes file *)

Lemma global_generated_In global_routes generated_routes geom :
  In geom (global_generated global_routes generated_routes) <->
  In geom generated_routes
  /\ exists r, In r global_routes /\ route_key r = g_route_key geom.
Proof.
  unfold global_generated. rewrite List.filter_In, bool_decide_eq_true.
  rewrite elem_of_list_to_set, list_elem_of_In, in_map_iff.
  split; intros [H (r & H1 & H2)]; (split; [exact H|]); exists r; auto.
Qed.

Lemma head_bearing_app k l1 l2 x :
  bearing k l1 <> [] ->
  head (bearing k (l1 ++ l2)) = Some x -> In x l1.
Proof.
  intros Hne. rewrite bearing_app.
  destruct (bearing k l1) as [|y l] eqn:E; [contradiction|].
  simpl. intros H. inversion H; subst y.
  assert (In x (bearing k l1)) as Hin by (rewrite E; left; reflexivity).
  apply bearing_In in Hin. apply Hin.
Qed.

Lemma NoDup_sublist_list {A} (l1 l2 : list A) :
  sublist l1 l2 -> List.NoDup l2 -> List.NoDup l1.
Proof.
  intros Hsub Hnd. apply NoDup_ListNoDup.
  apply (sublist_NoDup l1 l2); [apply NoDup_ListNoDup; exact Hnd | exact Hsub].
Qed.

(** X20. The global file, when the global routes come first in the
    union (as [_select_routes] builds it).  Its entries are the
    geometries generated for the keys of the global routes: one entry
    at most for a key, each running along a global route that was
    kept, never along a direction that only a station selected; and a
    geometry generated for the key of a global route is in the file.
    The count is the number of entries. *)
Theorem global_file_runs_along_global_routes
    (valhalla : ValhallaConfig) (generation : GenerationConfig)
    (polyline_roundtrip : string -> option string)
    (replies : Z -> Z -> Reply)
    (global_routes rest : list RouteStatistics)
    (strategy : RouteSelectionStrategy)
    (station_coords : gmap string StationCoordinate) (g : Generator) :
  coordinates_by_id station_coords ->
  let all_routes := global_routes ++ rest in
  let unique := fst (deduplicate_bidirectional all_routes) in
  let generated :=
    snd (_generate_geometries valhalla generation polyline_roundtrip replies
           unique station_coords g) in
  let file :=
    global_routes_data (global_generated global_routes generated) strategy in
  gf_count file = Z.of_nat (length (gf_routes file))
  /\ List.NoDup (map ge_route_key (gf_routes file))
  /\ (forall e,
        In e (gf_routes file) ->
        exists r geom,
          In r global_routes /\ In r unique /\ In geom generated
          /\ e = global_entry geom
          /\ ge_route_key e = route_key r
          /\ (ge_from e, ge_to e) = ordered_pair r)
  /\ (forall r geom,
        In r global_routes -> In geom generated ->
        g_route_key geom = route_key r ->
        In (global_entry geom) (gf_routes file)).
Proof.
  intros Hcoords all_routes unique generated file.
  subst file. unfold global_routes_data. cbn [gf_count gf_routes].
  split; [rewrite length_map; reflexivity|].
  assert (exists new,
            generated = new
            /\ Forall (fun geom =>
                         g_route_key geom
                         = canonical_key (g_departure_station_id geom)
                             (g_return_station_id geom)) new
            /\ sublist (map endpoints_of new)
                 (map ordered_pair (located station_coords unique)))
    as (new & Hgen & Hkey & Hsub).
  { subst generated. unfold _generate_geometries, generate_batch.
    destruct (batch_loop_output valhalla generation polyline_roundtrip replies
                (station_pairs_of unique station_coords) 1 g [])
      as (new & Hout & _ & Hkey & Hsub).
    exists new. rewrite Hout. simpl. split; [reflexivity|].
    split; [exact Hkey|].
    rewrite <- station_pairs_of_located by exact Hcoords. exact Hsub. }
  assert (forall geom, In geom generated ->
            exists u, In u unique /\ ordered_pair u = endpoints_of geom
                      /\ g_route_key geom = route_key u) as Horigin.
  { intros geom Hgeom. rewrite Hgen in Hgeom.
    assert (In (endpoints_of geom)
              (map ordered_pair (located station_coords unique))) as Hin.
    { rewrite <- list_elem_of_In. eapply elem_of_sublist; [|exact Hsub].
      rewrite list_elem_of_In. apply in_map. exact Hgeom. }
    apply in_map_iff in Hin. destruct Hin as (u & Hpair & Hu).
    apply List.filter_In in Hu. destruct Hu as [Hu _].
    exists u. split; [exact Hu|]. split; [exact Hpair|].
    rewrite List.Forall_forall in Hkey. rewrite (Hkey geom Hgeom).
    unfold endpoints_of, ordered_pair in Hpair. inversion Hpair. reflexivity. }
  split; [|split].
  - rewrite map_map. cbn [global_entry ge_route_key].
    assert (List.NoDup (map g_route_key generated)) as Hnd.
    { rewrite Hgen.
      assert (map g_route_key new
              = map (fun p => canonical_key (fst p) (snd p))
                  (map endpoints_of new)) as ->.
      { rewrite map_map. apply map_ext_in. intros geom Hgeom.
        rewrite List.Forall_forall in Hkey. rewrite (Hkey geom Hgeom).
        reflexivity. }
      assert (map route_key (located station_coords unique)
              = map (fun p => canonical_key (fst p) (snd p))
                  (map ordered_pair (located station_coords unique))) as Hk.
      { rewrite map_map. reflexivity. }
      assert (List.NoDup (map route_key (located station_coords unique)))
        as Hlocated.
      { apply (NoDup_sublist_list _ (map route_key unique));
          [|apply dedup_unique_keys].
        apply fmap_sublist. apply filter_sublist_list. }
      rewrite Hk in Hlocated.
      apply (NoDup_sublist_list _ _ (fmap_sublist _ _ _ Hsub) Hlocated). }
    apply (NoDup_sublist_list _ (map g_route_key generated)); [|exact Hnd].
    apply fmap_sublist. apply filter_sublist_list.
  - intros e He. apply in_map_iff in He. destruct He as (geom & <- & Hgeom).
    apply global_generated_In in Hgeom.
    destruct Hgeom as [Hgeom (rg & Hrg & Hk)].
    destruct (Horigin geom Hgeom) as (u & Hu & Hpair & Hukey).
    assert (In u global_routes) as Hug.
    { apply (head_bearing_app (route_key u) global_routes rest).
      - intros E.
        assert (In rg (bearing (route_key u) global_routes)) as Hb
          by (apply bearing_In; split; [exact Hrg | congruence]).
        rewrite E in Hb. contradiction.
      - apply (dedup_head_kept (global_routes ++ rest)). split;
          [exact Hu | reflexivity]. }
    exists u, geom. repeat split; try assumption.
    cbn [global_entry ge_from ge_to]. symmetry. exact Hpair.
  - intros r geom Hr Hgeom Hk. apply in_map.
    apply global_generated_In. split; [exact Hgeom|].
    exists r. split; [exact Hr | congruence].
Qed.

Lemma global_file_runs_along_global_routes_witness :
  In (global_entry
        (mkRouteGeometry "030-067" "030" "067" "u`~nJqafxC_@aA"
           (25 # 10) (600 / 60)%Q))
     (gf_routes
        (global_routes_data
           (global_generated [stats_030_067; stats_067_030]
              (snd (_generate_geometries default_valhalla default_generation
                      keep_encoding
                      (fun _ => always (Response 200 (BodyTrip [a_leg])))
                      (fst (deduplicate_bidirectional
                              ([stats_030_067; stats_067_030] ++ [])))
                      (<["030" := station_030]> {["067" := station_067]})
                      new_Generator)))
           (mkRouteSelectionStrategy TOP_N (Some 2) None))).
Proof.
  apply (proj2 (proj2 (proj2
    (global_file_runs_along_global_routes default_valhalla default_generation
       keep_encoding (fun _ => always (Response 200 (BodyTrip [a_leg])))
       [stats_030_067; stats_067_030] []
       (mkRouteSelectionStrategy TOP_N (Some 2) None)
       (<["030" := station_030]> {["067" := station_067]}) new_Generator
       ltac:(intros s c Hs; apply lookup_insert_Some in Hs;
             destruct Hs as [[<- <-]|[_ Hs]]; [reflexivity|];
             apply lookup_singleton_Some in Hs; destruct Hs as [<- <-];
             reflexivity)))) stats_067_030).
  - right. left. reflexivity.
  - vm_compute. left. reflexivity.
  - reflexivity.
Defined.

(** ** The manifest of a run *)

Lemma string_length_append (s t : string) :
  String.length (s ++ t) = (String.length s + String.length t)%nat.
Proof. induction s as [|c s IH]; simpl; [reflexivity | rewrite IH; reflexivity]. Qed.

Lemma string_app_inv_tail (s1 s2 t : string) :
  (s1 ++ t)%string = (s2 ++ t)%string -> s1 = s2.
Proof.
  revert s2. induction s1 as [|c s1 IH]; intros [|d s2] H; simpl in H.
  - reflexivity.
  - apply (f_equal String.length) in H.
    rewrite !string_length_append in H. cbn [String.length] in H. lia.
  - apply (f_equal String.length) in H.
    rewrite !string_length_append in H. cbn [String.length] in H. lia.
  - cbn [String.append] in H. inversion H. f_equal. apply IH. assumption.
Qed.

Lemma py_str_int_inj (a b : Z) : py_str_int a = py_str_int b -> a = b.
Proof.
  unfold py_str_int. intros H.
  assert (forall n, Z.to_int n <> Decimal.Pos Decimal.Nil
                    /\ Z.to_int n <> Decimal.Neg Decimal.Nil) as Hnil.
  { intros [|p|p]; simpl; split; try discriminate;
      intros E; inversion E as [E'];
      exact (Unsigned.to_uint_nonnil p E'). }
  apply (f_equal NilZero.int_of_string) in H.
  rewrite !NilZero.isi in H by apply Hnil.
  inversion H as [E]. apply to_int_inj. exact E.
Qed.

Lemma sorted_strings_Permutation l : Permutation (sorted_strings l) l.
Proof. apply sort_by_Permutation. Qed.

Lemma string_le_trans a b c :
  (b <? a)%string = false -> (c <? b)%string = false ->
  (c <? a)%string = false.
Proof.
  intros Hab Hbc. apply not_true_is_false. intros Hca.
  destruct (string_dec a b) as [->|Hne]; [congruence|].
  destruct (string_ltb_total a b Hne) as [H|H]; [|congruence].
  pose proof (string_ltb_trans c a b Hca H). congruence.
Qed.

Lemma insert_string_sorted r l :
  StronglySorted (fun a b => (b <? a)%string = false) l ->
  StronglySorted (fun a b => (b <? a)%string = false)
    (insert_by (fun r x => (x <? r)%string) r l).
Proof.
  induction 1 as [|x l Hl IH Hx]; simpl.
  - constructor; constructor.
  - destruct (x <? r)%string eqn:E.
    + constructor; [exact IH|].
      apply (Forall_perm_list _ (r :: l));
        [symmetry; apply insert_by_Permutation|].
      constructor; [apply string_ltb_asym; exact E | exact Hx].
    + constructor; [constructor; assumption|].
      constructor; [exact E|].
      apply List.Forall_forall. intros y Hy.
      rewrite List.Forall_forall in Hx.
      exact (string_le_trans r x y E (Hx y Hy)).
Qed.

Lemma sorted_strings_sorted l :
  StronglySorted (fun a b => (b <? a)%string = false) (sorted_strings l).
Proof.
  unfold sorted_strings. induction l as [|x l IH]; simpl; [constructor|].
  apply insert_string_sorted. exact IH.
Qed.

Lemma created_station_files_length use_compression
    (station_routes : gmap string (list RouteGeometry)) :
  length (created_station_files use_compression station_routes)
  = size station_routes.
Proof.
  unfold created_station_files.
  rewrite length_map, (Permutation_length (sorted_strings_Permutation _)),
    length_map.
  apply length_map_to_list.
Qed.

(** X21. The manifest that a run writes.  Its [metadata] has no phase,
    so the manifest always says phase "phase1" and names
    "top-1000.json.gz" as the top routes file, whereas the global file
    of a top-[n] strategy is written as "top-[n].json.gz": the two
    differ unless [n] is 1000.  The manifest lists the created files
    sorted, the global file among the station files, and
    [stations_count] is the number of created files, so it counts the
    global file as a station.  Total and unique routes are both the
    number of generated geometries, the generation time is the
    reading of the clock, and the success rate is the generator's. *)
Theorem manifest_of_a_run
    (use_compression : bool) (gen_config : RouteGenerationConfig)
    (sel : Selection) (g : Generator) (now : string) (time_now : Q)
    (generated_routes : list RouteGeometry)
    (station_routes : gmap string (list RouteGeometry))
    (out : OutputFiles) :
  _write_output_files use_compression gen_config sel g now time_now
    generated_routes station_routes = Ok out ->
  let m := of_manifest out in
  let stations :=
    if should_generate_individual gen_config
    then Z.of_nat (size station_routes) else 0 in
  m_phase m = "phase1"
  /\ m_top_routes m = "top-1000.json.gz"
  /\ m_stations_count m = Z.of_nat (length (of_created_files out))
  /\ Permutation (m_station_files m) (of_created_files out)
  /\ StronglySorted (fun a b => (b <? a)%string = false) (m_station_files m)
  /\ (forall filename file,
        of_global_file out = Some (filename, file) ->
        global_routes_filename_of gen_config = Some (Ok filename)
        /\ In filename (m_station_files m)
        /\ m_stations_count m = 1 + stations)
  /\ (of_global_file out = None ->
      global_strategy gen_config = None /\ m_stations_count m = stations)
  /\ (forall n filename file,
        global_strategy gen_config
        = Some (mkRouteSelectionStrategy TOP_N (Some n) None) ->
        of_global_file out = Some (filename, file) ->
        filename = ("top-" ++ py_str_int n ++ ".json.gz")%string
        /\ (n <> 1000 -> m_top_routes m <> filename))
  /\ m_total_routes m = Z.of_nat (length generated_routes)
  /\ m_unique_routes m = Z.of_nat (length generated_routes)
  /\ m_generation_time_seconds m = time_now
  /\ m_success_rate_pct m = success_rate_pct (get_statistics g).
Proof.
  intros Hrun m stations. unfold _write_output_files in Hrun.
  assert (forall created,
            Permutation (sorted_strings created) created
            /\ StronglySorted (fun a b => (b <? a)%string = false)
                 (sorted_strings created)) as Hsorted
    by (intros created; split;
        [apply sorted_strings_Permutation | apply sorted_strings_sorted]).
  destruct (global_strategy gen_config) as [strategy|] eqn:Eg.
  - unfold write_global_routes in Hrun.
    destruct (global_routes_filename strategy) as [name|] eqn:Ef;
      [|discriminate].
    cbn [rbind] in Hrun. inversion Hrun; subst out. clear Hrun.
    subst m stations.
    cbn [of_manifest of_created_files of_global_file write_manifest
         m_phase m_top_routes m_stations_count m_station_files
         m_total_routes m_unique_routes m_generation_time_seconds
         m_success_rate_pct md_phase md_coverage_pct md_total_routes
         md_unique_routes md_generation_time md_success_rate].
    set (created :=
           if should_generate_individual gen_config
           then [name] ++ created_station_files use_compression station_routes
           else [name]).
    assert (Z.of_nat (length created)
            = 1 + (if should_generate_individual gen_config
                   then Z.of_nat (size station_routes) else 0)) as Hlen.
    { unfold created. destruct (should_generate_individual gen_config).
      - rewrite length_app, created_station_files_length. simpl. lia.
      - reflexivity. }
    assert (In name created) as Hin.
    { unfold created. destruct (should_generate_individual gen_config);
        left; reflexivity. }
    destruct (Hsorted created) as [Hperm Hsort].
    split; [reflexivity|]. split; [reflexivity|]. split; [reflexivity|].
    split; [exact Hperm|]. split; [exact Hsort|].
    split.
    { intros filename file Hf. inversion Hf; subst filename file.
      split; [unfold global_routes_filename_of; rewrite Eg; simpl;
              rewrite Ef; reflexivity|].
      split; [|exact Hlen].
      apply (Permutation_in _ (Permutation_sym Hperm)). exact Hin. }
    split; [discriminate|].
    split.
    { intros n filename file Hs Hf. inversion Hs; subst strategy.
      inversion Hf; subst filename file.
      unfold global_routes_filename in Ef. simpl in Ef.
      inversion Ef as [Hname]. split; [reflexivity|].
      intros Hn Heq. apply Hn.
      change "top-1000.json.gz" with ("top-" ++ "1000" ++ ".json.gz")%string
        in Heq.
      cbn [String.append] in Heq. inversion Heq as [Htail].
      change (String "1" (String "0" (String "0" (String "0" ".json.gz"))))
        with ("1000" ++ ".json.gz")%string in Htail.
      apply (string_app_inv_tail "1000" (py_str_int n) ".json.gz") in Htail.
      apply py_str_int_inj. rewrite <- Htail. reflexivity. }
    repeat split; reflexivity.
  - cbn [rbind] in Hrun. inversion Hrun; subst out. clear Hrun.
    subst m stations.
    cbn [of_manifest of_created_files of_global_file write_manifest
         m_phase m_top_routes m_stations_count m_station_files
         m_total_routes m_unique_routes m_generation_time_seconds
         m_success_rate_pct md_phase md_coverage_pct md_total_routes
         md_unique_routes md_generation_time md_success_rate].
    set (created :=
           if should_generate_individual gen_config
           then [] ++ created_station_files use_compression station_routes
           else []).
    assert (Z.of_nat (length created)
            = if should_generate_individual gen_config
              then Z.of_nat (size station_routes) else 0) as Hlen.
    { unfold created. destruct (should_generate_individual gen_config).
      - rewrite length_app, created_station_files_length. reflexivity.
      - reflexivity. }
    destruct (Hsorted created) as [Hperm Hsort].
    split; [reflexivity|]. split; [reflexivity|]. split; [reflexivity|].
    split; [exact Hperm|]. split; [exact Hsort|].
    split; [discriminate|].
    split; [intros _; split; [reflexivity | exact Hlen]|].
    split; [discriminate|].
    repeat split; reflexivity.
Qed.

Lemma manifest_of_a_run_witness :
  exists out,
    _write_output_files true
      (mkRouteGenerationConfig
         (Some (mkRouteSelectionStrategy TOP_N (Some 5) None)) None None
         1 50 10 "bicycle" "Road")
      (mkSelection [stats_030_067] ∅ [stats_030_067] ∅) new_Generator
      "2025-01-01T00:00:00Z" 0 [geometry_030_067]
      {["030" := [geometry_030_067]]} = Ok out
    /\ of_created_files out = ["top-5.json.gz"]
    /\ m_top_routes (of_manifest out) = "top-1000.json.gz"
    /\ m_stations_count (of_manifest out) = 1.
Proof.
  eexists. split; [reflexivity|]. split; [reflexivity|].
  match goal with
  | |- m_top_routes (of_manifest ?o) = _ /\ _ =>
      pose proof (manifest_of_a_run true
                    (mkRouteGenerationConfig
                       (Some (mkRouteSelectionStrategy TOP_N (Some 5) None))
                       None None 1 50 10 "bicycle" "Road")
                    (mkSelection [stats_030_067] ∅ [stats_030_067] ∅)
                    new_Generator "2025-01-01T00:00:00Z" 0 [geometry_030_067]
                    {["030" := [geometry_030_067]]} o eq_refl) as H
  end.
  destruct H as (_ & Htop & Hcount & _).
  split; [exact Htop | exact Hcount].
Defined.

(** ** The coordinates of the stations *)

Lemma new_StationCoordinate_ok sid lat lon station :
  new_StationCoordinate sid lat lon = Ok station <->
  station = mkStationCoordinate sid lat lon
  /\ (-90 <= lat)%Q /\ (lat <= 90)%Q /\ (-180 <= lon)%Q /\ (lon <= 180)%Q.
Proof.
  unfold new_StationCoordinate.
  destruct (Qle_bool (-90) lat) eqn:E1; destruct (Qle_bool lat 90) eqn:E2;
    destruct (Qle_bool (-180) lon) eqn:E3; destruct (Qle_bool lon 180) eqn:E4;
    simpl; split; intros H; try discriminate;
    try (destruct H as (_ & H1 & H2 & H3 & H4);
         apply Qle_bool_iff in H1; apply Qle_bool_iff in H2;
         apply Qle_bool_iff in H3; apply Qle_bool_iff in H4; congruence).
  - inversion H. apply Qle_bool_iff in E1. apply Qle_bool_iff in E2.
    apply Qle_bool_iff in E3. apply Qle_bool_iff in E4. auto.
  - destruct H as [-> _]. reflexivity.
Qed.

Lemma coordinates_of_rows_ok rows :
  forall m,
    Forall valid_location rows ->
    exists coords, coordinates_of_rows rows m = Ok coords.
Proof.
  induction rows as [|row rows IH]; intros m Hv; [exists m; reflexivity|].
  inversion Hv as [|? ? (H1 & H2 & H3 & H4) Hrest]; subst.
  cbn [coordinates_of_rows].
  rewrite (proj2 (new_StationCoordinate_ok _ _ _ _)
             (conj eq_refl (conj H1 (conj H2 (conj H3 H4))))).
  apply IH. exact Hrest.
Qed.

Lemma coordinates_of_rows_spec rows :
  forall m coords,
    coordinates_of_rows rows m = Ok coords ->
    Forall valid_location rows
    /\ (forall s c,
          coords !! s = Some c ->
          (exists row,
             In row rows /\ sr_station_id row = s
             /\ c = mkStationCoordinate s (sr_latitude row) (sr_longitude row))
          \/ m !! s = Some c)
    /\ (forall s,
          is_Some (coords !! s) <->
          (exists row, In row rows /\ sr_station_id row = s)
          \/ is_Some (m !! s)).
Proof.
  induction rows as [|row rows IH]; intros m coords Hrun.
  - inversion Hrun; subst. split; [constructor|]. split; [auto|].
    intros s. split; [auto|]. intros [(row & [] & _)|H]. exact H.
  - cbn [coordinates_of_rows] in Hrun.
    destruct (new_StationCoordinate _ _ _) as [station|] eqn:E; [|discriminate].
    cbn [rbind] in Hrun. apply new_StationCoordinate_ok in E.
    destruct E as (-> & Hvalid).
    destruct (IH _ _ Hrun) as (Hv & Hval & Hdom).
    split; [constructor; [exact Hvalid | exact Hv]|]. split.
    + intros s c Hc. destruct (Hval s c Hc) as [(r & Hr & Hid & Heq)|Hm].
      * left. exists r. split; [right; exact Hr|]. auto.
      * apply lookup_insert_Some in Hm.
        destruct Hm as [[<- <-]|[_ Hm]]; [|right; exact Hm].
        left. exists row. split; [left; reflexivity|]. auto.
    + intros s. rewrite Hdom. split.
      * intros [(r & Hr & Hid)|Hm].
        -- left. exists r. split; [right; exact Hr | exact Hid].
        -- destruct (String.eqb_spec (sr_station_id row) s) as [Heq|Hne].
           ++ left. exists row. split; [left; reflexivity | exact Heq].
           ++ right. rewrite lookup_insert_ne in Hm by exact Hne. exact Hm.
      * intros [(r & [<-|Hr] & Hid)|Hm].
        -- right. rewrite <- Hid, lookup_insert_eq. eexists. reflexivity.
        -- left. exists r. auto.
        -- destruct (String.eqb_spec (sr_station_id row) s) as [Heq|Hne].
           ++ right. rewrite <- Heq, lookup_insert_eq. eexists. reflexivity.
           ++ right. rewrite lookup_insert_ne by exact Hne. exact Hm.
Qed.

Lemma coordinates_of_rows_invalid rows :
  forall m coords,
    coordinates_of_rows rows m = Ok coords -> Forall valid_location rows.
Proof. intros m coords H. apply (coordinates_of_rows_spec rows m coords H). Qed.

Lemma requested_station routes (row : StationRow) :
  existsb (String.eqb (sr_station_id row))
    (flat_map (fun route =>
                 [departure_station_id route; return_station_id route]) routes)
  = true
  <-> station_of_routes routes (sr_station_id row).
Proof.
  rewrite existsb_exists. unfold station_of_routes. split.
  - intros (s & Hs & Heq). apply String.eqb_eq in Heq.
    apply in_flat_map in Hs. destruct Hs as (r & Hr & Hin).
    exists r. split; [exact Hr|].
    destruct Hin as [H|[H|[]]]; [left | right]; congruence.
  - intros (r & Hr & Hs).
    exists (sr_station_id row). split; [|apply String.eqb_refl].
    apply in_flat_map. exists r. split; [exact Hr|].
    destruct Hs as [<-|<-]; [left | right; left]; reflexivity.
Qed.

(** X22. The coordinates a run fetches.  [_fetch_station_coordinates]
    returns exactly when every station of the routes that the table
    has lies within the valid latitudes and longitudes; one such
    station outside them aborts the run, whereas a station that the
    table lacks is only left out.  What it returns holds each station
    under its own identifier, with the coordinates of a row of the
    table, for the stations of the routes that the table has and for
    no other; so the routes that [_generate_geometries] does not skip
    are those whose two stations are in the table. *)
Theorem fetched_coordinates
    (routes : list RouteStatistics) (stations : list StationRow) :
  ((exists coords, _fetch_station_coordinates routes stations = Ok coords)
   <-> forall row,
         In row stations -> station_of_routes routes (sr_station_id row) ->
         valid_location row)
  /\ forall coords,
       _fetch_station_coordinates routes stations = Ok coords ->
       coordinates_by_id coords
       /\ (forall s,
             is_Some (coords !! s) <->
             station_of_routes routes s
             /\ exists row, In row stations /\ sr_station_id row = s)
       /\ (forall s c,
             coords !! s = Some c ->
             exists row,
               In row stations /\ valid_location row
               /\ c = mkStationCoordinate s (sr_latitude row) (sr_longitude row))
       /\ (forall r,
             In r (located coords routes) <->
             In r routes
             /\ (exists row, In row stations
                             /\ sr_station_id row = departure_station_id r)
             /\ (exists row, In row stations
                             /\ sr_station_id row = return_station_id r)).
Proof.
  unfold _fetch_station_coordinates, get_station_coordinates.
  set (ids := flat_map (fun route =>
                          [departure_station_id route; return_station_id route])
                routes).
  set (rows := List.filter
                 (fun row => existsb (String.eqb (sr_station_id row)) ids)
                 stations).
  assert (forall row, In row rows <->
                      In row stations
                      /\ station_of_routes routes (sr_station_id row)) as Hrows.
  { intros row. unfold rows. rewrite List.filter_In.
    unfold ids. rewrite requested_station. reflexivity. }
  split.
  - split.
    + intros (coords & Hrun) row Hin Hs.
      pose proof (coordinates_of_rows_invalid rows ∅ coords Hrun) as Hv.
      rewrite List.Forall_forall in Hv. apply Hv. apply Hrows. auto.
    + intros Hv. apply coordinates_of_rows_ok.
      apply List.Forall_forall. intros row Hrow. apply Hrows in Hrow.
      apply Hv; apply Hrow.
  - intros coords Hrun.
    destruct (coordinates_of_rows_spec rows ∅ coords Hrun)
      as (Hv & Hval & Hdom).
    assert (forall s,
              is_Some (coords !! s) <->
              station_of_routes routes s
              /\ exists row, In row stations /\ sr_station_id row = s) as Hdom'.
    { intros s. rewrite Hdom. split.
      - intros [(row & Hrow & Hid)|Hm].
        + apply Hrows in Hrow. destruct Hrow as [Hin Hs].
          rewrite Hid in Hs. split; [exact Hs|]. exists row. auto.
        + rewrite lookup_empty in Hm. destruct Hm as [? Hm]. discriminate.
      - intros (Hs & row & Hin & Hid). left. exists row.
        split; [|exact Hid]. apply Hrows. rewrite Hid. auto. }
    split; [|split; [exact Hdom'|split]].
    + intros s c Hc. destruct (Hval s c Hc) as [(row & _ & _ & ->)|Hm].
      * reflexivity.
      * rewrite lookup_empty in Hm. discriminate.
    + intros s c Hc. destruct (Hval s c Hc) as [(row & Hrow & _ & ->)|Hm].
      * exists row. split; [apply Hrows; exact Hrow|].
        split; [|reflexivity].
        rewrite List.Forall_forall in Hv. apply Hv. exact Hrow.
      * rewrite lookup_empty in Hm. discriminate.
    + intros r. unfold located. rewrite List.filter_In, andb_true_iff,
        !bool_decide_eq_true, !Hdom'.
      split.
      * intros (Hr & (_ & H1) & (_ & H2)). auto.
      * intros (Hr & H1 & H2). split; [exact Hr|].
        split; (split; [exists r; auto|assumption]).
Qed.

Lemma fetched_coordinates_witness :
  exists coords,
    _fetch_station_coordinates [stats_030_067] stations_table = Ok coords
    /\ coordinates_by_id coords.
Proof.
  destruct (fetched_coordinates [stats_030_067] stations_table)
    as [Hreturns Hspec].
  destruct (proj2 Hreturns) as (coords & Hrun).
  - intros row Hin (r & [<-|[]] & Hs).
    destruct Hin as [<-|[<-|[<-|[]]]]; simpl in Hs.
    + repeat split; discriminate.
    + repeat split; discriminate.
    + destruct Hs as [Hs|Hs]; discriminate.
  - exists coords. split; [exact Hrun|]. apply (Hspec coords Hrun).
Defined.
